(** * Home Purchase Analyzer: the projection engine

    A shallow embedding of the calculation functions of the web
    application (calculator.js and the analysis / comparison code of
    app.js) together with the properties stated about them.

    JavaScript numbers are modelled by exact rationals [Q]: every
    arithmetic operation of the source is the corresponding operation on
    [Q], comparisons are the decidable comparisons of [Q], and numeric
    equality is [Qeq] (written [==]).  Loan terms, horizons and event
    years are integers in the application (they are read with [parseInt])
    and are modelled by [Z].  Rounding, infinities and NaN are outside
    the model; the only divisions whose divisor can vanish are guarded in
    the source or excluded by the hypotheses of the statements. *)

From Stdlib Require Import QArith Qabs Qpower ZArith List Lia Lqa Bool String
  Ascii.
Import ListNotations.

Local Open Scope Q_scope.

(** ** JavaScript numeric primitives *)

Module JS.

  (** [a < b] *)
Definition ltb (a b : Q) : bool := negb (Qle_bool b a).

  (** [a <= b] *)
Definition leb (a b : Q) : bool := Qle_bool a b.

  (** [a >= b] *)
Definition geb (a b : Q) : bool := Qle_bool b a.

  (** [a > b] *)
Definition gtb (a b : Q) : bool := negb (Qle_bool a b).

  (** [a === b] on numbers *)
Definition eqb (a b : Q) : bool := Qeq_bool a b.

  (** [Math.max(a, b)] *)
Definition max (a b : Q) : Q := if Qle_bool a b then b else a.

  (** [Math.abs(a)] *)
Definition abs (a : Q) : Q := Qabs a.

  (** [Math.pow(a, n)] for an integer exponent *)
Definition pow (a : Q) (n : Z) : Q := Qpower a n.

  (** [x || 0] on a number: a falsy number (zero) is replaced by 0 *)
Definition or0 (x : Q) : Q := if Qeq_bool x 0 then 0 else x.

  (** [Math.ceil(m / 12)] for a month counter [m] *)
Definition ceil_div12 (m : nat) : nat := Nat.div (m + 11) 12.

End JS.

(** ** calculator.js *)

(** [calculateMonthlyPayment(principal, annualRate, years)] *)
Definition calculateMonthlyPayment (principal annualRate : Q) (years : Z) : Q :=
  if JS.leb principal 0 || (years <=? 0)%Z then 0
  else
    let monthlyRate := annualRate / 100 / 12 in
    let numPayments := (years * 12)%Z in
    if JS.eqb monthlyRate 0 then principal / inject_Z numPayments
    else
      principal *
      (monthlyRate * JS.pow (1 + monthlyRate) numPayments) /
      (JS.pow (1 + monthlyRate) numPayments - 1).

(** [calculatePMI(loanAmount, purchasePrice, downPaymentPercent)] *)
Definition calculatePMI (loanAmount purchasePrice downPaymentPercent : Q) : Q :=
  if JS.geb downPaymentPercent 20 then 0
  else
    let pmiRate := 75 # 10000 in
    (loanAmount * pmiRate) / 12.

(** One row of the amortization schedule. *)
Record AmortizationRow : Type := mkAmortizationRow {
  am_month : Z;
  am_payment : Q;
  am_principal : Q;
  am_interest : Q;
  am_balance : Q
}.

(** The body of the [for (month = 1; month <= numPayments; month++)] loop
    of [generateAmortizationSchedule]; [fuel] is the number of iterations
    left, [balance] the running (unclamped) balance. *)
Fixpoint amortLoop (fuel : nat) (month : Z) (balance : Q)
    (monthlyRate monthlyPayment : Q) (numPayments : Z)
    : list AmortizationRow :=
  match fuel with
  | O => []
  | S fuel' =>
      let interestPayment := balance * monthlyRate in
      let principalPayment := monthlyPayment - interestPayment in
      let balance1 := balance - principalPayment in
      let balance2 := if (month =? numPayments)%Z then 0 else balance1 in
      mkAmortizationRow month monthlyPayment principalPayment
                        interestPayment (JS.max 0 balance2)
      :: amortLoop fuel' (month + 1)%Z balance2
                   monthlyRate monthlyPayment numPayments
  end.

(** [generateAmortizationSchedule(principal, annualRate, years)] *)
Definition generateAmortizationSchedule (principal annualRate : Q) (years : Z)
    : list AmortizationRow :=
  let monthlyRate := annualRate / 100 / 12 in
  let numPayments := (years * 12)%Z in
  let monthlyPayment := calculateMonthlyPayment principal annualRate years in
  amortLoop (Z.to_nat numPayments) 1%Z principal
            monthlyRate monthlyPayment numPayments.

(** One yearly equity snapshot. *)
Record EquityRow : Type := mkEquityRow {
  eq_year : Z;
  eq_homeValue : Q;
  eq_loanBalance : Q;
  eq_principalPaid : Q;
  eq_equity : Q
}.

(** The [for (year = 1; year <= years; year++)] loop of
    [calculateEquityOverTime]; the loop stops ([break]) as soon as the
    month index leaves the schedule. *)
Fixpoint equityLoop (fuel : nat) (year : Z) (schedule : list AmortizationRow)
    (purchasePrice principal appreciationRate : Q) : list EquityRow :=
  match fuel with
  | O => []
  | S fuel' =>
      let monthIndex := (year * 12 - 1)%Z in
      if (Z.of_nat (List.length schedule) <=? monthIndex)%Z then []
      else
        match nth_error schedule (Z.to_nat monthIndex) with
        | None => [] (* not reached: the index was just checked *)
        | Some monthData =>
            let downPayment := purchasePrice - principal in
            let loanBalance := am_balance monthData in
            let homeValue :=
              purchasePrice * JS.pow (1 + appreciationRate / 100) year in
            let principalPaid := principal - loanBalance in
            let equity :=
              downPayment + principalPaid + (homeValue - purchasePrice) in
            mkEquityRow year homeValue loanBalance principalPaid equity
            :: equityLoop fuel' (year + 1)%Z schedule
                          purchasePrice principal appreciationRate
        end
  end.

(** [calculateEquityOverTime(purchasePrice, principal, rate, years,
    appreciationRate)]: the schedule is generated for [years] itself. *)
Definition calculateEquityOverTime
    (purchasePrice principal rate : Q) (years : Z) (appreciationRate : Q)
    : list EquityRow :=
  let schedule := generateAmortizationSchedule principal rate years in
  equityLoop (Z.to_nat years) 1%Z schedule
             purchasePrice principal appreciationRate.

(** One month of investment growth: the contribution is added, then the
    monthly return is applied. *)
Definition growMonth (contribution monthlyRate value : Q) : Q :=
  (value + contribution) * (1 + monthlyRate).

(** [n] iterations of the inner [for (month = 1; month <= 12; month++)]
    loop of [calculateInvestmentGrowth], on the pair
    [(totalValue, totalInvested)]. *)
Fixpoint investMonths (n : nat) (contribution monthlyRate : Q)
    (totalValue totalInvested : Q) : Q * Q :=
  match n with
  | O => (totalValue, totalInvested)
  | S n' =>
      investMonths n' contribution monthlyRate
                   (growMonth contribution monthlyRate totalValue)
                   (totalInvested + contribution)
  end.

(** One yearly investment snapshot. *)
Record InvestmentRow : Type := mkInvestmentRow {
  inv_year : Z;
  inv_invested : Q;
  inv_value : Q;
  inv_gains : Q
}.

(** The yearly loop of [calculateInvestmentGrowth]. *)
Fixpoint investmentLoop (fuel : nat) (year : Z)
    (totalValue totalInvested monthlyContribution monthlyRate : Q)
    : list InvestmentRow :=
  match fuel with
  | O => []
  | S fuel' =>
      let '(totalValue', totalInvested') :=
        investMonths 12 monthlyContribution monthlyRate
                     totalValue totalInvested in
      let gains := totalValue' - totalInvested' in
      mkInvestmentRow year totalInvested' totalValue' gains
      :: investmentLoop fuel' (year + 1)%Z totalValue' totalInvested'
                        monthlyContribution monthlyRate
  end.

(** [calculateInvestmentGrowth(initialAmount, monthlyContribution,
    annualReturn, years)] *)
Definition calculateInvestmentGrowth
    (initialAmount monthlyContribution annualReturn : Q) (years : Z)
    : list InvestmentRow :=
  let monthlyRate := annualReturn / 100 / 12 in
  investmentLoop (Z.to_nat years) 1%Z initialAmount initialAmount
                 monthlyContribution monthlyRate.

(** The qualitative affordability status. *)
Inductive Status : Type := excellent | good | caution | warning.

Record Affordability : Type := mkAffordability {
  housingRatio : Q;
  dtiRatio : Q;
  withinGuidelines : bool;
  status : Status
}.

(** [calculateAffordabilityRatios(monthlyPayment, monthlyIncome,
    otherDebtPayments)] *)
Definition calculateAffordabilityRatios
    (monthlyPayment monthlyIncome otherDebtPayments : Q) : Affordability :=
  let housingRatio := (monthlyPayment / monthlyIncome) * 100 in
  let totalDebt := monthlyPayment + otherDebtPayments in
  let dtiRatio := (totalDebt / monthlyIncome) * 100 in
  let status :=
    if JS.gtb housingRatio 40 || JS.gtb dtiRatio 43 then warning
    else if JS.gtb housingRatio 33 || JS.gtb dtiRatio 36 then caution
    else if JS.gtb housingRatio 28 || JS.gtb dtiRatio 30 then good
    else excellent in
  mkAffordability housingRatio dtiRatio
                  (JS.leb housingRatio 28 && JS.leb dtiRatio 36) status.

(** ** The analysis and comparison code of app.js *)

(** The result of the goal-seek solver: a whole number of years, or the
    JavaScript value [Infinity]. *)
Inductive GoalResult : Type :=
  | Years (n : nat)
  | Never.

(** The [while (balance < goalAmount && months < maxMonths)] loop of
    [calculateYearsToGoal]; [fuel] is [maxMonths - months].  Returns the
    value of [months] on exit. *)
Fixpoint goalLoop (fuel : nat) (months : nat) (balance : Q)
    (monthlyContribution monthlyRate goalAmount : Q) : nat :=
  match fuel with
  | O => months
  | S fuel' =>
      if JS.ltb balance goalAmount then
        goalLoop fuel' (S months)
                 (growMonth monthlyContribution monthlyRate balance)
                 monthlyContribution monthlyRate goalAmount
      else months
  end.

Definition maxMonths : nat := 100 * 12.

(** [calculateYearsToGoal(startingAmount, monthlyContribution,
    annualReturn, goalAmount)] *)
Definition calculateYearsToGoal
    (startingAmount monthlyContribution annualReturn goalAmount : Q)
    : GoalResult :=
  if JS.geb startingAmount goalAmount then Years 0
  else if JS.leb monthlyContribution 0 && JS.ltb startingAmount goalAmount
  then Never
  else
    let monthlyRate := annualReturn / 100 / 12 in
    let months :=
      goalLoop maxMonths 0 startingAmount
               monthlyContribution monthlyRate goalAmount in
    if (maxMonths <=? months)%nat then Never
    else Years (JS.ceil_div12 months).

(** One entry of [netWorthData]. *)
Record NetWorthRow : Type := mkNetWorthRow {
  nw_year : Z;
  nw_equity : Q;
  nw_portfolio : Q;
  totalNetWorth : Q
}.

(** The fields of a scenario result that the comparator reads. *)
Record ScenarioResults : Type := mkScenarioResults {
  netWorthData : list NetWorthRow;
  finalNetWorth : Q
}.

(** [data[i]?.totalNetWorth || 0] *)
Definition netWorthAt (data : list NetWorthRow) (i : nat) : Q :=
  match nth_error data i with
  | Some row => JS.or0 (totalNetWorth row)
  | None => 0
  end.

(** The crossover test of [determineWinner] on the previous and the
    current pair of net worths. *)
Definition crossedOver (prevA prevB curA curB : Q) : bool :=
  (JS.ltb prevA prevB && JS.geb curA curB) ||
  (JS.gtb prevA prevB && JS.leb curA curB).

(** The [for (i = 0; i < timeframe; i++)] loop of [determineWinner]:
    index 0 is skipped ([continue]) and the loop stops ([break]) at the
    first crossover. *)
Fixpoint breakEvenLoop (fuel : nat) (i : nat)
    (dataA dataB : list NetWorthRow) : option Z :=
  match fuel with
  | O => None
  | S fuel' =>
      let networthA := netWorthAt dataA i in
      let networthB := netWorthAt dataB i in
      match i with
      | O => breakEvenLoop fuel' (S i) dataA dataB
      | S j =>
          let prevNetworthA := netWorthAt dataA j in
          let prevNetworthB := netWorthAt dataB j in
          if crossedOver prevNetworthA prevNetworthB networthA networthB
          then Some (Z.of_nat i + 1)%Z
          else breakEvenLoop fuel' (S i) dataA dataB
      end
  end.

Inductive Label : Type := A | B.

Record Winner : Type := mkWinner {
  winner : Label;
  difference : Q;
  breakEvenYear : option Z
}.

(** [determineWinner(resultsA, resultsB, timeframe)] *)
Definition determineWinner (resultsA resultsB : ScenarioResults)
    (timeframe : Z) : Winner :=
  let breakEvenYear :=
    breakEvenLoop (Z.to_nat timeframe) 0
                  (netWorthData resultsA) (netWorthData resultsB) in
  let finalDiff := finalNetWorth resultsA - finalNetWorth resultsB in
  mkWinner (if JS.gtb finalDiff 0 then A else B)
           (JS.abs finalDiff)
           breakEvenYear.

(** *** The year-by-year simulator *)

Record IncomeInfo : Type := mkIncomeInfo {
  annualIncome : Q;
  currentPortfolio : Q
}.

Record PropertyInfo : Type := mkPropertyInfo {
  purchasePrice : Q;
  downPaymentAmount : Q;
  interestRate : Q;
  loanTerm : Z
}.

Record Calculations : Type := mkCalculations {
  totalMonthlyCost : Q;
  loanAmount : Q
}.

(** The fields of a saved scenario that the simulator reads. *)
Record Scenario : Type := mkScenario {
  incomeInfo : IncomeInfo;
  propertyInfo : PropertyInfo;
  calculations : Calculations
}.

(** An entry of [appState.incomeAdjustments]. *)
Record IncomeAdjustment : Type := mkIncomeAdjustment {
  adj_year : Z;
  adj_income : Q
}.

(** A life event as returned by [getLifeEventsFromForm]; [ev_type] is
    the value of the type selector. *)
Record LifeEvent : Type := mkLifeEvent {
  ev_year : Z;
  ev_description : string;
  ev_type : string;
  ev_amount : Q
}.

(** The three variables that the [lifeEvents.forEach] callback updates. *)
Record EventState : Type := mkEventState {
  st_oneTimeExpense : Q;
  st_ongoingExpenseAdjustment : Q;
  st_currentIncome : Q
}.

(** The body of the [lifeEvents.forEach] callback for the year [year]. *)
Definition applyEvent (year : Z) (st : EventState) (event : LifeEvent)
    : EventState :=
  if (ev_year event =? year)%Z then
    if String.eqb (ev_type event) "one-time" then
      mkEventState (st_oneTimeExpense st + ev_amount event)
                   (st_ongoingExpenseAdjustment st)
                   (st_currentIncome st)
    else if String.eqb (ev_type event) "ongoing" then
      mkEventState (st_oneTimeExpense st)
                   (st_ongoingExpenseAdjustment st + ev_amount event / 12)
                   (st_currentIncome st)
    else if String.eqb (ev_type event) "income" then
      mkEventState (st_oneTimeExpense st)
                   (st_ongoingExpenseAdjustment st)
                   (st_currentIncome st + ev_amount event)
    else st
  else st.

(** [lifeEvents.forEach(...)] *)
Definition applyEvents (year : Z) (lifeEvents : list LifeEvent)
    (st : EventState) : EventState :=
  fold_left (applyEvent year) lifeEvents st.

(** [n] iterations of [portfolio += monthlySavings;
    portfolio *= (1 + monthlyRate)]. *)
Fixpoint growMonths (n : nat) (contribution monthlyRate value : Q) : Q :=
  match n with
  | O => value
  | S n' => growMonths n' contribution monthlyRate
                       (growMonth contribution monthlyRate value)
  end.

(** One entry of [yearlyData]. *)
Record YearRecord : Type := mkYearRecord {
  yr_year : Z;
  yr_annualIncome : Q;
  yr_monthlyIncome : Q;
  yr_monthlyExpenses : Q;
  yr_monthlyDiscretionary : Q;
  yr_monthlySavings : Q;
  yr_oneTimeExpense : Q;
  yr_portfolio : Q;
  yr_equity : Q;
  yr_netWorth : Q
}.

(** [equityData[year - 1]?.equity || 0] *)
Definition equityAt (equityData : list EquityRow) (year : Z) : Q :=
  match nth_error equityData (Z.to_nat (year - 1)) with
  | Some row => JS.or0 (eq_equity row)
  | None => 0
  end.

(** The three variables that the yearly loop carries from one year to
    the next. *)
Record RunningState : Type := mkRunningState {
  rs_currentIncome : Q;
  rs_portfolio : Q;
  rs_ongoingExpenseAdjustment : Q
}.

Section YearLoop.

  (** [appState.incomeAdjustments], read by the simulator. *)
Variable incomeAdjustments : list IncomeAdjustment.

Variables monthlyHousing annualRaise baseExpenses savingsRate : Q.
Variable lifeEvents : list LifeEvent.
Variable investmentReturn : Q.
Variable equityData : list EquityRow.

  (** The body of the [for (year = 1; year <= years; year++)] loop of
      [calculateYearByYearFinancials]: the record pushed for [year] and
      the running variables after it. *)
Definition yearBody (year : Z) (rs : RunningState)
      : YearRecord * RunningState :=
    let currentIncome1 :=
      rs_currentIncome rs * (1 + annualRaise / 100) in
    let incomeAdj :=
      find (fun adj => (adj_year adj =? year)%Z) incomeAdjustments in
    let currentIncome2 :=
      match incomeAdj with
      | Some adj => adj_income adj
      | None => currentIncome1
      end in
    let monthlyExpenses :=
      monthlyHousing + baseExpenses + rs_ongoingExpenseAdjustment rs in
    let st :=
      applyEvents year lifeEvents
        (mkEventState 0 (rs_ongoingExpenseAdjustment rs) currentIncome2) in
    let oneTimeExpense := st_oneTimeExpense st in
    let currentIncome3 := st_currentIncome st in
    let finalMonthlyIncome := currentIncome3 / 12 in
    let monthlyDiscretionary := finalMonthlyIncome - monthlyExpenses in
    let monthlySavings :=
      if JS.gtb monthlyDiscretionary 0
      then monthlyDiscretionary * savingsRate / 100
      else 0 in
    let monthlyRate := investmentReturn / 100 / 12 in
    let portfolio1 :=
      growMonths 12 monthlySavings monthlyRate (rs_portfolio rs) in
    let portfolio2 := JS.max 0 (portfolio1 - oneTimeExpense) in
    let equity := equityAt equityData year in
    (mkYearRecord year currentIncome3 finalMonthlyIncome monthlyExpenses
                  monthlyDiscretionary monthlySavings oneTimeExpense
                  portfolio2 equity (portfolio2 + equity),
     mkRunningState currentIncome3 portfolio2
                    (st_ongoingExpenseAdjustment st)).

  (** The loop itself; [fuel] is the number of years left. *)
Fixpoint yearLoop (fuel : nat) (year : Z) (rs : RunningState)
      : list YearRecord :=
    match fuel with
    | O => []
    | S fuel' =>
        let '(record, rs') := yearBody year rs in
        record :: yearLoop fuel' (year + 1)%Z rs'
    end.

End YearLoop.

Record YearByYear : Type := mkYearByYear {
  yearlyData : list YearRecord;
  equityData : list EquityRow
}.

(** [calculateYearByYearFinancials(scenario, years, annualRaise,
    baseExpenses, savingsRate, lifeEvents, investmentReturn,
    appreciationRate)]; the first argument is the global
    [appState.incomeAdjustments] that the function reads. *)
Definition calculateYearByYearFinancials
    (incomeAdjustments : list IncomeAdjustment)
    (scenario : Scenario) (years : Z)
    (annualRaise baseExpenses savingsRate : Q)
    (lifeEvents : list LifeEvent)
    (investmentReturn appreciationRate : Q) : YearByYear :=
  let monthlyHousing := totalMonthlyCost (calculations scenario) in
  let startingPortfolio :=
    JS.max 0 (currentPortfolio (incomeInfo scenario)
              - downPaymentAmount (propertyInfo scenario)) in
  let equityData :=
    calculateEquityOverTime
      (purchasePrice (propertyInfo scenario))
      (loanAmount (calculations scenario))
      (interestRate (propertyInfo scenario))
      (Z.min years (loanTerm (propertyInfo scenario)))
      appreciationRate in
  mkYearByYear
    (yearLoop incomeAdjustments monthlyHousing annualRaise baseExpenses
              savingsRate lifeEvents investmentReturn equityData
              (Z.to_nat years) 1%Z
              (mkRunningState (annualIncome (incomeInfo scenario))
                              startingPortfolio 0))
    equityData.

(** *** The scenario results used by the comparison *)

(** [equityData.map((equity, index) => ...)] of
    [calculateScenarioFinancials]: the entry of index [index] pairs the
    equity snapshot with [portfolioData[index] || { value: 0 }]. *)
Fixpoint netWorthMap (index : nat) (equityData : list EquityRow)
    (portfolioData : list InvestmentRow) : list NetWorthRow :=
  match equityData with
  | [] => []
  | equity :: rest =>
      let portfolioValue :=
        match nth_error portfolioData index with
        | Some portfolio => inv_value portfolio
        | None => 0
        end in
      mkNetWorthRow (eq_year equity) (eq_equity equity) portfolioValue
                    (eq_equity equity + portfolioValue)
      :: netWorthMap (S index) rest portfolioData
  end.

(** [calculateScenarioFinancials(scenario, otherExpenses, savingsRate,
    currentAge, retirementAge, savingsMilestone, investmentReturn,
    appreciationRate, timeframe)], restricted to the two fields of its
    result that [determineWinner] reads; the retirement and goal fields,
    and the arguments that only they use, are left out. *)
Definition calculateScenarioFinancials (scenario : Scenario)
    (otherExpenses savingsRate investmentReturn appreciationRate : Q)
    (timeframe : Z) : ScenarioResults :=
  let monthlyIncome := annualIncome (incomeInfo scenario) / 12 in
  let monthlyHousingCost := totalMonthlyCost (calculations scenario) in
  let monthlyTotalExpenses := monthlyHousingCost + otherExpenses in
  let monthlyDiscretionary := monthlyIncome - monthlyTotalExpenses in
  let monthlyToInvestments :=
    if JS.gtb monthlyDiscretionary 0
    then (monthlyDiscretionary * savingsRate) / 100
    else 0 in
  let startingPortfolio :=
    JS.max 0 (currentPortfolio (incomeInfo scenario)
              - downPaymentAmount (propertyInfo scenario)) in
  let equityData :=
    calculateEquityOverTime
      (purchasePrice (propertyInfo scenario))
      (loanAmount (calculations scenario))
      (interestRate (propertyInfo scenario))
      (Z.min timeframe (loanTerm (propertyInfo scenario)))
      appreciationRate in
  let portfolioData :=
    calculateInvestmentGrowth
      (if JS.gtb startingPortfolio 0 then startingPortfolio else 0)
      (if JS.gtb monthlyToInvestments 0 then monthlyToInvestments else 0)
      investmentReturn timeframe in
  let netWorthData := netWorthMap 0 equityData portfolioData in
  mkScenarioResults
    netWorthData
    (if (timeframe - 1 <? 0)%Z then 0
     else netWorthAt netWorthData (Z.to_nat (timeframe - 1))).

(** [runComprehensiveComparison(...).winner] *)
Definition runComprehensiveComparison (scenarioA scenarioB : Scenario)
    (otherExpenses savingsRate investmentReturn appreciationRate : Q)
    (timeframe : Z) : Winner :=
  let resultsA :=
    calculateScenarioFinancials scenarioA otherExpenses savingsRate
                                investmentReturn appreciationRate timeframe in
  let resultsB :=
    calculateScenarioFinancials scenarioB otherExpenses savingsRate
                                investmentReturn appreciationRate timeframe in
  determineWinner resultsA resultsB timeframe.

(** ** Further functions of calculator.js *)

(** [calculateRecommendedPrice(annualIncome, monthlyDebts,
    downPaymentPercent, rate, years)]; the constants 0.28 and 0.85 are
    the rationals 28/100 and 85/100. *)
Definition calculateRecommendedPrice
    (annualIncome monthlyDebts downPaymentPercent rate : Q) (years : Z) : Q :=
  let monthlyIncome := annualIncome / 12 in
  let maxPayment := monthlyIncome * (28 # 100) in
  let estimatedPayment := maxPayment * (85 # 100) in
  let monthlyRate := rate / 100 / 12 in
  let numPayments := (years * 12)%Z in
  let maxLoan :=
    if JS.eqb monthlyRate 0 then estimatedPayment * inject_Z numPayments
    else
      estimatedPayment *
      (JS.pow (1 + monthlyRate) numPayments - 1) /
      (monthlyRate * JS.pow (1 + monthlyRate) numPayments) in
  maxLoan / (1 - downPaymentPercent / 100).

(** The result of [compareInvestmentVsEquity]; [cmp_crossoverYear] is
    [None] when the property [crossoverYear] is never set. *)
Record InvestmentVsEquity : Type := mkInvestmentVsEquity {
  cmp_equity : list EquityRow;
  cmp_investment : list InvestmentRow;
  cmp_finalEquity : Q;
  cmp_finalInvestment : Q;
  cmp_crossoverYear : option Z
}.

(** The crossover loop of [compareInvestmentVsEquity]: the first index
    at which the equity exceeds the investment value. *)
Fixpoint crossoverLoop (fuel : nat) (i : nat)
    (equitySchedule : list EquityRow) (investmentGrowth : list InvestmentRow)
    : option Z :=
  match fuel with
  | O => None
  | S fuel' =>
      match nth_error equitySchedule i, nth_error investmentGrowth i with
      | Some e, Some v =>
          if JS.gtb (eq_equity e) (inv_value v)
          then Some (Z.of_nat i + 1)%Z
          else crossoverLoop fuel' (S i) equitySchedule investmentGrowth
      | _, _ => None (* not reached: both lists have [years] entries *)
      end
  end.

(** [array[years - 1]?.field || 0] for a list [l], [years] being its
    length or a horizon. *)
Definition lastOr0 {T : Type} (field : T -> Q) (l : list T) (years : Z) : Q :=
  if (years - 1 <? 0)%Z then 0
  else
    match nth_error l (Z.to_nat (years - 1)) with
    | Some x => JS.or0 (field x)
    | None => 0
    end.

(** [compareInvestmentVsEquity(portfolioAmount, equitySchedule,
    investmentReturn)] *)
Definition compareInvestmentVsEquity (portfolioAmount : Q)
    (equitySchedule : list EquityRow) (investmentReturn : Q)
    : InvestmentVsEquity :=
  let years := Z.of_nat (List.length equitySchedule) in
  let investmentGrowth :=
    calculateInvestmentGrowth portfolioAmount 0 investmentReturn years in
  mkInvestmentVsEquity
    equitySchedule investmentGrowth
    (lastOr0 eq_equity equitySchedule years)
    (lastOr0 inv_value investmentGrowth years)
    (crossoverLoop (List.length equitySchedule) 0
                   equitySchedule investmentGrowth).

(** A house as passed to [compareHousePrices]. *)
Record House : Type := mkHouse {
  h_price : Q;
  h_downPayment : Q;
  h_rate : Q;
  h_term : Z;
  h_taxes : Q;
  h_insurance : Q;
  h_hoa : Q
}.

(** One entry of [combinedWealth]. *)
Record WealthRow : Type := mkWealthRow {
  w_year : Z;
  w_equity : Q;
  w_investmentValue : Q;
  w_totalWealth : Q
}.

(** [cheaperEquity[i]?.equity || 0] *)
Definition equityAtIndex (equityData : list EquityRow) (i : nat) : Q :=
  match nth_error equityData i with
  | Some row => JS.or0 (eq_equity row)
  | None => 0
  end.

(** [investmentFromSavings[i]?.value || 0] *)
Definition valueAtIndex (investmentData : list InvestmentRow) (i : nat) : Q :=
  match nth_error investmentData i with
  | Some row => JS.or0 (inv_value row)
  | None => 0
  end.

(** [combinedWealth[i]?.totalWealth || 0] *)
Definition wealthAtIndex (combinedWealth : list WealthRow) (i : nat) : Q :=
  match nth_error combinedWealth i with
  | Some row => JS.or0 (w_totalWealth row)
  | None => 0
  end.

(** The loop of [compareHousePrices] that fills [combinedWealth]. *)
Fixpoint combinedWealthLoop (fuel : nat) (i : nat)
    (cheaperEquity : list EquityRow)
    (investmentFromSavings : list InvestmentRow) : list WealthRow :=
  match fuel with
  | O => []
  | S fuel' =>
      let equity := equityAtIndex cheaperEquity i in
      let investment := valueAtIndex investmentFromSavings i in
      mkWealthRow (Z.of_nat i + 1)%Z equity investment (equity + investment)
      :: combinedWealthLoop fuel' (S i) cheaperEquity investmentFromSavings
  end.

(** The break-even loop of [compareHousePrices]: the first index at
    which the cheaper strategy is strictly wealthier. *)
Fixpoint houseBreakEvenLoop (fuel : nat) (i : nat)
    (expensiveEquity : list EquityRow) (combinedWealth : list WealthRow)
    : option Z :=
  match fuel with
  | O => None
  | S fuel' =>
      let expensiveWealth := equityAtIndex expensiveEquity i in
      let cheaperWealth := wealthAtIndex combinedWealth i in
      if JS.gtb cheaperWealth expensiveWealth
      then Some (Z.of_nat i + 1)%Z
      else houseBreakEvenLoop fuel' (S i) expensiveEquity combinedWealth
  end.

Inductive Strategy : Type := cheaper | expensive.

Record HouseComparison : Type := mkHouseComparison {
  expensiveHouseWealth : list EquityRow;
  cheaperHouseWealth : list WealthRow;
  hc_monthlySavings : Q;
  hc_breakEvenYear : option Z;
  hc_winner : Strategy;
  finalExpensiveWealth : Q;
  finalCheaperWealth : Q;
  wealthDifference : Q
}.

(** [compareHousePrices(expensiveHouse, cheaperHouse, investmentReturn,
    appreciationRate, years)] *)
Definition compareHousePrices (expensiveHouse cheaperHouse : House)
    (investmentReturn appreciationRate : Q) (years : Z) : HouseComparison :=
  let expensiveLoan :=
    h_price expensiveHouse * (1 - h_downPayment expensiveHouse / 100) in
  let cheaperLoan :=
    h_price cheaperHouse * (1 - h_downPayment cheaperHouse / 100) in
  let expensivePayment :=
    calculateMonthlyPayment expensiveLoan (h_rate expensiveHouse)
                            (h_term expensiveHouse) in
  let cheaperPayment :=
    calculateMonthlyPayment cheaperLoan (h_rate cheaperHouse)
                            (h_term cheaperHouse) in
  let expensivePMI :=
    calculatePMI expensiveLoan (h_price expensiveHouse)
                 (h_downPayment expensiveHouse) in
  let cheaperPMI :=
    calculatePMI cheaperLoan (h_price cheaperHouse)
                 (h_downPayment cheaperHouse) in
  let expensiveMonthly :=
    expensivePayment + expensivePMI + h_taxes expensiveHouse
    + h_insurance expensiveHouse + h_hoa expensiveHouse in
  let cheaperMonthly :=
    cheaperPayment + cheaperPMI + h_taxes cheaperHouse
    + h_insurance cheaperHouse + h_hoa cheaperHouse in
  let monthlySavings := expensiveMonthly - cheaperMonthly in
  let expensiveEquity :=
    calculateEquityOverTime (h_price expensiveHouse) expensiveLoan
      (h_rate expensiveHouse) (Z.min years (h_term expensiveHouse))
      appreciationRate in
  let cheaperEquity :=
    calculateEquityOverTime (h_price cheaperHouse) cheaperLoan
      (h_rate cheaperHouse) (Z.min years (h_term cheaperHouse))
      appreciationRate in
  let downPaymentDiff :=
    (h_price expensiveHouse * h_downPayment expensiveHouse / 100)
    - (h_price cheaperHouse * h_downPayment cheaperHouse / 100) in
  let investmentFromSavings :=
    calculateInvestmentGrowth downPaymentDiff monthlySavings
                              investmentReturn years in
  let combinedWealth :=
    combinedWealthLoop (Z.to_nat years) 0 cheaperEquity
                       investmentFromSavings in
  let breakEvenYear :=
    houseBreakEvenLoop (Z.to_nat years) 0 expensiveEquity combinedWealth in
  let finalExpensiveWealth := lastOr0 eq_equity expensiveEquity years in
  let finalCheaperWealth := lastOr0 w_totalWealth combinedWealth years in
  mkHouseComparison
    expensiveEquity combinedWealth monthlySavings breakEvenYear
    (if JS.gtb finalCheaperWealth finalExpensiveWealth
     then cheaper else expensive)
    finalExpensiveWealth finalCheaperWealth
    (JS.abs (finalExpensiveWealth - finalCheaperWealth)).

(** ** The rent scenario of [calculateBuyVsRent] *)

(** One entry of [rentScenario]. *)
Record RentRecord : Type := mkRentRecord {
  rt_year : Z;
  rt_annualIncome : Q;
  rt_monthlyRent : Q;
  rt_monthlyExpenses : Q;
  rt_monthlyDiscretionary : Q;
  rt_monthlySavings : Q;
  rt_portfolio : Q;
  rt_netWorth : Q
}.

(** The variables that the rent loop carries from one year to the next:
    those of the buy loop and the current rent. *)
Record RentState : Type := mkRentState {
  rn_running : RunningState;
  rn_currentRent : Q
}.

Section RentLoop.

Variable incomeAdjustments : list IncomeAdjustment.
Variables rentIncrease annualRaise baseExpenses savingsRate : Q.
Variable lifeEvents : list LifeEvent.
Variable investmentReturn : Q.

(** The body of the rent loop of [calculateBuyVsRent]. *)
Definition rentBody (year : Z) (rn : RentState) : RentRecord * RentState :=
  let rs := rn_running rn in
  let currentIncome1 :=
    rs_currentIncome rs * (1 + annualRaise / 100) in
  let currentRent := rn_currentRent rn * (1 + rentIncrease / 100) in
  let incomeAdj :=
    find (fun adj => (adj_year adj =? year)%Z) incomeAdjustments in
  let currentIncome2 :=
    match incomeAdj with
    | Some adj => adj_income adj
    | None => currentIncome1
    end in
  let monthlyExpenses :=
    currentRent + baseExpenses + rs_ongoingExpenseAdjustment rs in
  let st :=
    applyEvents year lifeEvents
      (mkEventState 0 (rs_ongoingExpenseAdjustment rs) currentIncome2) in
  let oneTimeExpense := st_oneTimeExpense st in
  let currentIncome3 := st_currentIncome st in
  let finalMonthlyIncome := currentIncome3 / 12 in
  let monthlyDiscretionary := finalMonthlyIncome - monthlyExpenses in
  let monthlySavings :=
    if JS.gtb monthlyDiscretionary 0
    then monthlyDiscretionary * savingsRate / 100
    else 0 in
  let monthlyRate := investmentReturn / 100 / 12 in
  let portfolio1 :=
    growMonths 12 monthlySavings monthlyRate (rs_portfolio rs) in
  let portfolio2 := JS.max 0 (portfolio1 - oneTimeExpense) in
  (mkRentRecord year currentIncome3 currentRent monthlyExpenses
                monthlyDiscretionary monthlySavings portfolio2 portfolio2,
   mkRentState
     (mkRunningState currentIncome3 portfolio2
                     (st_ongoingExpenseAdjustment st))
     currentRent).

(** The rent loop; [fuel] is the number of years left. *)
Fixpoint rentLoop (fuel : nat) (year : Z) (rn : RentState)
    : list RentRecord :=
  match fuel with
  | O => []
  | S fuel' =>
      let '(record, rn') := rentBody year rn in
      record :: rentLoop fuel' (year + 1)%Z rn'
  end.

End RentLoop.

Record BuyVsRent : Type := mkBuyVsRent {
  bvr_buy : list YearRecord;
  bvr_rent : list RentRecord
}.

(** [calculateBuyVsRent(scenario, initialRent, rentIncrease, years,
    annualRaise, baseExpenses, savingsRate, lifeEvents, investmentReturn,
    appreciationRate)]; the first argument is the global
    [appState.incomeAdjustments]. *)
Definition calculateBuyVsRent
    (incomeAdjustments : list IncomeAdjustment)
    (scenario : Scenario) (initialRent rentIncrease : Q) (years : Z)
    (annualRaise baseExpenses savingsRate : Q)
    (lifeEvents : list LifeEvent)
    (investmentReturn appreciationRate : Q) : BuyVsRent :=
  let buyScenario :=
    calculateYearByYearFinancials incomeAdjustments scenario years
      annualRaise baseExpenses savingsRate lifeEvents investmentReturn
      appreciationRate in
  mkBuyVsRent
    (yearlyData buyScenario)
    (rentLoop incomeAdjustments rentIncrease annualRaise baseExpenses
              savingsRate lifeEvents investmentReturn
              (Z.to_nat years) 1%Z
              (mkRentState
                 (mkRunningState (annualIncome (incomeInfo scenario))
                                 (currentPortfolio (incomeInfo scenario)) 0)
                 initialRent)).

(** ** storage.js

    The scenarios kept in [localStorage] are modelled by the list that
    [loadScenarios] returns; [JSON.stringify] followed by [JSON.parse]
    is the identity on the records modelled here.  A write that throws
    (a full or unavailable store) is modelled for [saveScenario], whose
    result reports it; [deleteScenario] and [importFromJSON] are
    modelled for a store that accepts the write.  Strings are sequences
    of code units below 256, and a scenario's name is a string. *)

(** The fields of [propertyInfo] that [validateScenario] reads, each as
    the number that a comparison reads from it: [None] when the field is
    missing from the parsed object or its value does not read as a
    number, so that the comparison is made with [NaN]. *)
Record SavedProperty : Type := mkSavedProperty {
  sp_purchasePrice : option Q;
  sp_downPaymentPercent : option Q;
  sp_interestRate : option Q;
  sp_loanTerm : option Q
}.

(** The field of [incomeInfo] that [validateScenario] reads. *)
Record SavedIncome : Type := mkSavedIncome {
  si_annualIncome : option Q
}.

(** [x <= b] for a field [x] of a parsed object: false when [x] does
    not read as a number. *)
Definition fieldLeb (x : option Q) (b : Q) : bool :=
  match x with
  | Some v => JS.leb v b
  | None => false
  end.

(** [x < b] for a field [x] of a parsed object. *)
Definition fieldLtb (x : option Q) (b : Q) : bool :=
  match x with
  | Some v => JS.ltb v b
  | None => false
  end.

(** [x > b] for a field [x] of a parsed object. *)
Definition fieldGtb (x : option Q) (b : Q) : bool :=
  match x with
  | Some v => JS.gtb v b
  | None => false
  end.

(** A scenario as stored: its identity, and what the validation reads;
    a [propertyInfo] or [incomeInfo] that is missing (or falsy) is
    [None], a missing name the empty string. *)
Record SavedScenario : Type := mkSavedScenario {
  sc_id : string;
  sc_name : string;
  sc_timestamp : string;
  sc_propertyInfo : option SavedProperty;
  sc_incomeInfo : option SavedIncome
}.

(** The white space and line terminator code units below 256 that
    [String.prototype.trim] removes. *)
Definition isWhitespace (c : ascii) : bool :=
  let n := nat_of_ascii c in
  (n =? 9)%nat || (n =? 10)%nat || (n =? 11)%nat || (n =? 12)%nat ||
  (n =? 13)%nat || (n =? 32)%nat || (n =? 160)%nat.

Fixpoint trimStart (s : string) : string :=
  match s with
  | EmptyString => EmptyString
  | String c rest => if isWhitespace c then trimStart rest else s
  end.

Fixpoint trimEnd (s : string) : string :=
  match s with
  | EmptyString => EmptyString
  | String c rest =>
      match trimEnd rest with
      | EmptyString =>
          if isWhitespace c then EmptyString else String c EmptyString
      | rest' => String c rest'
      end
  end.

(** [s.trim()] *)
Definition trim (s : string) : string := trimEnd (trimStart s).

Record Validation : Type := mkValidation {
  valid : bool;
  errors : list string
}.

(** [validateScenario(scenario)]; the errors are pushed in this order. *)
Definition validateScenario (scenario : SavedScenario) : Validation :=
  let nameErrors :=
    if String.eqb (sc_name scenario) "" ||
       String.eqb (trim (sc_name scenario)) ""
    then ["Scenario name is required"%string] else [] in
  let propertyErrors :=
    match sc_propertyInfo scenario with
    | None => ["Property information is missing"%string]
    | Some propertyInfo =>
        (if fieldLeb (sp_purchasePrice propertyInfo) 0
         then ["Purchase price must be greater than 0"%string] else [])
        ++ (if fieldLtb (sp_downPaymentPercent propertyInfo) 0 ||
               fieldGtb (sp_downPaymentPercent propertyInfo) 100
            then ["Down payment percent must be between 0 and 100"%string]
            else [])
        ++ (if fieldLtb (sp_interestRate propertyInfo) 0
            then ["Interest rate cannot be negative"%string] else [])
        ++ (if fieldLeb (sp_loanTerm propertyInfo) 0
            then ["Loan term must be greater than 0"%string] else [])
    end in
  let incomeErrors :=
    match sc_incomeInfo scenario with
    | None => ["Income information is missing"%string]
    | Some incomeInfo =>
        if fieldLeb (si_annualIncome incomeInfo) 0
        then ["Annual income must be greater than 0"%string] else []
    end in
  let errors := nameErrors ++ propertyErrors ++ incomeErrors in
  mkValidation (List.length errors =? 0)%nat errors.

(** [scenarios.findIndex(s => s.id === id)]; [None] stands for -1. *)
Fixpoint findIndex (id : string) (scenarios : list SavedScenario)
    : option nat :=
  match scenarios with
  | [] => None
  | s :: rest =>
      if String.eqb (sc_id s) id then Some O
      else option_map S (findIndex id rest)
  end.

(** [scenarios[index] = scenario] for an index within the list. *)
Fixpoint replaceAt (index : nat) (scenario : SavedScenario)
    (scenarios : list SavedScenario) : list SavedScenario :=
  match scenarios, index with
  | [], _ => []
  | _ :: rest, O => scenario :: rest
  | s :: rest, S index' => s :: replaceAt index' scenario rest
  end.

(** The update-or-append step shared by [saveScenario] and the merge
    loop of [importFromJSON]. *)
Definition upsert (scenario : SavedScenario)
    (scenarios : list SavedScenario) : list SavedScenario :=
  match findIndex (sc_id scenario) scenarios with
  | Some existingIndex => replaceAt existingIndex scenario scenarios
  | None => scenarios ++ [scenario]
  end.

Definition withTimestamp (now : string) (s : SavedScenario)
    : SavedScenario :=
  mkSavedScenario (sc_id s) (sc_name s) now
                  (sc_propertyInfo s) (sc_incomeInfo s).

Definition withId (id : string) (s : SavedScenario) : SavedScenario :=
  mkSavedScenario id (sc_name s) (sc_timestamp s)
                  (sc_propertyInfo s) (sc_incomeInfo s).

(** [saveScenario(scenario)] on the stored list [scenarios]; [now] is
    [new Date().toISOString()] and [uuid] the value of
    [generateUUID()].  [setItem l] tells whether
    [localStorage.setItem] accepts the list [l]: when it throws, the
    [catch] returns [false] and nothing has been written.  Returns the
    success flag and the list stored afterwards. *)
Definition saveScenario (setItem : list SavedScenario -> bool)
    (now uuid : string) (scenario : SavedScenario)
    (scenarios : list SavedScenario) : bool * list SavedScenario :=
  let updated :=
    match findIndex (sc_id scenario) scenarios with
    | Some existingIndex =>
        replaceAt existingIndex (withTimestamp now scenario) scenarios
    | None =>
        let scenario1 :=
          if String.eqb (sc_id scenario) "" then withId uuid scenario
          else scenario in
        scenarios ++ [withTimestamp now scenario1]
    end in
  if setItem updated then (true, updated) else (false, scenarios).

(** [getScenario(id)]; [None] stands for [null]. *)
Definition getScenario (id : string) (scenarios : list SavedScenario)
    : option SavedScenario :=
  find (fun s => String.eqb (sc_id s) id) scenarios.


(** What [JSON.parse(jsonString)] gives to [importFromJSON]. *)
Inductive Parsed : Type :=
  | ParseError
  | NotAnArray
  | ScenarioArray (importedScenarios : list SavedScenario).

Record ImportResult : Type := mkImportResult {
  success : bool;
  newCount : nat;
  updatedCount : nat
}.

(** The merge loop of [importFromJSON] with its two counters. *)
Fixpoint mergeLoop (importedScenarios mergedScenarios : list SavedScenario)
    (newCount updatedCount : nat) : list SavedScenario * nat * nat :=
  match importedScenarios with
  | [] => (mergedScenarios, newCount, updatedCount)
  | imported :: rest =>
      match findIndex (sc_id imported) mergedScenarios with
      | Some existingIndex =>
          mergeLoop rest (replaceAt existingIndex imported mergedScenarios)
                    newCount (S updatedCount)
      | None =>
          mergeLoop rest (mergedScenarios ++ [imported])
                    (S newCount) updatedCount
      end
  end.

(** [importFromJSON(jsonString)] on the stored list; the counters of a
    failed import are 0 (the fields are absent in the source). *)
Definition importFromJSON (parsed : Parsed)
    (scenarios : list SavedScenario) : ImportResult * list SavedScenario :=
  match parsed with
  | ParseError => (mkImportResult false 0 0, scenarios)
  | NotAnArray => (mkImportResult false 0 0, scenarios)
  | ScenarioArray importedScenarios =>
      if forallb (fun s => valid (validateScenario s)) importedScenarios
      then
        let '(mergedScenarios, newCount, updatedCount) :=
          mergeLoop importedScenarios scenarios 0 0 in
        (mkImportResult true newCount updatedCount, mergedScenarios)
      else (mkImportResult false 0 0, scenarios)
  end.

(** * Specification-side definitions *)







(** The sum of the principal components of a schedule. *)
Definition sumPrincipal (schedule : list AmortizationRow) : Q :=
  fold_right (fun row acc => am_principal row + acc) 0 schedule.

(** The running balance after [k] payments when the final row is not
    forced to 0: each payment takes the interest on the balance and
    pays the rest of [monthlyPayment] off the balance. *)
Fixpoint rawBalance (monthlyRate monthlyPayment : Q) (k : nat) (balance : Q)
    : Q :=
  match k with
  | O => balance
  | S k' =>
      rawBalance monthlyRate monthlyPayment k'
                 (balance - (monthlyPayment - balance * monthlyRate))
  end.

(** The portfolio at the start of the year recorded at position [j] of
    [rows]: the starting portfolio for the first year, the portfolio
    recorded for the previous year otherwise. *)
Definition portfolioBefore (start : Q) (rows : list YearRecord) (j : nat)
    : Q :=
  match j with
  | O => start
  | S j' =>
      match nth_error rows j' with
      | Some rec => yr_portfolio rec
      | None => start
      end
  end.

(** The running variables after [j] iterations of the yearly loop
    started in [year]. *)
Fixpoint stateAfter (incomeAdjustments : list IncomeAdjustment)
    (monthlyHousing annualRaise baseExpenses savingsRate : Q)
    (lifeEvents : list LifeEvent) (investmentReturn : Q)
    (equityData : list EquityRow)
    (j : nat) (year : Z) (rs : RunningState) : RunningState :=
  match j with
  | O => rs
  | S j' =>
      stateAfter incomeAdjustments monthlyHousing annualRaise baseExpenses
                 savingsRate lifeEvents investmentReturn equityData
                 j' (year + 1)%Z
                 (snd (yearBody incomeAdjustments monthlyHousing annualRaise
                                baseExpenses savingsRate lifeEvents
                                investmentReturn equityData year rs))
  end.

(** Two event states with the same expense adjustment and income whose
    one-time expenses differ by [d]. *)
Definition oneTimeShift (d : Q) (s' s : EventState) : Prop :=
  st_ongoingExpenseAdjustment s' = st_ongoingExpenseAdjustment s /\
  st_currentIncome s' = st_currentIncome s /\
  st_oneTimeExpense s' == st_oneTimeExpense s + d.

(** Two event states with the same income whose expense adjustments
    differ by [d]. *)
Definition ongoingShift (d : Q) (s' s : EventState) : Prop :=
  st_ongoingExpenseAdjustment s' == st_ongoingExpenseAdjustment s + d /\
  st_currentIncome s' = st_currentIncome s.

(** The shift that an ongoing event of year [k] has put on the expense
    adjustment after [j] iterations of the yearly loop started in
    [year]: a twelfth of the amount once year [k] is behind. *)
Definition ongoingOffset (k : Z) (amount : Q) (year : Z) (j : nat) : Q :=
  if ((year <=? k)%Z && (k <? year + Z.of_nat j)%Z)%bool
  then amount / 12 else 0.

(** At index [k] both series have an entry and the equity exceeds the
    investment value. *)
Definition equityExceeds (equitySchedule : list EquityRow)
    (investmentGrowth : list InvestmentRow) (k : nat) : Prop :=
  exists (e : EquityRow) (v : InvestmentRow),
    nth_error equitySchedule k = Some e /\
    nth_error investmentGrowth k = Some v /\
    inv_value v < eq_equity e.

(** At index [k] the cheaper strategy is strictly wealthier than the
    expensive house, missing entries counting as 0. *)
Definition cheaperAhead (expensiveEquity : list EquityRow)
    (combinedWealth : list WealthRow) (k : nat) : Prop :=
  equityAtIndex expensiveEquity k < wealthAtIndex combinedWealth k.

(** Two event states with the same expense adjustment and one-time
    expenses whose incomes differ by [d]. *)
Definition incomeShift (d : Q) (s' s : EventState) : Prop :=
  st_ongoingExpenseAdjustment s' = st_ongoingExpenseAdjustment s /\
  st_oneTimeExpense s' = st_oneTimeExpense s /\
  st_currentIncome s' == st_currentIncome s + d.

(** Every code unit of the string is white space. *)
Fixpoint allWhitespace (s : string) : bool :=
  match s with
  | EmptyString => true
  | String c rest => isWhitespace c && allWhitespace rest
  end.

(** * Example data *)

(** Two net-worth series of ten years that cross once, at year 7. *)
Definition crossingA : ScenarioResults :=
  mkScenarioResults
    (map (fun y => mkNetWorthRow y 0 (inject_Z (100 + 10 * y))
                                 (inject_Z (100 + 10 * y)))
         [1; 2; 3; 4; 5; 6; 7; 8; 9; 10]%Z)
    200.

Definition crossingB : ScenarioResults :=
  mkScenarioResults
    (map (fun y => mkNetWorthRow y 0 (inject_Z (35 + 20 * y))
                                 (inject_Z (35 + 20 * y)))
         [1; 2; 3; 4; 5; 6; 7; 8; 9; 10]%Z)
    235.



(** The end-to-end scenario of the specification: a 400000 purchase
    with 20% down, a 30-year loan at 6.5%, and a household earning
    120000 a year that holds a portfolio of 100000. *)
Definition exampleScenario : Scenario :=
  mkScenario
    (mkIncomeInfo 120000 100000)
    (mkPropertyInfo 400000 80000 (13 # 2) 30)
    (mkCalculations 3000 320000).

Definition starterHome : SavedScenario :=
  mkSavedScenario "a1" "Starter home" "2024-01-01T00:00:00.000Z"
    (Some (mkSavedProperty (Some 400000) (Some 20) (Some (13 # 2))
                           (Some 30)))
    (Some (mkSavedIncome (Some 120000))).

Definition condo : SavedScenario :=
  mkSavedScenario "b2" "Condo" "2024-02-01T00:00:00.000Z"
    (Some (mkSavedProperty (Some 250000) (Some 10) (Some 6) (Some 15)))
    (Some (mkSavedIncome (Some 90000))).


(** A scenario parsed from
    [{"id":"d4","name":"x","propertyInfo":{},"incomeInfo":{}}]. *)
Definition emptyScenario : SavedScenario :=
  mkSavedScenario "d4" "x" ""
    (Some (mkSavedProperty None None None None))
    (Some (mkSavedIncome None)).

(** A store that holds at most five scenarios. *)
Definition smallStore (l : list SavedScenario) : bool :=
  (List.length l <=? 5)%nat.

(** An equity schedule of two years for a purchase at 400000 with
    10000 down. *)
Definition twoYearEquity : list EquityRow :=
  [mkEquityRow 1 408000 386000 4000 22000;
   mkEquityRow 2 416160 381700 8300 34460].

(** * Properties *)

(** ** The comparisons *)

Lemma ltb_true (a b : Q) : JS.ltb a b = true <-> a < b.
Proof.
  unfold JS.ltb. rewrite negb_true_iff, <- not_true_iff_false, Qle_bool_iff.
  split; [apply Qnot_le_lt | apply Qlt_not_le].
Qed.

Lemma ltb_false (a b : Q) : JS.ltb a b = false <-> b <= a.
Proof.
  unfold JS.ltb. rewrite negb_false_iff. apply Qle_bool_iff.
Qed.

Lemma gtb_true (a b : Q) : JS.gtb a b = true <-> b < a.
Proof. apply (ltb_true b a). Qed.

Lemma gtb_false (a b : Q) : JS.gtb a b = false <-> a <= b.
Proof. apply (ltb_false b a). Qed.

Lemma leb_true (a b : Q) : JS.leb a b = true <-> a <= b.
Proof. apply Qle_bool_iff. Qed.

Lemma leb_false (a b : Q) : JS.leb a b = false <-> b < a.
Proof.
  unfold JS.leb. rewrite <- not_true_iff_false, Qle_bool_iff.
  split; [apply Qnot_le_lt | apply Qlt_not_le].
Qed.

Lemma geb_true (a b : Q) : JS.geb a b = true <-> b <= a.
Proof. apply Qle_bool_iff. Qed.

Lemma geb_false (a b : Q) : JS.geb a b = false <-> a < b.
Proof. apply (leb_false b a). Qed.

Lemma max_0_nonneg (x : Q) : 0 <= JS.max 0 x.
Proof.
  unfold JS.max. destruct (Qle_bool 0 x) eqn:E.
  - now apply Qle_bool_iff.
  - apply Qle_refl.
Qed.

Lemma max_0_of_nonpos (x : Q) : x <= 0 -> JS.max 0 x == 0.
Proof.
  intros H. unfold JS.max. destruct (Qle_bool 0 x) eqn:E.
  - apply Qle_bool_iff in E. now apply Qle_antisym.
  - reflexivity.
Qed.

Lemma max_0_mono (x y : Q) : x <= y -> JS.max 0 x <= JS.max 0 y.
Proof.
  intros H. unfold JS.max.
  destruct (Qle_bool 0 x) eqn:Ex, (Qle_bool 0 y) eqn:Ey;
    try apply Qle_bool_iff in Ex; try apply Qle_bool_iff in Ey;
    try apply leb_false in Ex; try apply leb_false in Ey; lra.
Qed.

(** ** Affordability *)

(** C9: the status is chosen from the pair of ratios by the thresholds
    40/43, 33/36 and 28/30, first match winning, where the housing
    ratio is payment / income * 100 and the debt-to-income ratio is
    (payment + other debt) / income * 100. *)
Theorem affordability_status_thresholds
    (monthlyPayment monthlyIncome otherDebtPayments : Q) :
  0 < monthlyIncome ->
  let r := calculateAffordabilityRatios
             monthlyPayment monthlyIncome otherDebtPayments in
  let h := housingRatio r in
  let d := dtiRatio r in
  h == monthlyPayment / monthlyIncome * 100 /\
  d == (monthlyPayment + otherDebtPayments) / monthlyIncome * 100 /\
  (status r = warning <-> (40 < h \/ 43 < d)) /\
  (status r = caution <->
     ~ (40 < h \/ 43 < d) /\ (33 < h \/ 36 < d)) /\
  (status r = good <->
     ~ (40 < h \/ 43 < d) /\ ~ (33 < h \/ 36 < d) /\ (28 < h \/ 30 < d)) /\
  (status r = excellent <->
     ~ (40 < h \/ 43 < d) /\ ~ (33 < h \/ 36 < d) /\ ~ (28 < h \/ 30 < d)).
Proof.
  intros _ r h d. subst h d r. cbn [calculateAffordabilityRatios
    housingRatio dtiRatio status].
  set (h := monthlyPayment / monthlyIncome * 100).
  set (d := (monthlyPayment + otherDebtPayments) / monthlyIncome * 100).
  split; [reflexivity|]. split; [reflexivity|].
  destruct (JS.gtb h 40) eqn:H40; destruct (JS.gtb d 43) eqn:D43;
  destruct (JS.gtb h 33) eqn:H33; destruct (JS.gtb d 36) eqn:D36;
  destruct (JS.gtb h 28) eqn:H28; destruct (JS.gtb d 30) eqn:D30;
  cbn [orb];
  repeat match goal with
         | H : JS.gtb _ _ = true |- _ => apply gtb_true in H
         | H : JS.gtb _ _ = false |- _ => apply gtb_false in H
         end;
  repeat split; intros; try discriminate; try reflexivity;
  try (exfalso; intuition lra); intuition lra.
Qed.

Lemma affordability_status_thresholds_witness :
  0 < 10000 /\
  status (calculateAffordabilityRatios 2573 10000 0) = excellent.
Proof.
  split; [reflexivity|].
  apply (affordability_status_thresholds 2573 10000 0); [reflexivity|].
  repeat split; intros [H|H]; vm_compute in H; discriminate.
Defined.

(** ** The comparator *)













(** C1 (as the code has it): the declared winner is A exactly when A's
    final net worth is strictly larger than B's, and B otherwise; in
    particular an exact tie declares B.  The reported difference is the
    absolute value of the difference of the final net worths, and for
    the results that the comparison computes the final net worth is the
    net worth read at the last year of the timeframe. *)
Theorem winner_by_final_net_worth
    (resultsA resultsB : ScenarioResults) (timeframe : Z) :
  let w := determineWinner resultsA resultsB timeframe in
  (winner w = A <-> finalNetWorth resultsB < finalNetWorth resultsA) /\
  (winner w = B <-> finalNetWorth resultsA <= finalNetWorth resultsB) /\
  (finalNetWorth resultsA == finalNetWorth resultsB -> winner w = B) /\
  difference w == Qabs (finalNetWorth resultsA - finalNetWorth resultsB) /\
  ((1 <= timeframe)%Z ->
   forall (scenario : Scenario)
          (otherExpenses savingsRate investmentReturn appreciationRate : Q),
     let results :=
       calculateScenarioFinancials scenario otherExpenses savingsRate
                                   investmentReturn appreciationRate
                                   timeframe in
     finalNetWorth results
     = netWorthAt (netWorthData results) (Z.to_nat (timeframe - 1))).
Proof.
  cbn [determineWinner winner difference].
  assert (Hfinal : (1 <= timeframe)%Z ->
    forall (scenario : Scenario)
           (otherExpenses savingsRate investmentReturn appreciationRate : Q),
      let results :=
        calculateScenarioFinancials scenario otherExpenses savingsRate
                                    investmentReturn appreciationRate
                                    timeframe in
      finalNetWorth results
      = netWorthAt (netWorthData results) (Z.to_nat (timeframe - 1))).
  { intros Htf scenario otherExpenses savingsRate investmentReturn
           appreciationRate.
    unfold calculateScenarioFinancials.
    cbn [finalNetWorth netWorthData].
    destruct (Z.ltb_spec (timeframe - 1) 0); [lia|reflexivity]. }
  destruct (JS.gtb _ 0) eqn:E.
  - apply gtb_true in E. repeat split; intros; try discriminate;
      try reflexivity; try lra. now apply Hfinal.
  - apply gtb_false in E. repeat split; intros; try discriminate;
      try reflexivity; try lra. now apply Hfinal.
Qed.

Lemma winner_by_final_net_worth_witness :
  (finalNetWorth crossingA == finalNetWorth crossingA /\ (1 <= 10)%Z) /\
  winner (determineWinner crossingA crossingA 10) = B /\
  finalNetWorth
    (calculateScenarioFinancials exampleScenario 2500 50 8 3 10)
  = netWorthAt
      (netWorthData
         (calculateScenarioFinancials exampleScenario 2500 50 8 3 10))
      9.
Proof.
  split; [split; [reflexivity|lia]|].
  pose proof (winner_by_final_net_worth crossingA crossingA 10) as H.
  cbv zeta in H. destruct H as (_ & _ & Htie & _ & Hfinal).
  split; [apply Htie; reflexivity|].
  apply (Hfinal ltac:(lia) exampleScenario 2500 50 8 3).
Defined.

(** Two scenarios whose final net worths are exactly equal: the
    comparator declares B, not A. *)
Lemma winner_tie_declares_B :
  let resultsA :=
    mkScenarioResults [mkNetWorthRow 1 60000 40000 100000] 100000 in
  let resultsB :=
    mkScenarioResults [mkNetWorthRow 1 50000 50000 100000] 100000 in
  (1 <= 1)%Z /\
  finalNetWorth resultsA == finalNetWorth resultsB /\
  winner (determineWinner resultsA resultsB 1) = B /\
  winner (determineWinner resultsA resultsB 1) <> A.
Proof.
  cbv zeta. split; [lia|]. split; [reflexivity|].
  split; [reflexivity|]. vm_compute. discriminate.
Qed.

(** ** The goal-seek solver *)

Lemma ceil_div12_spec (m : nat) :
  (m <= 12 * JS.ceil_div12 m < m + 12)%nat.
Proof.
  unfold JS.ceil_div12.
  pose proof (Nat.div_mod_eq (m + 11) 12) as Hd.
  pose proof (Nat.mod_upper_bound (m + 11) 12 ltac:(lia)) as Hm.
  lia.
Qed.



(** The loop never counts past its fuel. *)
Lemma goalLoop_bound (c r g : Q) (fuel : nat) :
  forall (months : nat) (balance : Q),
    (months <= goalLoop fuel months balance c r g <= months + fuel)%nat.
Proof.
  induction fuel as [|fuel IH]; intros months balance; cbn [goalLoop].
  - lia.
  - destruct (JS.ltb balance g); [|lia].
    specialize (IH (S months) (growMonth c r balance)). lia.
Qed.



(** ** The amortization schedule and the equity projection *)

Lemma amortLoop_length (monthlyRate monthlyPayment : Q) (numPayments : Z)
    (fuel : nat) :
  forall (month : Z) (balance : Q),
    List.length (amortLoop fuel month balance monthlyRate monthlyPayment
                           numPayments) = fuel.
Proof.
  induction fuel as [|fuel IH]; intros month balance; cbn; [reflexivity|].
  now rewrite IH.
Qed.

Lemma generateAmortizationSchedule_length (principal annualRate : Q)
    (years : Z) :
  List.length (generateAmortizationSchedule principal annualRate years)
  = Z.to_nat (years * 12).
Proof. apply amortLoop_length. Qed.

(** As long as the schedule covers the months of the remaining years the
    equity loop never breaks. *)
Lemma equityLoop_length (schedule : list AmortizationRow)
    (purchasePrice principal appreciationRate : Q) (fuel : nat) :
  forall year : Z,
    (1 <= year)%Z ->
    ((year + Z.of_nat fuel - 1) * 12 <= Z.of_nat (List.length schedule))%Z ->
    List.length (equityLoop fuel year schedule purchasePrice principal
                            appreciationRate) = fuel.
Proof.
  induction fuel as [|fuel IH]; intros year Hy Hlen; [reflexivity|].
  cbn [equityLoop].
  destruct (Z.leb_spec (Z.of_nat (List.length schedule)) (year * 12 - 1));
    [lia|].
  destruct (nth_error schedule (Z.to_nat (year * 12 - 1))) eqn:E.
  - cbn [List.length]. rewrite IH; [reflexivity|lia|lia].
  - apply nth_error_None in E. lia.
Qed.

Lemma calculateEquityOverTime_length
    (purchasePrice principal rate : Q) (years : Z) (appreciationRate : Q) :
  List.length (calculateEquityOverTime purchasePrice principal rate years
                                       appreciationRate)
  = Z.to_nat years.
Proof.
  unfold calculateEquityOverTime.
  destruct (Z.le_gt_cases years 0) as [H|H].
  - replace (Z.to_nat years) with 0%nat by lia. reflexivity.
  - apply equityLoop_length; [lia|].
    rewrite generateAmortizationSchedule_length. lia.
Qed.

(** Over a schedule of twelve rows for each year of [term], the loop
    leaves at the first year whose month index is past the schedule. *)
Lemma equityLoop_truncates (schedule : list AmortizationRow)
    (purchasePrice principal appreciationRate : Q) (term : Z) (fuel : nat) :
  List.length schedule = Z.to_nat (term * 12) ->
  forall year : Z,
    (1 <= year)%Z ->
    List.length (equityLoop fuel year schedule purchasePrice principal
                            appreciationRate)
    = Z.to_nat (Z.min (Z.of_nat fuel) (term - year + 1)).
Proof.
  intros Hlen. induction fuel as [|fuel IH]; intros year Hy.
  - cbn [equityLoop List.length]. lia.
  - cbn [equityLoop].
    destruct (Z.leb_spec (Z.of_nat (List.length schedule)) (year * 12 - 1))
      as [Hout|Hin].
    + cbn [List.length]. lia.
    + destruct (nth_error schedule (Z.to_nat (year * 12 - 1))) eqn:E.
      * cbn [List.length]. rewrite IH by lia. lia.
      * apply nth_error_None in E. lia.
Qed.

(** The snapshots are numbered by consecutive years. *)
Lemma equityLoop_years (schedule : list AmortizationRow)
    (purchasePrice principal appreciationRate : Q) (fuel : nat) :
  forall (year : Z) (k : nat) (row : EquityRow),
    nth_error (equityLoop fuel year schedule purchasePrice principal
                          appreciationRate) k = Some row ->
    eq_year row = (year + Z.of_nat k)%Z.
Proof.
  induction fuel as [|fuel IH]; intros year k row; cbn [equityLoop].
  - destruct k; discriminate.
  - destruct (Z.of_nat (List.length schedule) <=? year * 12 - 1)%Z;
      [destruct k; discriminate|].
    destruct (nth_error schedule (Z.to_nat (year * 12 - 1)));
      [|destruct k; discriminate].
    destruct k as [|k]; cbn [nth_error].
    + intros [= <-]. cbn [eq_year]. lia.
    + intros H. rewrite (IH _ _ _ H). lia.
Qed.

(** C3: run for a horizon of [years] over the amortization schedule of
    a loan of [term] years, the loop of the equity projector returns
    min(years, term) snapshots, numbered from year 1: when the horizon
    exceeds the amortization it stops where the schedule is exhausted,
    without an error.  The equity series that the simulator obtains for
    a horizon of [years] and a scenario with a given loan term has
    min(years, loanTerm) snapshots, numbered from year 1, hence exactly
    one per year of the loan term when the horizon exceeds the term (30
    snapshots for a 30-year loan and a horizon of 50). *)
Theorem equity_projection_length
    (incomeAdjustments : list IncomeAdjustment) (scenario : Scenario)
    (years : Z) (annualRaise baseExpenses savingsRate : Q)
    (lifeEvents : list LifeEvent) (investmentReturn appreciationRate : Q)
    (price principal rate : Q) (term : Z) :
  let series :=
    equityData
      (calculateYearByYearFinancials incomeAdjustments scenario years
         annualRaise baseExpenses savingsRate lifeEvents investmentReturn
         appreciationRate) in
  List.length
    (equityLoop (Z.to_nat years) 1
                (generateAmortizationSchedule principal rate term)
                price principal appreciationRate)
  = Z.to_nat (Z.min years term) /\
  List.length series = Z.to_nat (Z.min years (loanTerm (propertyInfo scenario)))
  /\
  (forall (k : nat) (row : EquityRow),
     nth_error series k = Some row -> eq_year row = (Z.of_nat k + 1)%Z) /\
  ((0 <= loanTerm (propertyInfo scenario) < years)%Z ->
   Z.of_nat (List.length series) = loanTerm (propertyInfo scenario)).
Proof.
  cbv zeta. split.
  { rewrite (equityLoop_truncates _ _ _ _ term)
      by (try apply generateAmortizationSchedule_length; lia).
    lia. }
  cbn [calculateYearByYearFinancials equityData].
  rewrite calculateEquityOverTime_length.
  split; [reflexivity|]. split; [|lia].
  intros k row H. unfold calculateEquityOverTime in H.
  rewrite (equityLoop_years _ _ _ _ _ _ _ _ H). lia.
Qed.

Lemma equity_projection_length_witness :
  (0 <= loanTerm (propertyInfo exampleScenario) < 50)%Z /\
  Z.of_nat
    (List.length
       (equityData
          (calculateYearByYearFinancials [] exampleScenario 50
             3 2500 50 [] 8 3)))
  = 30%Z.
Proof.
  assert (H : (0 <= loanTerm (propertyInfo exampleScenario) < 50)%Z)
    by (cbn; lia).
  split; [exact H|].
  pose proof (equity_projection_length [] exampleScenario 50 3 2500 50 [] 8 3
                0 0 0 0) as T.
  cbv zeta in T. destruct T as (_ & _ & _ & T).
  exact (T H).
Defined.

(** With a zero payment and a non-positive balance the schedule is a
    zero schedule: nothing is paid and the recorded balance stays 0. *)
Lemma amortLoop_zero (monthlyRate : Q) (numPayments : Z) (fuel : nat) :
  forall (month : Z) (balance : Q),
    Forall (fun row => am_payment row = 0)
           (amortLoop fuel month balance monthlyRate 0 numPayments) /\
    (0 <= monthlyRate -> balance <= 0 ->
     Forall (fun row => am_balance row == 0)
            (amortLoop fuel month balance monthlyRate 0 numPayments)).
Proof.
  induction fuel as [|fuel IH]; intros month balance; cbn [amortLoop].
  - split; intros; constructor.
  - split.
    + constructor; [reflexivity|]. apply IH.
    + intros Hr Hb.
      assert (Hb2 : (if (month =? numPayments)%Z then 0
                     else balance - (0 - balance * monthlyRate)) <= 0).
      { destruct (month =? numPayments)%Z; [lra|nra]. }
      constructor.
      * cbn [am_balance]. now apply max_0_of_nonpos.
      * now apply IH.
Qed.

Lemma calculateMonthlyPayment_guard (principal annualRate : Q) (years : Z) :
  principal <= 0 \/ (years <= 0)%Z ->
  calculateMonthlyPayment principal annualRate years = 0.
Proof.
  intros H. unfold calculateMonthlyPayment.
  destruct (JS.leb principal 0) eqn:Ep; [reflexivity|].
  apply leb_false in Ep. destruct H as [H|H]; [lra|].
  apply Z.leb_le in H. now rewrite H.
Qed.

(** C7 (as the code has it): for a non-positive principal or term the
    monthly payment is 0; the schedule is empty when the term is not
    positive; for a non-positive principal and a positive term the
    schedule still has 12 rows per year, every row with payment 0 and,
    for a non-negative rate, recorded balance 0. *)
Theorem amortization_nonpositive_input
    (principal annualRate : Q) (years : Z) :
  let schedule := generateAmortizationSchedule principal annualRate years in
  (principal <= 0 \/ (years <= 0)%Z ->
   calculateMonthlyPayment principal annualRate years = 0) /\
  ((years <= 0)%Z -> schedule = []) /\
  (principal <= 0 -> (0 < years)%Z ->
   List.length schedule = Z.to_nat (years * 12) /\
   Forall (fun row => am_payment row = 0) schedule /\
   (0 <= annualRate -> Forall (fun row => am_balance row == 0) schedule)).
Proof.
  intros schedule. split; [apply calculateMonthlyPayment_guard|]. split.
  - intros H. subst schedule. unfold generateAmortizationSchedule.
    replace (Z.to_nat (years * 12)) with 0%nat by lia. reflexivity.
  - intros Hp Hy. split; [apply generateAmortizationSchedule_length|].
    subst schedule. unfold generateAmortizationSchedule.
    rewrite calculateMonthlyPayment_guard by (now left).
    split; [apply amortLoop_zero|].
    intros Hr. apply amortLoop_zero; [|exact Hp].
    apply Qle_shift_div_l; [reflexivity|].
    apply Qle_shift_div_l; [reflexivity|]. lra.
Qed.

Lemma amortization_nonpositive_input_witness :
  (0 <= 0 /\ (0 < 30)%Z) /\
  List.length (generateAmortizationSchedule 0 (13 # 2) 30) = 360%nat.
Proof.
  split; [split; [apply Qle_refl|lia]|].
  pose proof (amortization_nonpositive_input 0 (13 # 2) 30) as H.
  cbv zeta in H. destruct H as (_ & _ & H).
  destruct (H (Qle_refl 0) eq_refl) as [Hlen _].
  rewrite Hlen. reflexivity.
Defined.

(** A loan of 0 (a purchase paid in full) over one year at 5%: the
    payment is 0 but the schedule has twelve rows, it is not empty. *)
Lemma zero_principal_schedule_not_empty :
  0 <= 0 /\
  calculateMonthlyPayment 0 5 1 = 0 /\
  List.length (generateAmortizationSchedule 0 5 1) = 12%nat /\
  generateAmortizationSchedule 0 5 1 <> [].
Proof.
  split; [apply Qle_refl|]. split; [reflexivity|].
  pose proof (generateAmortizationSchedule_length 0 5 1) as Hlen.
  split; [exact Hlen|].
  intros Hnil. rewrite Hnil in Hlen. discriminate Hlen.
Qed.

(** ** The year-by-year simulator *)

Section YearLoopFacts.

Variable incomeAdjustments : list IncomeAdjustment.
Variables monthlyHousing annualRaise baseExpenses savingsRate : Q.
Variable lifeEvents : list LifeEvent.
Variable investmentReturn : Q.
Variable equityData : list EquityRow.

Let loop :=
    yearLoop incomeAdjustments monthlyHousing annualRaise baseExpenses
             savingsRate lifeEvents investmentReturn equityData.

Lemma yearLoop_length (fuel : nat) :
    forall (year : Z) (rs : RunningState),
      List.length (loop fuel year rs) = fuel.
Proof.
    induction fuel as [|fuel IH]; intros; cbn; [reflexivity|].
    now rewrite IH.
Qed.

  (** The record at position [k] is the record of year [year + k]; its
      equity is read from the equity series and its net worth is the sum
      of its portfolio and its equity. *)
Lemma yearLoop_nth (fuel : nat) :
    forall (year : Z) (rs : RunningState) (k : nat) (rec : YearRecord),
      nth_error (loop fuel year rs) k = Some rec ->
      yr_year rec = (year + Z.of_nat k)%Z /\
      yr_equity rec = equityAt equityData (year + Z.of_nat k) /\
      yr_netWorth rec = yr_portfolio rec + yr_equity rec.
Proof.
    induction fuel as [|fuel IH]; intros year rs k rec.
    - destruct k; discriminate.
    - destruct k as [|k].
      + cbn. intros [= <-]. cbn. rewrite Z.add_0_r. auto.
      + cbn [loop yearLoop nth_error]. intros H.
        apply IH in H.
        replace (year + Z.of_nat (S k))%Z with (year + 1 + Z.of_nat k)%Z
          by lia.
        exact H.
Qed.

End YearLoopFacts.

Lemma equityAt_beyond (equityData : list EquityRow) (year : Z) :
  (1 <= year)%Z -> (Z.of_nat (List.length equityData) < year)%Z ->
  equityAt equityData year = 0.
Proof.
  intros H1 H2. unfold equityAt.
  destruct (nth_error equityData (Z.to_nat (year - 1))) eqn:E;
    [|reflexivity].
  assert (Z.to_nat (year - 1) < List.length equityData)%nat.
  { apply nth_error_Some. congruence. }
  lia.
Qed.

(** C10: when the horizon exceeds the loan term, the record of every
    year after the loan term exists, reports equity 0 and a net worth
    equal to the portfolio. *)
Theorem equity_vanishes_after_loan_term
    (incomeAdjustments : list IncomeAdjustment) (scenario : Scenario)
    (years : Z) (annualRaise baseExpenses savingsRate : Q)
    (lifeEvents : list LifeEvent) (investmentReturn appreciationRate : Q)
    (year : Z) :
  (loanTerm (propertyInfo scenario) < years)%Z ->
  (1 <= year <= years)%Z ->
  (loanTerm (propertyInfo scenario) < year)%Z ->
  exists rec : YearRecord,
    nth_error
      (yearlyData
         (calculateYearByYearFinancials incomeAdjustments scenario years
            annualRaise baseExpenses savingsRate lifeEvents investmentReturn
            appreciationRate))
      (Z.to_nat (year - 1)) = Some rec /\
    yr_year rec = year /\
    yr_equity rec = 0 /\
    yr_netWorth rec == yr_portfolio rec.
Proof.
  intros Hterm Hyear Hafter.
  cbn [calculateYearByYearFinancials yearlyData].
  match goal with
  | |- exists rec, nth_error ?l ?k = _ /\ _ =>
      destruct (nth_error l k) as [rec|] eqn:E
  end.
  - exists rec. split; [reflexivity|].
    apply yearLoop_nth in E. destruct E as (Hy & He & Hn).
    replace (1 + Z.of_nat (Z.to_nat (year - 1)))%Z with year in * by lia.
    rewrite equityAt_beyond in He;
      [|lia|rewrite calculateEquityOverTime_length; lia].
    split; [exact Hy|]. split; [exact He|].
    rewrite Hn, He. ring.
  - apply nth_error_None in E. rewrite yearLoop_length in E. lia.
Qed.

Lemma equity_vanishes_after_loan_term_witness :
  ((loanTerm (propertyInfo exampleScenario) < 32)%Z /\
   (1 <= 31 <= 32)%Z /\
   (loanTerm (propertyInfo exampleScenario) < 31)%Z) /\
  exists rec : YearRecord,
    nth_error
      (yearlyData
         (calculateYearByYearFinancials [] exampleScenario 32
            0 2500 50 [] 0 0))
      30 = Some rec /\
    yr_year rec = 31%Z /\
    yr_equity rec = 0 /\
    yr_netWorth rec == yr_portfolio rec.
Proof.
  split; [cbn; lia|].
  apply (equity_vanishes_after_loan_term [] exampleScenario 32
           0 2500 50 [] 0 0 31); cbn; lia.
Defined.

(** ** Investment growth *)

Lemma monthlyRate_nonneg (annualReturn : Q) :
  0 <= annualReturn -> 0 <= annualReturn / 100 / 12.
Proof.
  intros H. apply Qle_shift_div_l; [reflexivity|].
  apply Qle_shift_div_l; [reflexivity|]. lra.
Qed.

Lemma growMonth_ge (c r v : Q) :
  0 <= c -> 0 <= r -> 0 <= v -> v + c <= growMonth c r v.
Proof. intros Hc Hr Hv. unfold growMonth. nra. Qed.

(** A year of months keeps the value non-negative, does not decrease
    it, and does not decrease the gains [value - invested]. *)
Lemma investMonths_invariant (c r : Q) (n : nat) :
  0 <= c -> 0 <= r ->
  forall v i : Q,
    0 <= v -> i <= v ->
    let '(v', i') := investMonths n c r v i in
    v <= v' /\ i' <= v' /\ 0 <= v'.
Proof.
  intros Hc Hr. induction n as [|n IH]; intros v i Hv Hi; cbn [investMonths].
  - repeat split; lra.
  - pose proof (growMonth_ge c r v Hc Hr Hv) as Hg.
    specialize (IH (growMonth c r v) (i + c) ltac:(lra) ltac:(lra)).
    destruct (investMonths n c r (growMonth c r v) (i + c)) as [v' i'].
    destruct IH as (H1 & H2 & H3). repeat split; lra.
Qed.

Lemma investmentLoop_invariant (c r : Q) (fuel : nat) :
  0 <= c -> 0 <= r ->
  forall (year : Z) (v i : Q),
    0 <= v -> i <= v ->
    Forall (fun row =>
              v <= inv_value row /\
              inv_gains row = inv_value row - inv_invested row /\
              0 <= inv_gains row)
           (investmentLoop fuel year v i c r).
Proof.
  intros Hc Hr. induction fuel as [|fuel IH]; intros year v i Hv Hi;
    cbn [investmentLoop]; [constructor|].
  pose proof (investMonths_invariant c r 12 Hc Hr v i Hv Hi) as Hinv.
  destruct (investMonths 12 c r v i) as [v' i'].
  destruct Hinv as (H1 & H2 & H3).
  constructor.
  - cbn. repeat split; [lra|lra].
  - specialize (IH (year + 1)%Z v' i' H3 H2).
    eapply Forall_impl; [|exact IH].
    cbn. intros row (Ha & Hb & Hd). repeat split; auto; lra.
Qed.

Lemma investmentLoop_monotone (c r : Q) (fuel : nat) :
  0 <= c -> 0 <= r ->
  forall (year : Z) (v i : Q) (k : nat) (row1 row2 : InvestmentRow),
    0 <= v -> i <= v ->
    nth_error (investmentLoop fuel year v i c r) k = Some row1 ->
    nth_error (investmentLoop fuel year v i c r) (S k) = Some row2 ->
    inv_value row1 <= inv_value row2.
Proof.
  intros Hc Hr. induction fuel as [|fuel IH];
    intros year v i k row1 row2 Hv Hi; cbn [investmentLoop].
  - destruct k; discriminate.
  - pose proof (investMonths_invariant c r 12 Hc Hr v i Hv Hi) as Hinv.
    destruct (investMonths 12 c r v i) as [v' i'].
    destruct Hinv as (H1 & H2 & H3).
    destruct k as [|k]; cbn [nth_error].
    + intros [= <-] Hnext. cbn [inv_value].
      pose proof (investmentLoop_invariant c r fuel Hc Hr (year + 1)%Z
                    v' i' H3 H2) as Hall.
      rewrite Forall_forall in Hall.
      change (nth_error (investmentLoop fuel (year + 1) v' i' c r) 0
              = Some row2) in Hnext.
      apply nth_error_In in Hnext. apply Hall in Hnext. tauto.
    + apply IH; assumption.
Qed.

(** C8 (as the code has it): for a non-negative initial amount, a
    non-negative annual return and a non-negative monthly contribution,
    and every number of years, the value is non-decreasing from one
    yearly snapshot to the next, and in every snapshot
    gains = value - invested is non-negative. *)
Theorem investment_growth_monotone
    (initialAmount monthlyContribution annualReturn : Q) (years : Z) :
  0 <= initialAmount -> 0 <= annualReturn -> 0 <= monthlyContribution ->
  let rows :=
    calculateInvestmentGrowth initialAmount monthlyContribution
                              annualReturn years in
  (forall (k : nat) (row1 row2 : InvestmentRow),
     nth_error rows k = Some row1 -> nth_error rows (S k) = Some row2 ->
     inv_value row1 <= inv_value row2) /\
  (forall row : InvestmentRow, In row rows ->
     initialAmount <= inv_value row /\
     inv_gains row = inv_value row - inv_invested row /\
     0 <= inv_gains row /\
     inv_invested row <= inv_value row).
Proof.
  intros Hi Hr Hc rows. subst rows. unfold calculateInvestmentGrowth.
  apply monthlyRate_nonneg in Hr. split.
  - intros k row1 row2.
    apply investmentLoop_monotone; auto. apply Qle_refl.
  - intros row Hin.
    pose proof (investmentLoop_invariant monthlyContribution
                  (annualReturn / 100 / 12) (Z.to_nat years) Hc Hr 1%Z
                  initialAmount initialAmount Hi (Qle_refl _)) as Hall.
    rewrite Forall_forall in Hall. destruct (Hall row Hin) as (H1 & H2 & H3).
    repeat split; auto. rewrite H2 in H3. lra.
Qed.

Lemma investment_growth_monotone_witness :
  (0 <= 1000 /\ 0 <= 12 /\ 0 <= 100) /\
  forall row : InvestmentRow,
    In row (calculateInvestmentGrowth 1000 100 12 2) ->
    0 <= inv_gains row.
Proof.
  split; [repeat split; discriminate|].
  intros row Hin.
  apply (investment_growth_monotone 1000 100 12 2);
    [discriminate|discriminate|discriminate|exact Hin].
Defined.

(** With a negative initial amount (a permitted input) and no
    contribution, a 12% return makes the value fall from the first
    snapshot to the second, and the gains are negative. *)
Lemma negative_initial_value_decreases :
  0 <= 12 /\ 0 <= 0 /\
  match calculateInvestmentGrowth (-1000) 0 12 2 with
  | [row1; row2] =>
      inv_value row2 < inv_value row1 /\ inv_gains row1 < 0
  | _ => False
  end.
Proof.
  split; [discriminate|]. split; [discriminate|].
  vm_compute. split; reflexivity.
Qed.

(** ** The amortization schedule of a proper loan *)

Section ProperLoan.

  (** The principal, the monthly rate, the monthly payment and the
      number of payments; the payment covers at least the interest on
      the whole principal. *)
Variables (P r M : Q) (n : Z).
Hypothesis P_pos : 0 < P.
Hypothesis r_nonneg : 0 <= r.
Hypothesis M_covers_interest : P * r <= M.

Lemma amortLoop_balance_bounds (fuel : nat) :
    forall (month : Z) (b : Q),
      b <= P ->
      Forall (fun row => 0 <= am_balance row /\ am_balance row <= JS.max 0 b)
             (amortLoop fuel month b r M n).
Proof.
    induction fuel as [|fuel IH]; intros month b Hb; cbn [amortLoop];
      [constructor|].
    set (b2 := if (month =? n)%Z then 0 else b - (M - b * r)).
    assert (Hb2 : b2 <= P /\ JS.max 0 b2 <= JS.max 0 b).
    { subst b2. destruct (month =? n)%Z.
      - split; [lra|]. apply max_0_nonneg.
      - assert (b - (M - b * r) <= b) by nra.
        split; [lra|]. now apply max_0_mono. }
    destruct Hb2 as [Hb2 Hmax].
    constructor.
    - cbn [am_balance]. split; [apply max_0_nonneg|exact Hmax].
    - eapply Forall_impl; [|apply (IH (month + 1)%Z b2 Hb2)].
      cbn. intros row [H1 H2]. split; [exact H1|lra].
Qed.

Lemma amortLoop_nonincreasing (fuel : nat) :
    forall (month : Z) (b : Q) (k : nat) (row1 row2 : AmortizationRow),
      b <= P ->
      nth_error (amortLoop fuel month b r M n) k = Some row1 ->
      nth_error (amortLoop fuel month b r M n) (S k) = Some row2 ->
      am_balance row2 <= am_balance row1.
Proof.
    induction fuel as [|fuel IH]; intros month b k row1 row2 Hb;
      cbn [amortLoop].
    - destruct k; discriminate.
    - set (b2 := if (month =? n)%Z then 0 else b - (M - b * r)).
      assert (Hb2 : b2 <= P).
      { subst b2. destruct (month =? n)%Z; [lra|nra]. }
      destruct k as [|k]; cbn [nth_error].
      + intros [= <-] Hnext. cbn [am_balance].
        change (nth_error (amortLoop fuel (month + 1) b2 r M n) 0
                = Some row2) in Hnext.
        apply nth_error_In in Hnext.
        pose proof (amortLoop_balance_bounds fuel (month + 1)%Z b2 Hb2)
          as Hall.
        rewrite Forall_forall in Hall. apply Hall in Hnext. tauto.
      + apply IH. exact Hb2.
Qed.

End ProperLoan.

(** The last row of a schedule whose months end at [numPayments] has
    balance exactly 0. *)
Lemma amortLoop_last_balance (r M : Q) (n : Z) (fuel : nat) :
  forall (month : Z) (b : Q),
    (month + Z.of_nat fuel = n)%Z ->
    exists row : AmortizationRow,
      nth_error (amortLoop (S fuel) month b r M n) fuel = Some row /\
      am_month row = n /\ am_balance row = 0.
Proof.
  induction fuel as [|fuel IH]; intros month b Hn.
  - cbn [amortLoop nth_error]. eexists. split; [reflexivity|].
    cbn [am_month am_balance].
    replace (month =? n)%Z with true by (symmetry; apply Z.eqb_eq; lia).
    split; [lia|reflexivity].
  - cbn [amortLoop nth_error] in *. apply IH. lia.
Qed.

(** The principal components telescope: they add up to what the
    unforced running balance has lost. *)
Lemma rawBalance_succ (r M : Q) (k : nat) :
  forall b : Q,
    rawBalance r M (S k) b =
    rawBalance r M k b - (M - rawBalance r M k b * r).
Proof.
  induction k as [|k IH]; intros b; [reflexivity|].
  change (rawBalance r M (S (S k)) b)
    with (rawBalance r M (S k) (b - (M - b * r))).
  rewrite IH. reflexivity.
Qed.

Lemma amortLoop_sumPrincipal (r M : Q) (n : Z) (fuel : nat) :
  forall (month : Z) (b : Q),
    (month + Z.of_nat fuel - 1 = n)%Z ->
    sumPrincipal (amortLoop fuel month b r M n) == b - rawBalance r M fuel b.
Proof.
  induction fuel as [|fuel IH]; intros month b Hn.
  - cbn. ring.
  - cbn [amortLoop sumPrincipal fold_right am_principal rawBalance].
    destruct fuel as [|fuel].
    + cbn. ring.
    + replace (month =? n)%Z with false by (symmetry; apply Z.eqb_neq; lia).
      fold (sumPrincipal
              (amortLoop (S fuel) (month + 1) (b - (M - b * r)) r M n)).
      rewrite IH by lia. ring.
Qed.

(** The unforced balance at a zero rate: a straight line. *)
Lemma rawBalance_zero_rate (r M b : Q) (k : nat) :
  r == 0 ->
  rawBalance r M k b == b - inject_Z (Z.of_nat k) * M.
Proof.
  intros Hr. induction k as [|k IH].
  - cbn. ring.
  - rewrite rawBalance_succ, IH, Hr, Nat2Z.inj_succ.
    unfold Z.succ. rewrite inject_Z_plus. ring.
Qed.

(** The unforced balance at a positive rate, in closed form, for a
    payment [M] with [M * (Qn - 1) == P * r * Qn]. *)
Lemma rawBalance_closed_form (P r M Qn : Q) (k : nat) :
  0 <= r ->
  M * (Qn - 1) == P * r * Qn ->
  rawBalance r M k P * (Qn - 1) == P * (Qn - (1 + r) ^ Z.of_nat k).
Proof.
  intros Hr HM. induction k as [|k IH].
  - cbn. ring.
  - rewrite rawBalance_succ, Nat2Z.inj_succ. unfold Z.succ.
    rewrite Qpower_plus by lra.
    change ((1 + r) ^ 1) with (1 + r).
    transitivity ((1 + r) * (rawBalance r M k P * (Qn - 1))
                  - M * (Qn - 1)); [ring|].
    rewrite IH, HM. ring.
Qed.

(** The PMT payment at a positive rate. *)
Lemma pmt_payment_facts (P r : Q) (n : Z) :
  0 < P -> 0 < r -> (0 < n)%Z ->
  let Qn := (1 + r) ^ n in
  let M := P * (r * Qn) / (Qn - 1) in
  1 < Qn /\ M * (Qn - 1) == P * r * Qn /\ P * r <= M.
Proof.
  intros HP Hr Hn Qn M.
  assert (HQ : 1 < Qn) by (apply Qpower_1_lt; [lra|assumption]).
  split; [exact HQ|]. split.
  - subst M. field. lra.
  - subst M. apply Qle_shift_div_l; [lra|]. nra.
Qed.

(** C5: for a positive principal, a non-negative annual rate and a
    positive term the schedule has 12 rows per year; every recorded
    balance is non-negative; the balances do not increase from one row
    to the next; the balance of the final row is exactly 0; and the
    principal components add up to the principal (exactly, in exact
    arithmetic). *)
Theorem amortization_schedule_invariants
    (principal annualRate : Q) (years : Z) :
  0 < principal -> 0 <= annualRate -> (0 < years)%Z ->
  let schedule := generateAmortizationSchedule principal annualRate years in
  List.length schedule = Z.to_nat (years * 12) /\
  (forall row : AmortizationRow, In row schedule -> 0 <= am_balance row) /\
  (forall (k : nat) (row1 row2 : AmortizationRow),
     nth_error schedule k = Some row1 ->
     nth_error schedule (S k) = Some row2 ->
     am_balance row2 <= am_balance row1) /\
  (exists row : AmortizationRow,
     nth_error schedule (Z.to_nat (years * 12) - 1) = Some row /\
     am_month row = (years * 12)%Z /\
     am_balance row = 0) /\
  sumPrincipal schedule == principal.
Proof.
  intros HP Hrate Hyears schedule.
  pose proof (monthlyRate_nonneg annualRate Hrate) as Hr.
  set (r := annualRate / 100 / 12) in *.
  set (n := (years * 12)%Z).
  set (M := calculateMonthlyPayment principal annualRate years).
  assert (Hn : (0 < n)%Z) by (subst n; lia).
  assert (HM : principal * r <= M /\ rawBalance r M (Z.to_nat n) principal == 0).
  { subst M. unfold calculateMonthlyPayment. fold r n.
    replace (JS.leb principal 0) with false
      by (symmetry; apply leb_false; exact HP).
    replace (years <=? 0)%Z with false by (symmetry; apply Z.leb_gt; lia).
    cbn [orb]. unfold JS.eqb, JS.pow.
    destruct (Qeq_bool r 0) eqn:E.
    - apply Qeq_bool_iff in E.
      assert (Hinj : 0 < inject_Z n).
      { unfold Qlt, inject_Z. cbn. lia. }
      split.
      + rewrite E. apply Qle_shift_div_l; [exact Hinj|]. nra.
      + rewrite rawBalance_zero_rate by exact E.
        rewrite Z2Nat.id by lia. field. lra.
    - apply Qeq_bool_neq in E.
      assert (Hrp : 0 < r) by (apply Qle_lteq in Hr; destruct Hr as [H|H];
        [exact H|exfalso; apply E; symmetry; exact H]).
      destruct (pmt_payment_facts principal r n HP Hrp Hn) as (HQ & HMQ & Hc).
      split; [exact Hc|].
      pose proof (rawBalance_closed_form principal r _ _ (Z.to_nat n)
                    Hr HMQ) as Hcf.
      rewrite Z2Nat.id in Hcf by lia.
      apply (Qmult_inj_r _ _ ((1 + r) ^ n - 1)); [lra|].
      rewrite Hcf. ring. }
  destruct HM as [Hcover Hraw].
  subst schedule. unfold generateAmortizationSchedule. fold r n M.
  split; [apply amortLoop_length|]. split; [|split; [|split]].
  - intros row Hin.
    pose proof (amortLoop_balance_bounds principal r M n HP Hr Hcover
                  (Z.to_nat n) 1%Z principal (Qle_refl _)) as Hall.
    rewrite Forall_forall in Hall. apply (Hall row Hin).
  - intros k row1 row2.
    apply (amortLoop_nonincreasing principal r M n HP Hr Hcover).
    apply Qle_refl.
  - destruct (Z.to_nat n) as [|fuel] eqn:Ef; [lia|].
    replace (S fuel - 1)%nat with fuel by lia.
    apply amortLoop_last_balance. lia.
  - rewrite amortLoop_sumPrincipal by lia. rewrite Hraw. ring.
Qed.

Lemma amortization_schedule_invariants_witness :
  (0 < 120000 /\ 0 <= 0 /\ (0 < 10)%Z) /\
  List.length (generateAmortizationSchedule 120000 0 10) = 120%nat /\
  sumPrincipal (generateAmortizationSchedule 120000 0 10) == 120000.
Proof.
  split; [repeat split; discriminate|].
  pose proof (amortization_schedule_invariants 120000 0 10
                eq_refl (Qle_refl 0) eq_refl) as H.
  cbv zeta in H. destruct H as (Hlen & _ & _ & _ & Hsum).
  split; [exact Hlen|exact Hsum].
Defined.

(** ** Life events *)

Lemma max_0_compat (x y : Q) : x == y -> JS.max 0 x == JS.max 0 y.
Proof.
  intros H. apply Qle_antisym; apply max_0_mono; lra.
Qed.

Lemma max_0_sub (x a : Q) :
  0 <= a -> a <= JS.max 0 x -> JS.max 0 (x - a) == JS.max 0 x - a.
Proof.
  unfold JS.max. intros Ha Hle.
  destruct (Qle_bool 0 x) eqn:Ex, (Qle_bool 0 (x - a)) eqn:Exa;
    try apply Qle_bool_iff in Ex; try apply Qle_bool_iff in Exa;
    try apply leb_false in Ex; try apply leb_false in Exa; lra.
Qed.

Lemma applyEvent_other_year (y : Z) (st : EventState) (e : LifeEvent) :
  ev_year e <> y -> applyEvent y st e = st.
Proof.
  intros H. unfold applyEvent. apply Z.eqb_neq in H. now rewrite H.
Qed.

Lemma applyEvents_insert (y : Z) (evs1 evs2 : list LifeEvent)
    (e : LifeEvent) (st : EventState) :
  applyEvents y (evs1 ++ e :: evs2) st
  = applyEvents y evs2 (applyEvent y (applyEvents y evs1 st) e).
Proof. unfold applyEvents. now rewrite fold_left_app. Qed.

Lemma applyEvents_app (y : Z) (evs1 evs2 : list LifeEvent)
    (st : EventState) :
  applyEvents y (evs1 ++ evs2) st
  = applyEvents y evs2 (applyEvents y evs1 st).
Proof. unfold applyEvents. now rewrite fold_left_app. Qed.

(** An event of another year is skipped. *)
Lemma applyEvents_skip (y : Z) (evs1 evs2 : list LifeEvent)
    (e : LifeEvent) (st : EventState) :
  ev_year e <> y ->
  applyEvents y (evs1 ++ e :: evs2) st = applyEvents y (evs1 ++ evs2) st.
Proof.
  intros H.
  now rewrite applyEvents_insert, applyEvents_app, applyEvent_other_year.
Qed.



Ltac case_applyEvent :=
  unfold applyEvent;
  repeat match goal with
         | |- context [if ?b then _ else _] => destruct b
         end;
  cbn.

Lemma applyEvent_oneTimeShift (d : Q) (y : Z) (e : LifeEvent)
    (s' s : EventState) :
  oneTimeShift d s' s -> oneTimeShift d (applyEvent y s' e) (applyEvent y s e).
Proof.
  intros (H1 & H2 & H3). unfold oneTimeShift.
  case_applyEvent; rewrite ?H1, ?H2; repeat split; try assumption;
    rewrite H3; ring.
Qed.

Lemma applyEvents_oneTimeShift (d : Q) (y : Z) (evs : list LifeEvent) :
  forall s' s : EventState,
    oneTimeShift d s' s ->
    oneTimeShift d (applyEvents y evs s') (applyEvents y evs s).
Proof.
  induction evs as [|e evs IH]; intros s' s H; [exact H|].
  cbn. apply IH. now apply applyEvent_oneTimeShift.
Qed.

Lemma applyEvent_ongoingShift (d : Q) (y : Z) (e : LifeEvent)
    (s' s : EventState) :
  ongoingShift d s' s -> ongoingShift d (applyEvent y s' e) (applyEvent y s e).
Proof.
  intros (H1 & H2). unfold ongoingShift.
  case_applyEvent; rewrite ?H2; repeat split; try assumption;
    rewrite H1; ring.
Qed.

Lemma applyEvents_ongoingShift (d : Q) (y : Z) (evs : list LifeEvent) :
  forall s' s : EventState,
    ongoingShift d s' s ->
    ongoingShift d (applyEvents y evs s') (applyEvents y evs s).
Proof.
  induction evs as [|e evs IH]; intros s' s H; [exact H|].
  cbn. apply IH. now apply applyEvent_ongoingShift.
Qed.

(** The effect of one more one-time event on the events of a year. *)
Lemma applyEvents_oneTime (y : Z) (evs1 evs2 : list LifeEvent)
    (k : Z) (desc : string) (X : Q) (st : EventState) :
  oneTimeShift (if (k =? y)%Z then X else 0)
    (applyEvents y (evs1 ++ mkLifeEvent k desc "one-time" X :: evs2) st)
    (applyEvents y (evs1 ++ evs2) st).
Proof.
  rewrite applyEvents_insert, applyEvents_app.
  apply applyEvents_oneTimeShift. unfold applyEvent, oneTimeShift. cbn.
  destruct (k =? y)%Z; cbn; repeat split; ring.
Qed.

(** The effect of one more ongoing event on the events of a year. *)
Lemma applyEvents_ongoing (y : Z) (evs1 evs2 : list LifeEvent)
    (k : Z) (desc : string) (Y : Q) (st : EventState) :
  ongoingShift (if (k =? y)%Z then Y / 12 else 0)
    (applyEvents y (evs1 ++ mkLifeEvent k desc "ongoing" Y :: evs2) st)
    (applyEvents y (evs1 ++ evs2) st).
Proof.
  rewrite applyEvents_insert, applyEvents_app.
  apply applyEvents_ongoingShift. unfold applyEvent, ongoingShift. cbn.
  destruct (k =? y)%Z; cbn; repeat split; ring.
Qed.

Section LifeEventRuns.

Variable incomeAdjustments : list IncomeAdjustment.
Variables monthlyHousing annualRaise baseExpenses savingsRate : Q.
Variable investmentReturn : Q.
Variable equityData : list EquityRow.

Local Abbreviation body evs :=
    (yearBody incomeAdjustments monthlyHousing annualRaise baseExpenses
              savingsRate evs investmentReturn equityData).
Local Abbreviation loop evs :=
    (yearLoop incomeAdjustments monthlyHousing annualRaise baseExpenses
              savingsRate evs investmentReturn equityData).
Local Abbreviation after evs :=
    (stateAfter incomeAdjustments monthlyHousing annualRaise baseExpenses
                savingsRate evs investmentReturn equityData).

Lemma yearLoop_succ (evs : list LifeEvent) (fuel : nat) (year : Z)
      (rs : RunningState) :
    loop evs (S fuel) year rs
    = fst (body evs year rs)
      :: loop evs fuel (year + 1)%Z (snd (body evs year rs)).
Proof. cbn [yearLoop]. now destruct (body evs year rs). Qed.

Lemma stateAfter_succ_r (evs : list LifeEvent) (j : nat) :
    forall (year : Z) (rs : RunningState),
      after evs (S j) year rs
      = snd (body evs (year + Z.of_nat j) (after evs j year rs)).
Proof.
    induction j as [|j IH]; intros year rs.
    - cbn [stateAfter]. now rewrite Z.add_0_r.
    - change (after evs (S (S j)) year rs)
        with (after evs (S j) (year + 1) (snd (body evs year rs))).
      rewrite IH. cbn [stateAfter].
      now replace (year + 1 + Z.of_nat j)%Z with (year + Z.of_nat (S j))%Z
        by lia.
Qed.

  (** The record at position [j] is the one that the loop body pushes
      from the running variables after [j] iterations. *)
Lemma yearLoop_nth_body (evs : list LifeEvent) (fuel : nat) :
    forall (year : Z) (rs : RunningState) (j : nat),
      (j < fuel)%nat ->
      nth_error (loop evs fuel year rs) j
      = Some (fst (body evs (year + Z.of_nat j) (after evs j year rs))).
Proof.
    induction fuel as [|fuel IH]; intros year rs j Hj; [lia|].
    rewrite yearLoop_succ. destruct j as [|j].
    - cbn [nth_error stateAfter]. now rewrite Z.add_0_r.
    - cbn [nth_error stateAfter]. rewrite IH by lia.
      now replace (year + 1 + Z.of_nat j)%Z with (year + Z.of_nat (S j))%Z
        by lia.
Qed.

Lemma stateAfter_portfolio (evs : list LifeEvent) (fuel : nat) (year : Z)
      (rs : RunningState) (j : nat) :
    (j < fuel)%nat ->
    rs_portfolio (after evs j year rs)
    = portfolioBefore (rs_portfolio rs) (loop evs fuel year rs) j.
Proof.
    intros Hj. destruct j as [|j]; [reflexivity|].
    cbn [portfolioBefore]. rewrite yearLoop_nth_body by lia.
    rewrite stateAfter_succ_r. unfold yearBody.
    cbn [fst snd rs_portfolio yr_portfolio]. reflexivity.
Qed.

  (** The recorded portfolio is the portfolio grown for twelve months
      with the recorded savings, less the recorded one-time expense,
      floored at 0. *)
Lemma yearBody_portfolio (evs : list LifeEvent) (y : Z)
      (rs : RunningState) :
    let rec := fst (body evs y rs) in
    yr_year rec = y /\
    yr_portfolio rec
    = JS.max 0 (growMonths 12 (yr_monthlySavings rec)
                           (investmentReturn / 100 / 12) (rs_portfolio rs)
                - yr_oneTimeExpense rec).
Proof.
    unfold yearBody.
    cbn [fst yr_year yr_portfolio yr_monthlySavings yr_oneTimeExpense].
    split; reflexivity.
Qed.

  (** The recorded expenses are computed from the expense adjustment
      with which the year starts, before the events of the year. *)
Lemma yearBody_expenses (evs : list LifeEvent) (y : Z)
      (rs : RunningState) :
    yr_monthlyExpenses (fst (body evs y rs))
    = monthlyHousing + baseExpenses + rs_ongoingExpenseAdjustment rs.
Proof. reflexivity. Qed.

  (** Two event lists that act alike in a year give the same body. *)
Lemma yearBody_agree (evs' evs : list LifeEvent) (y : Z)
      (rs : RunningState) :
    (forall st, applyEvents y evs' st = applyEvents y evs st) ->
    body evs' y rs = body evs y rs.
Proof. intros H. unfold yearBody. now rewrite H. Qed.

  (** Two event lists that act alike in every year before [k] give the
      same running variables up to the start of year [k]. *)
Lemma stateAfter_agree (evs' evs : list LifeEvent) (k year : Z)
      (rs : RunningState) (j : nat) :
    (forall y st, (y < k)%Z -> applyEvents y evs' st = applyEvents y evs st) ->
    (year + Z.of_nat j <= k)%Z ->
    after evs' j year rs = after evs j year rs.
Proof.
    intros Hagree. induction j as [|j IH]; intros Hj; [reflexivity|].
    rewrite !stateAfter_succ_r, IH by lia.
    rewrite (yearBody_agree evs' evs); [reflexivity|].
    intros st. apply Hagree. lia.
Qed.

Section OneMoreEvent.

Variables evs1 evs2 : list LifeEvent.
Variable k : Z.
Variable desc : string.
Variable amount : Q.

Local Abbreviation base := (evs1 ++ evs2).
Local Abbreviation withOneTime :=
      (evs1 ++ mkLifeEvent k desc "one-time" amount :: evs2).
Local Abbreviation withOngoing :=
      (evs1 ++ mkLifeEvent k desc "ongoing" amount :: evs2).

    (** One more one-time event: the body of a year started from the
        same income and expense adjustment leaves both as they were,
        records the same expenses and savings, and a one-time expense
        larger by the amount in the year of the event. *)
Lemma yearBody_oneTime (y : Z) (rs' rs : RunningState) :
      rs_currentIncome rs' = rs_currentIncome rs ->
      rs_ongoingExpenseAdjustment rs' = rs_ongoingExpenseAdjustment rs ->
      let r' := body withOneTime y rs' in
      let r := body base y rs in
      rs_currentIncome (snd r') = rs_currentIncome (snd r) /\
      rs_ongoingExpenseAdjustment (snd r')
      = rs_ongoingExpenseAdjustment (snd r) /\
      yr_monthlyExpenses (fst r') = yr_monthlyExpenses (fst r) /\
      yr_monthlySavings (fst r') = yr_monthlySavings (fst r) /\
      yr_oneTimeExpense (fst r')
      == yr_oneTimeExpense (fst r) + (if (k =? y)%Z then amount else 0).
Proof.
      intros Hci Hog. unfold yearBody. cbn [fst snd].
      cbn [rs_currentIncome rs_ongoingExpenseAdjustment yr_monthlyExpenses
           yr_monthlySavings yr_oneTimeExpense].
      rewrite Hci, Hog.
      match goal with
      | |- context [applyEvents y withOneTime ?st] =>
          destruct (applyEvents_oneTime y evs1 evs2 k desc amount st)
            as (H1 & H2 & H3)
      end.
      rewrite H1, H2. repeat split. exact H3.
Qed.

Lemma stateAfter_oneTime (year : Z) (rs : RunningState) (j : nat) :
      rs_currentIncome (after withOneTime j year rs)
      = rs_currentIncome (after base j year rs) /\
      rs_ongoingExpenseAdjustment (after withOneTime j year rs)
      = rs_ongoingExpenseAdjustment (after base j year rs).
Proof.
      induction j as [|j [IH1 IH2]]; [split; reflexivity|].
      rewrite !stateAfter_succ_r.
      destruct (yearBody_oneTime (year + Z.of_nat j) _ _ IH1 IH2)
        as (H1 & H2 & _).
      split; assumption.
Qed.

Lemma yearLoop_oneTime_expenses (fuel : nat) :
      forall (year : Z) (rs' rs : RunningState),
        rs_currentIncome rs' = rs_currentIncome rs ->
        rs_ongoingExpenseAdjustment rs' = rs_ongoingExpenseAdjustment rs ->
        map yr_monthlyExpenses (loop withOneTime fuel year rs')
        = map yr_monthlyExpenses (loop base fuel year rs).
Proof.
      induction fuel as [|fuel IH]; intros year rs' rs Hci Hog;
        [reflexivity|].
      rewrite !yearLoop_succ. cbn [map].
      destruct (yearBody_oneTime year rs' rs Hci Hog)
        as (H1 & H2 & H3 & _).
      rewrite H3. f_equal. now apply IH.
Qed.

    (** One more ongoing event: the body of a year started from the same
        income and an expense adjustment larger by [d] records expenses
        larger by [d], and leaves an expense adjustment that is larger
        by [d], plus a twelfth of the amount in the year of the event. *)
Lemma yearBody_ongoing (d : Q) (y : Z) (rs' rs : RunningState) :
      rs_currentIncome rs' = rs_currentIncome rs ->
      rs_ongoingExpenseAdjustment rs'
      == rs_ongoingExpenseAdjustment rs + d ->
      let r' := body withOngoing y rs' in
      let r := body base y rs in
      rs_currentIncome (snd r') = rs_currentIncome (snd r) /\
      rs_ongoingExpenseAdjustment (snd r')
      == rs_ongoingExpenseAdjustment (snd r)
         + (d + if (k =? y)%Z then amount / 12 else 0) /\
      yr_monthlyExpenses (fst r') == yr_monthlyExpenses (fst r) + d.
Proof.
      intros Hci Hog. unfold yearBody. cbn [fst snd].
      cbn [rs_currentIncome rs_ongoingExpenseAdjustment yr_monthlyExpenses].
      rewrite Hci.
      match goal with
      | |- context [applyEvents y withOngoing ?st'] =>
          match goal with
          | |- context [applyEvents y base ?st] =>
              destruct (applyEvents_ongoing y evs1 evs2 k desc amount st')
                as (H1 & H2);
              destruct (applyEvents_ongoingShift d y base st' st)
                as (H3 & H4); [split; [exact Hog|reflexivity]|]
          end
      end.
      split; [congruence|]. split.
      - rewrite H1, H3. ring.
      - rewrite Hog. ring.
Qed.


Lemma stateAfter_ongoing (year : Z) (rs : RunningState) (j : nat) :
      rs_currentIncome (after withOngoing j year rs)
      = rs_currentIncome (after base j year rs) /\
      rs_ongoingExpenseAdjustment (after withOngoing j year rs)
      == rs_ongoingExpenseAdjustment (after base j year rs)
         + ongoingOffset k amount year j.
Proof.
      induction j as [|j [IH1 IH2]].
      - cbn [stateAfter]. split; [reflexivity|]. unfold ongoingOffset.
        destruct (Z.leb_spec year k), (Z.ltb_spec k (year + Z.of_nat 0));
          cbn [andb]; try lia; ring.
      - rewrite !stateAfter_succ_r.
        destruct (yearBody_ongoing _ (year + Z.of_nat j) _ _ IH1 IH2)
          as (H1 & H2 & _).
        split; [exact H1|]. rewrite H2. unfold ongoingOffset.
        destruct (Z.leb_spec year k),
                 (Z.ltb_spec k (year + Z.of_nat j)),
                 (Z.ltb_spec k (year + Z.of_nat (S j))),
                 (Z.eqb_spec k (year + Z.of_nat j));
          cbn [andb]; try lia; ring.
Qed.

End OneMoreEvent.

End LifeEventRuns.

(** C2 (as the code has it): one more one-time event of year k leaves
    the records of years 1 .. k-1 and the monthly expenses of every
    year unchanged, and in year k the portfolio is the portfolio after
    the year's twelve months of growth less the one-time expenses of
    the year, floored at 0: it is lower by the amount whenever the
    amount is non-negative and not larger than the portfolio recorded
    without the event, and it is 0 whenever the amount is at least what
    the year's other one-time expenses leave of the grown portfolio.
    One more ongoing event of year k leaves the records of years
    1 .. k-1 unchanged and raises the recorded monthly expenses by a
    twelfth of the amount in every year after k, through the end of the
    horizon; the record of year k itself is not part of the
    statement. *)
Theorem life_events_application
    (incomeAdjustments : list IncomeAdjustment) (scenario : Scenario)
    (years : Z) (annualRaise baseExpenses savingsRate : Q)
    (evs1 evs2 : list LifeEvent) (investmentReturn appreciationRate : Q)
    (k : Z) (desc : string) (amount : Q) :
  (1 <= k <= years)%Z ->
  let run evs :=
    yearlyData
      (calculateYearByYearFinancials incomeAdjustments scenario years
         annualRaise baseExpenses savingsRate evs investmentReturn
         appreciationRate) in
  let start :=
    JS.max 0 (currentPortfolio (incomeInfo scenario)
              - downPaymentAmount (propertyInfo scenario)) in
  let without := run (evs1 ++ evs2) in
  let oneTime := run (evs1 ++ mkLifeEvent k desc "one-time" amount :: evs2) in
  let ongoing := run (evs1 ++ mkLifeEvent k desc "ongoing" amount :: evs2) in
  (forall j : nat, (Z.of_nat j + 1 < k)%Z ->
     nth_error oneTime j = nth_error without j) /\
  map yr_monthlyExpenses oneTime = map yr_monthlyExpenses without /\
  (exists rec rec' : YearRecord,
     nth_error without (Z.to_nat (k - 1)) = Some rec /\
     nth_error oneTime (Z.to_nat (k - 1)) = Some rec' /\
     yr_year rec = k /\ yr_year rec' = k /\
     yr_oneTimeExpense rec' == yr_oneTimeExpense rec + amount /\
     let grown :=
       growMonths 12 (yr_monthlySavings rec) (investmentReturn / 100 / 12)
                  (portfolioBefore start without (Z.to_nat (k - 1))) in
     yr_portfolio rec = JS.max 0 (grown - yr_oneTimeExpense rec) /\
     yr_portfolio rec'
     == JS.max 0 (grown - yr_oneTimeExpense rec - amount) /\
     (0 <= amount -> amount <= yr_portfolio rec ->
      yr_portfolio rec' == yr_portfolio rec - amount) /\
     (grown - yr_oneTimeExpense rec <= amount -> yr_portfolio rec' == 0)) /\
  (forall j : nat, (Z.of_nat j + 1 < k)%Z ->
     nth_error ongoing j = nth_error without j) /\
  (forall (j : nat) (rec rec' : YearRecord),
     (k < Z.of_nat j + 1)%Z ->
     nth_error without j = Some rec -> nth_error ongoing j = Some rec' ->
     yr_monthlyExpenses rec' == yr_monthlyExpenses rec + amount / 12) /\
  List.length ongoing = Z.to_nat years /\
  List.length oneTime = Z.to_nat years.
Proof.
  intros Hk run start without oneTime ongoing.
  subst without oneTime ongoing run.
  cbn [calculateYearByYearFinancials yearlyData]. fold start.
  set (eqd := calculateEquityOverTime _ _ _ _ _).
  set (rs0 := mkRunningState _ start 0).
  set (h := totalMonthlyCost (calculations scenario)).
  assert (Hbefore : forall (ty : string) (j : nat),
    (Z.of_nat j + 1 < k)%Z ->
    nth_error (yearLoop incomeAdjustments h annualRaise baseExpenses
                 savingsRate (evs1 ++ mkLifeEvent k desc ty amount :: evs2)
                 investmentReturn eqd (Z.to_nat years) 1 rs0) j
    = nth_error (yearLoop incomeAdjustments h annualRaise baseExpenses
                   savingsRate (evs1 ++ evs2) investmentReturn eqd
                   (Z.to_nat years) 1 rs0) j).
  { intros ty j Hj.
    assert (Hskip : forall y st, (y < k)%Z ->
      applyEvents y (evs1 ++ mkLifeEvent k desc ty amount :: evs2) st
      = applyEvents y (evs1 ++ evs2) st).
    { intros y st Hy. apply applyEvents_skip. cbn. lia. }
    rewrite !yearLoop_nth_body by lia.
    rewrite (stateAfter_agree _ _ _ _ _ _ _ _ _ k) by (auto; lia).
    rewrite (yearBody_agree _ _ _ _ _ _ _ _ (evs1 ++ evs2));
      [reflexivity|].
    intros st. apply Hskip. lia. }
  split; [apply Hbefore|].
  split; [now apply yearLoop_oneTime_expenses|].
  split; [|split; [apply Hbefore|split; [|split; apply yearLoop_length]]].
  - set (j := Z.to_nat (k - 1)).
    assert (Hj : (j < Z.to_nat years)%nat) by lia.
    assert (Hyear : (1 + Z.of_nat j)%Z = k) by lia.
    rewrite !yearLoop_nth_body by exact Hj.
    rewrite <- (stateAfter_portfolio _ _ _ _ _ _ _ _ (Z.to_nat years) 1 rs0 j)
      by exact Hj.
    rewrite (stateAfter_agree _ _ _ _ _ _ _
               (evs1 ++ mkLifeEvent k desc "one-time" amount :: evs2)
               (evs1 ++ evs2) k)
      by (try lia; intros y st Hy; apply applyEvents_skip; cbn; lia).
    rewrite Hyear.
    set (rs := stateAfter _ _ _ _ _ (evs1 ++ evs2) _ _ j 1 rs0).
    eexists. eexists. split; [reflexivity|]. split; [reflexivity|].
    destruct (yearBody_oneTime incomeAdjustments h annualRaise baseExpenses
                savingsRate investmentReturn eqd evs1 evs2 k desc amount
                k rs rs eq_refl eq_refl) as (_ & _ & _ & Hsav & Hote).
    rewrite Z.eqb_refl in Hote.
    destruct (yearBody_portfolio incomeAdjustments h annualRaise
                baseExpenses savingsRate investmentReturn eqd
                (evs1 ++ evs2) k rs) as (Hy & Hp).
    destruct (yearBody_portfolio incomeAdjustments h annualRaise
                baseExpenses savingsRate investmentReturn eqd
                (evs1 ++ mkLifeEvent k desc "one-time" amount :: evs2) k rs)
      as (Hy' & Hp').
    split; [exact Hy|]. split; [exact Hy'|]. split; [exact Hote|].
    cbv zeta. split; [exact Hp|].
    rewrite Hsav in Hp'.
    assert (Hp'' : forall g rec rec',
      yr_oneTimeExpense rec' == yr_oneTimeExpense rec + amount ->
      JS.max 0 (g - yr_oneTimeExpense rec')
      == JS.max 0 (g - yr_oneTimeExpense rec - amount)).
    { intros g rec rec' H. apply max_0_compat. rewrite H. ring. }
    split; [|split].
    + rewrite Hp'. apply Hp''. exact Hote.
    + intros Ha Hle. rewrite Hp', (Hp'' _ _ _ Hote).
      rewrite Hp in Hle |- *.
      apply max_0_sub; assumption.
    + intros Hle. rewrite Hp', (Hp'' _ _ _ Hote).
      apply max_0_of_nonpos. lra.
  - intros j rec rec' Hj Hrec Hrec'.
    assert (Hlt : (j < Z.to_nat years)%nat).
    { destruct (Nat.lt_ge_cases j (Z.to_nat years)) as [H|H]; [exact H|].
      exfalso.
      assert (nth_error (yearLoop incomeAdjustments h annualRaise
                baseExpenses savingsRate (evs1 ++ evs2) investmentReturn
                eqd (Z.to_nat years) 1 rs0) j = None)
        by (apply nth_error_None; rewrite yearLoop_length; lia).
      congruence. }
    rewrite yearLoop_nth_body in Hrec, Hrec' by exact Hlt.
    injection Hrec as <-. injection Hrec' as <-.
    destruct (stateAfter_ongoing incomeAdjustments h annualRaise baseExpenses
                savingsRate investmentReturn eqd evs1 evs2 k desc amount
                1 rs0 j) as (Hci & Hog).
    destruct (yearBody_ongoing incomeAdjustments h annualRaise baseExpenses
                savingsRate investmentReturn eqd evs1 evs2 k desc amount
                _ (1 + Z.of_nat j) _ _ Hci Hog) as (_ & _ & Hexp).
    rewrite Hexp. unfold ongoingOffset.
    destruct (Z.leb_spec 1 k), (Z.ltb_spec k (1 + Z.of_nat j));
      cbn [andb]; try lia. reflexivity.
Qed.

Lemma life_events_application_witness :
  (1 <= 5 <= 6)%Z /\
  (forall rec rec' : YearRecord,
     nth_error
       (yearlyData
          (calculateYearByYearFinancials [] exampleScenario 6 3 2500 50
             [] 8 3)) 5 = Some rec ->
     nth_error
       (yearlyData
          (calculateYearByYearFinancials [] exampleScenario 6 3 2500 50
             [mkLifeEvent 5 "child care" "ongoing" 6000] 8 3)) 5
     = Some rec' ->
     yr_monthlyExpenses rec' == yr_monthlyExpenses rec + 6000 / 12) /\
  map yr_monthlyExpenses
    (yearlyData
       (calculateYearByYearFinancials [] exampleScenario 6 3 2500 50
          [mkLifeEvent 5 "child care" "one-time" 6000] 8 3))
  = map yr_monthlyExpenses
      (yearlyData
         (calculateYearByYearFinancials [] exampleScenario 6 3 2500 50
            [] 8 3)) /\
  nth_error
    (yearlyData
       (calculateYearByYearFinancials [] exampleScenario 6 3 2500 50
          [mkLifeEvent 5 "child care" "one-time" 6000] 8 3)) 3
  = nth_error
      (yearlyData
         (calculateYearByYearFinancials [] exampleScenario 6 3 2500 50
            [] 8 3)) 3 /\
  exists rec rec' : YearRecord,
    nth_error
      (yearlyData
         (calculateYearByYearFinancials [] exampleScenario 6 3 2500 50
            [] 8 3)) 4 = Some rec /\
    nth_error
      (yearlyData
         (calculateYearByYearFinancials [] exampleScenario 6 3 2500 50
            [mkLifeEvent 5 "child care" "one-time" 6000] 8 3)) 4
    = Some rec' /\
    yr_oneTimeExpense rec' == yr_oneTimeExpense rec + 6000 /\
    (6000 <= yr_portfolio rec ->
     yr_portfolio rec' == yr_portfolio rec - 6000).
Proof.
  pose proof (life_events_application [] exampleScenario 6 3 2500 50
                [] [] 8 3 5 "child care" 6000 ltac:(lia)) as H.
  cbv zeta in H.
  destruct H as (Hbefore & Hexp & (rec & rec' & Hr & Hr' & _ & _ & Hote
                                   & _ & _ & Hlow & _) & _ & Hon & _).
  split; [lia|]. split; [|split; [exact Hexp|split]].
  - intros r r'. apply (Hon 5%nat r r'). lia.
  - apply (Hbefore 3%nat). lia.
  - exists rec, rec'. split; [exact Hr|]. split; [exact Hr'|].
    split; [exact Hote|]. apply Hlow. discriminate.
Defined.

(** A one-time event of 30000 in year 1 takes a portfolio of 20000
    down to 0, that is by 20000, not by 30000. *)
Lemma one_time_event_floored :
  exists rec rec' : YearRecord,
    nth_error
      (yearlyData
         (calculateYearByYearFinancials [] exampleScenario 6 0 8000 50
            [] 0 0)) 0 = Some rec /\
    nth_error
      (yearlyData
         (calculateYearByYearFinancials [] exampleScenario 6 0 8000 50
            [mkLifeEvent 1 "new roof" "one-time" 30000] 0 0)) 0
    = Some rec' /\
    yr_portfolio rec == 20000 /\
    yr_portfolio rec' == 0 /\
    ~ yr_portfolio rec' == yr_portfolio rec - 30000.
Proof.
  cbv zeta. cbn [calculateYearByYearFinancials yearlyData].
  rewrite !yearLoop_nth_body by (cbn; lia).
  eexists. eexists. split; [reflexivity|]. split; [reflexivity|].
  cbn [stateAfter]. unfold yearBody. cbn [fst yr_portfolio].
  split; [vm_compute; reflexivity|]. split; [vm_compute; reflexivity|].
  intros H. vm_compute in H. discriminate H.
Qed.

(** The code at an ongoing event's own year: an ongoing event of 6000 a
    year scheduled in year 5 leaves the monthly expenses recorded for
    year 5 as they are without the event, not 500 higher, because the
    year's expenses are taken before the events of the year are
    read. *)
Lemma ongoing_event_misses_its_year :
  exists rec rec' : YearRecord,
    nth_error
      (yearlyData
         (calculateYearByYearFinancials [] exampleScenario 6 3 2500 50
            [] 8 3)) 4 = Some rec /\
    nth_error
      (yearlyData
         (calculateYearByYearFinancials [] exampleScenario 6 3 2500 50
            [mkLifeEvent 5 "child care" "ongoing" 6000] 8 3)) 4
    = Some rec' /\
    yr_year rec' = 5%Z /\
    yr_monthlyExpenses rec' = yr_monthlyExpenses rec /\
    ~ yr_monthlyExpenses rec' == yr_monthlyExpenses rec + 6000 / 12.
Proof.
  cbv zeta. cbn [calculateYearByYearFinancials yearlyData].
  rewrite !yearLoop_nth_body by (cbn; lia).
  eexists. eexists. split; [reflexivity|]. split; [reflexivity|].
  split; [reflexivity|].
  rewrite !yearBody_expenses.
  rewrite (stateAfter_agree _ _ _ _ _ _ _
             [mkLifeEvent 5 "child care" "ongoing" 6000] [] 5);
    [| intros y st Hy;
       apply (applyEvents_skip y [] [] (mkLifeEvent 5 "child care"
                                          "ongoing" 6000) st);
       cbn; lia
     | cbn; lia].
  split; [reflexivity|]. intros H.
  match type of H with
  | ?x == ?x + _ => assert (Hx : x + 0 == x + 6000 / 12) by (rewrite <- H; ring)
  end.
  apply Qplus_inj_l in Hx. discriminate Hx.
Qed.

(** * Further properties *)

(** ** The rows of the amortization schedule *)

Lemma max_0_id (x : Q) : 0 <= x -> JS.max 0 x = x.
Proof.
  intros H. unfold JS.max. apply Qle_bool_iff in H. now rewrite H.
Qed.

(** Every row of a schedule whose months end at [n], written with the
    unforced running balance. *)
Lemma amortLoop_nth (r M : Q) (n : Z) (fuel : nat) :
  forall (month : Z) (b : Q) (k : nat),
    (month + Z.of_nat fuel - 1 = n)%Z ->
    (k < fuel)%nat ->
    nth_error (amortLoop fuel month b r M n) k
    = Some (mkAmortizationRow
              (month + Z.of_nat k) M
              (M - rawBalance r M k b * r)
              (rawBalance r M k b * r)
              (JS.max 0 (if (month + Z.of_nat k =? n)%Z then 0
                         else rawBalance r M (S k) b))).
Proof.
  induction fuel as [|fuel IH]; intros month b k Hn Hk; [lia|].
  destruct k as [|k].
  - cbn [amortLoop nth_error rawBalance]. now rewrite Z.add_0_r.
  - cbn [amortLoop nth_error].
    replace (month =? n)%Z with false by (symmetry; apply Z.eqb_neq; lia).
    rewrite IH by lia.
    now replace (month + 1 + Z.of_nat k)%Z with (month + Z.of_nat (S k))%Z
      by lia.
Qed.

Lemma generateAmortizationSchedule_nth (principal annualRate : Q)
    (years : Z) (k : nat) :
  let r := annualRate / 100 / 12 in
  let M := calculateMonthlyPayment principal annualRate years in
  let n := (years * 12)%Z in
  (k < Z.to_nat n)%nat ->
  nth_error (generateAmortizationSchedule principal annualRate years) k
  = Some (mkAmortizationRow
            (1 + Z.of_nat k) M
            (M - rawBalance r M k principal * r)
            (rawBalance r M k principal * r)
            (JS.max 0 (if (1 + Z.of_nat k =? n)%Z then 0
                       else rawBalance r M (S k) principal))).
Proof.
  intros r M n Hk. unfold generateAmortizationSchedule.
  apply amortLoop_nth; [fold n; lia|exact Hk].
Qed.

(** The unforced balance of a loan whose payment covers the interest on
    the principal never exceeds the principal and never goes up. *)
Lemma rawBalance_decreasing (P r M : Q) (k : nat) :
  0 <= r -> P * r <= M ->
  rawBalance r M k P <= P /\
  rawBalance r M (S k) P <= rawBalance r M k P.
Proof.
  intros Hr HM. induction k as [|k [IH1 IH2]].
  - cbn. split; [lra|nra].
  - assert (H : rawBalance r M (S k) P <= P) by lra.
    split; [exact H|]. rewrite (rawBalance_succ r M (S k)). nra.
Qed.

Lemma rawBalance_antitone (P r M : Q) (i j : nat) :
  0 <= r -> P * r <= M -> (i <= j)%nat ->
  rawBalance r M j P <= rawBalance r M i P.
Proof.
  intros Hr HM Hij. induction Hij as [|j Hij IH]; [lra|].
  destruct (rawBalance_decreasing P r M j Hr HM) as [_ H]. lra.
Qed.

(** What the payment formula gives for a proper loan: the payment
    exceeds the interest on the whole principal, the unforced balance
    stays non-negative over the term and is 0 at its end. *)
Lemma proper_loan_facts (principal annualRate : Q) (years : Z) :
  0 < principal -> 0 <= annualRate -> (0 < years)%Z ->
  let r := annualRate / 100 / 12 in
  let n := (years * 12)%Z in
  let M := calculateMonthlyPayment principal annualRate years in
  0 <= r /\
  principal * r < M /\
  rawBalance r M (Z.to_nat n) principal == 0 /\
  (forall k : nat, (k <= Z.to_nat n)%nat -> 0 <= rawBalance r M k principal) /\
  (r == 0 ->
   M == principal / inject_Z n /\
   forall k : nat,
     rawBalance r M k principal == principal - inject_Z (Z.of_nat k) * M) /\
  (0 < r ->
   1 < (1 + r) ^ n /\
   forall k : nat,
     rawBalance r M k principal * ((1 + r) ^ n - 1)
     == principal * ((1 + r) ^ n - (1 + r) ^ Z.of_nat k)).
Proof.
  intros HP Hrate Hyears r n M.
  pose proof (monthlyRate_nonneg annualRate Hrate) as Hr. fold r in Hr.
  assert (Hn : (0 < n)%Z) by (subst n; lia).
  assert (Hinj : 0 < inject_Z n) by (unfold Qlt, inject_Z; cbn; lia).
  assert (HMdef :
    (r == 0 /\ M = principal / inject_Z n) \/
    (0 < r /\
     M = principal * (r * (1 + r) ^ n) / ((1 + r) ^ n - 1))).
  { subst M. unfold calculateMonthlyPayment. fold r n.
    replace (JS.leb principal 0) with false
      by (symmetry; apply leb_false; exact HP).
    replace (years <=? 0)%Z with false by (symmetry; apply Z.leb_gt; lia).
    cbn [orb]. unfold JS.eqb, JS.pow.
    destruct (Qeq_bool r 0) eqn:E.
    - apply Qeq_bool_iff in E. left. split; [exact E|reflexivity].
    - apply Qeq_bool_neq in E. right. split; [|reflexivity].
      apply Qle_lteq in Hr. destruct Hr as [H|H]; [exact H|].
      exfalso. apply E. symmetry. exact H. }
  split; [exact Hr|].
  destruct HMdef as [[Hr0 HM]|[Hrp HM]].
  - assert (HMn : inject_Z n * M == principal).
    { rewrite HM. field. lra. }
    assert (HMpos : 0 < M).
    { rewrite HM. apply Qlt_shift_div_l; [exact Hinj|]. lra. }
    assert (Hraw : forall k : nat,
      rawBalance r M k principal == principal - inject_Z (Z.of_nat k) * M).
    { intros k. now apply rawBalance_zero_rate. }
    split; [rewrite Hr0; lra|]. split; [|split; [|split]].
    + rewrite Hraw, Z2Nat.id by lia. lra.
    + intros k Hk. rewrite Hraw.
      assert (Hle : inject_Z (Z.of_nat k) <= inject_Z n).
      { rewrite <- Zle_Qle. lia. }
      nra.
    + intros _. split; [rewrite HM; reflexivity|exact Hraw].
    + intros Hlt. lra.
  - destruct (pmt_payment_facts principal r n HP Hrp Hn) as (HQ & HMQ & _).
    cbv zeta in HMQ. rewrite <- HM in HMQ.
    assert (Hcf : forall k : nat,
      rawBalance r M k principal * ((1 + r) ^ n - 1)
      == principal * ((1 + r) ^ n - (1 + r) ^ Z.of_nat k)).
    { intros k. now apply rawBalance_closed_form. }
    split; [nra|]. split; [|split; [|split]].
    + apply (Qmult_inj_r _ _ ((1 + r) ^ n - 1)); [lra|].
      rewrite Hcf, Z2Nat.id by lia. ring.
    + intros k Hk.
      assert (Hpow : (1 + r) ^ Z.of_nat k <= (1 + r) ^ n).
      { apply Qpower_le_compat_l; [lia|lra]. }
      specialize (Hcf k). nra.
    + intros H0. lra.
    + intros _. split; [exact HQ|exact Hcf].
Qed.

Lemma schedule_row (principal annualRate : Q) (years : Z) (k : nat)
    (row : AmortizationRow) :
  let r := annualRate / 100 / 12 in
  let M := calculateMonthlyPayment principal annualRate years in
  let n := (years * 12)%Z in
  nth_error (generateAmortizationSchedule principal annualRate years) k
  = Some row ->
  (k < Z.to_nat n)%nat /\
  row = mkAmortizationRow
          (1 + Z.of_nat k) M
          (M - rawBalance r M k principal * r)
          (rawBalance r M k principal * r)
          (JS.max 0 (if (1 + Z.of_nat k =? n)%Z then 0
                     else rawBalance r M (S k) principal)).
Proof.
  intros r M n H.
  assert (Hk : (k < Z.to_nat n)%nat).
  { unfold n.
    rewrite <- (generateAmortizationSchedule_length principal annualRate
                  years).
    apply nth_error_Some. congruence. }
  split; [exact Hk|].
  rewrite generateAmortizationSchedule_nth in H by exact Hk.
  now injection H as <-.
Qed.

(** The recorded balance of a proper loan is the unforced balance. *)
Lemma schedule_row_balance (principal annualRate : Q) (years : Z) (k : nat)
    (row : AmortizationRow) :
  0 < principal -> 0 <= annualRate -> (0 < years)%Z ->
  nth_error (generateAmortizationSchedule principal annualRate years) k
  = Some row ->
  am_balance row
  == rawBalance (annualRate / 100 / 12)
                (calculateMonthlyPayment principal annualRate years)
                (S k) principal.
Proof.
  intros HP Hrate Hyears H.
  destruct (proper_loan_facts principal annualRate years HP Hrate Hyears)
    as (_ & _ & Hend & Hnonneg & _).
  apply schedule_row in H. destruct H as [Hk ->]. cbn [am_balance].
  destruct (Z.eqb_spec (1 + Z.of_nat k) (years * 12)) as [E|E].
  - assert (Ek : S k = Z.to_nat (years * 12)) by lia.
    rewrite Ek, Hend. reflexivity.
  - rewrite max_0_id; [reflexivity|]. apply Hnonneg. lia.
Qed.

Lemma rawBalance_lower (P r M : Q) (k : nat) :
  0 <= r ->
  (forall j : nat, (j < k)%nat -> 0 <= rawBalance r M j P) ->
  P - inject_Z (Z.of_nat k) * M <= rawBalance r M k P.
Proof.
  intros Hr. induction k as [|k IH]; intros Hnonneg.
  - cbn [rawBalance]. change (inject_Z (Z.of_nat 0)) with 0. lra.
  - rewrite rawBalance_succ, Nat2Z.inj_succ. unfold Z.succ.
    rewrite inject_Z_plus.
    specialize (IH (fun j Hj => Hnonneg j (Nat.lt_lt_succ_r _ _ Hj))).
    pose proof (Hnonneg k (Nat.lt_succ_diag_r k)) as Hk.
    change (inject_Z 1) with 1. nra.
Qed.

(** X1: for a proper loan the monthly payment is positive, exceeds the
    first month's interest, adds up over the term to at least the
    principal, and to exactly the principal at a zero rate. *)
Theorem monthly_payment_proper_loan (principal annualRate : Q) (years : Z) :
  0 < principal -> 0 <= annualRate -> (0 < years)%Z ->
  let M := calculateMonthlyPayment principal annualRate years in
  let n := inject_Z (years * 12) in
  0 < M /\
  principal * (annualRate / 100 / 12) < M /\
  principal <= n * M /\
  (annualRate == 0 -> n * M == principal).
Proof.
  intros HP Hrate Hyears M n.
  destruct (proper_loan_facts principal annualRate years HP Hrate Hyears)
    as (Hr & Hcover & Hend & Hnonneg & Hzero & _).
  fold M in Hcover, Hend, Hnonneg, Hzero.
  split; [nra|]. split; [exact Hcover|]. split.
  - pose proof (rawBalance_lower principal (annualRate / 100 / 12) M
                  (Z.to_nat (years * 12)) Hr
                  (fun j Hj => Hnonneg j (Nat.lt_le_incl _ _ Hj))) as Hlow.
    rewrite Z2Nat.id in Hlow by lia. fold n in Hlow. lra.
  - intros H0.
    assert (Hr0 : annualRate / 100 / 12 == 0) by (rewrite H0; reflexivity).
    destruct (Hzero Hr0) as [HM _]. subst n. rewrite HM. field.
    unfold Qeq, inject_Z. cbn. lia.
Qed.

Lemma monthly_payment_proper_loan_witness :
  (0 < 120000 /\ 0 <= 0 /\ (0 < 10)%Z) /\
  inject_Z (10 * 12) * calculateMonthlyPayment 120000 0 10 == 120000.
Proof.
  split; [repeat split; discriminate|].
  apply (monthly_payment_proper_loan 120000 0 10 eq_refl (Qle_refl 0) eq_refl).
  reflexivity.
Defined.

Lemma schedule_row_month (principal annualRate : Q) (years : Z)
    (k : nat) (row : AmortizationRow) :
  nth_error (generateAmortizationSchedule principal annualRate years) k
  = Some row ->
  am_month row = (Z.of_nat k + 1)%Z.
Proof.
  intros H. apply schedule_row in H. destruct H as [_ ->].
  cbn [am_month]. lia.
Qed.

(** X2: in every schedule the months are numbered from 1, every row
    carries the payment of [calculateMonthlyPayment], the interest and
    principal components of a row add up to the payment, and the first
    row's interest is the monthly rate times the principal. *)
Theorem amortization_row_structure (principal annualRate : Q) (years : Z)
    (k : nat) (row : AmortizationRow) :
  nth_error (generateAmortizationSchedule principal annualRate years) k
  = Some row ->
  am_month row = (Z.of_nat k + 1)%Z /\
  am_payment row = calculateMonthlyPayment principal annualRate years /\
  am_interest row + am_principal row == am_payment row /\
  (k = 0%nat -> am_interest row = principal * (annualRate / 100 / 12)).
Proof.
  intros H. apply schedule_row in H. destruct H as [_ ->].
  cbn [am_month am_payment am_interest am_principal].
  split; [lia|]. split; [reflexivity|]. split; [ring|].
  intros ->. reflexivity.
Qed.

Lemma amortization_row_structure_witness :
  exists row : AmortizationRow,
    nth_error (generateAmortizationSchedule 120000 0 10) 0 = Some row /\
    am_month row = 1%Z /\
    am_interest row + am_principal row == am_payment row.
Proof.
  eexists. split; [apply generateAmortizationSchedule_nth; cbn; lia|].
  destruct (amortization_row_structure 120000 0 10 0 _
              (generateAmortizationSchedule_nth 120000 0 10 0
                 ltac:(cbn; lia))) as (Hm & _ & Hsum & _).
  split; [exact Hm|exact Hsum].
Defined.

(** X3: from one row of a proper loan's schedule to the next, the
    interest is the monthly rate times the previous balance, the balance
    goes down by the principal component, the principal component is
    positive and does not shrink, and the interest is non-negative and
    does not grow. *)
Theorem amortization_recurrence (principal annualRate : Q) (years : Z)
    (k : nat) (row1 row2 : AmortizationRow) :
  0 < principal -> 0 <= annualRate -> (0 < years)%Z ->
  nth_error (generateAmortizationSchedule principal annualRate years) k
  = Some row1 ->
  nth_error (generateAmortizationSchedule principal annualRate years) (S k)
  = Some row2 ->
  am_interest row2 == am_balance row1 * (annualRate / 100 / 12) /\
  am_balance row2 == am_balance row1 - am_principal row2 /\
  0 < am_principal row1 /\
  am_principal row1 <= am_principal row2 /\
  0 <= am_interest row2 /\
  am_interest row2 <= am_interest row1.
Proof.
  intros HP Hrate Hyears H1 H2.
  pose proof (schedule_row_balance _ _ _ _ _ HP Hrate Hyears H1) as Hb1.
  pose proof (schedule_row_balance _ _ _ _ _ HP Hrate Hyears H2) as Hb2.
  destruct (proper_loan_facts principal annualRate years HP Hrate Hyears)
    as (Hr & Hcover & _ & Hnonneg & _).
  apply schedule_row in H1. destruct H1 as [Hk1 E1].
  apply schedule_row in H2. destruct H2 as [Hk2 E2].
  set (r := annualRate / 100 / 12) in *.
  set (M := calculateMonthlyPayment principal annualRate years) in *.
  destruct (rawBalance_decreasing principal r M k Hr
              (Qlt_le_weak _ _ Hcover)) as [Hle Hdec].
  pose proof (Hnonneg (S k) ltac:(lia)) as Hpos.
  rewrite Hb1, Hb2. rewrite (rawBalance_succ r M (S k)).
  subst row1 row2. cbn [am_interest am_principal].
  repeat split; nra.
Qed.

Lemma amortization_recurrence_witness :
  (0 < 120000 /\ 0 <= 0 /\ (0 < 10)%Z) /\
  exists row1 row2 : AmortizationRow,
    nth_error (generateAmortizationSchedule 120000 0 10) 0 = Some row1 /\
    nth_error (generateAmortizationSchedule 120000 0 10) 1 = Some row2 /\
    am_balance row2 == am_balance row1 - am_principal row2.
Proof.
  split; [repeat split; discriminate|].
  eexists. eexists.
  split; [apply generateAmortizationSchedule_nth; cbn; lia|].
  split; [apply generateAmortizationSchedule_nth; cbn; lia|].
  apply (amortization_recurrence 120000 0 10 0 _ _ eq_refl (Qle_refl 0)
           eq_refl
           (generateAmortizationSchedule_nth 120000 0 10 0 ltac:(cbn; lia))
           (generateAmortizationSchedule_nth 120000 0 10 1 ltac:(cbn; lia))).
Defined.

(** X4: at a positive rate the balance recorded after month m of a
    proper loan is principal * (q^n - q^m) / (q^n - 1), where q is
    1 + the monthly rate and n the number of payments. *)
Theorem amortization_balance_closed_form (principal annualRate : Q)
    (years : Z) (k : nat) (row : AmortizationRow) :
  0 < principal -> 0 < annualRate -> (0 < years)%Z ->
  nth_error (generateAmortizationSchedule principal annualRate years) k
  = Some row ->
  let q := 1 + annualRate / 100 / 12 in
  let n := (years * 12)%Z in
  am_balance row
  == principal * (q ^ n - q ^ am_month row) / (q ^ n - 1).
Proof.
  intros HP Hrate Hyears H q n.
  pose proof (schedule_row_balance _ _ _ _ _ HP (Qlt_le_weak _ _ Hrate)
                Hyears H) as Hb.
  destruct (proper_loan_facts principal annualRate years HP
              (Qlt_le_weak _ _ Hrate) Hyears) as (_ & _ & _ & _ & _ & Hpos).
  assert (Hr : 0 < annualRate / 100 / 12).
  { apply Qlt_shift_div_l; [reflexivity|].
    apply Qlt_shift_div_l; [reflexivity|]. lra. }
  destruct (Hpos Hr) as [HQ Hcf]. fold q n in HQ, Hcf.
  apply schedule_row in H. destruct H as [_ E].
  assert (Hm : am_month row = Z.of_nat (S k)) by (rewrite E; cbn [am_month]; lia).
  rewrite Hb, Hm.
  apply (Qmult_inj_r _ _ (q ^ n - 1)); [lra|].
  rewrite Hcf. field. lra.
Qed.

Lemma amortization_balance_closed_form_witness :
  (0 < 1200 /\ 0 < 1200 /\ (0 < 1)%Z) /\
  exists row : AmortizationRow,
    nth_error (generateAmortizationSchedule 1200 1200 1) 0 = Some row /\
    am_balance row
    == 1200 * ((1 + 1200 / 100 / 12) ^ 12
               - (1 + 1200 / 100 / 12) ^ am_month row)
       / ((1 + 1200 / 100 / 12) ^ 12 - 1).
Proof.
  split; [repeat split; discriminate|].
  eexists. split; [apply generateAmortizationSchedule_nth; cbn; lia|].
  apply (amortization_balance_closed_form 1200 1200 1 0 _ eq_refl eq_refl
           eq_refl
           (generateAmortizationSchedule_nth 1200 1200 1 0 ltac:(cbn; lia))).
Defined.

(** X5: at a zero rate the schedule of a proper loan is a straight
    line: no interest, a principal component of principal / n in every
    row, and a balance of principal - m * principal / n after month m. *)
Theorem amortization_zero_rate (principal annualRate : Q) (years : Z)
    (k : nat) (row : AmortizationRow) :
  0 < principal -> annualRate == 0 -> (0 < years)%Z ->
  nth_error (generateAmortizationSchedule principal annualRate years) k
  = Some row ->
  let n := inject_Z (years * 12) in
  am_interest row == 0 /\
  am_payment row == principal / n /\
  am_principal row == principal / n /\
  am_balance row == principal - inject_Z (am_month row) * (principal / n).
Proof.
  intros HP H0 Hyears H n.
  assert (Hrate : 0 <= annualRate) by lra.
  pose proof (schedule_row_balance _ _ _ _ _ HP Hrate Hyears H) as Hb.
  destruct (proper_loan_facts principal annualRate years HP Hrate Hyears)
    as (_ & _ & _ & _ & Hzero & _).
  assert (Hr0 : annualRate / 100 / 12 == 0) by (rewrite H0; reflexivity).
  destruct (Hzero Hr0) as [HM Hraw]. fold n in HM.
  apply schedule_row in H. destruct H as [_ E].
  assert (Hm : am_month row = Z.of_nat (S k)) by (rewrite E; cbn [am_month]; lia).
  split; [|split; [|split]].
  - rewrite E. cbn [am_interest].
    set (x := rawBalance _ _ _ _). rewrite Hr0. ring.
  - rewrite E. cbn [am_payment]. exact HM.
  - rewrite E. cbn [am_principal].
    set (x := rawBalance _ _ _ _). rewrite Hr0, HM. ring.
  - rewrite Hb, Hm, Hraw, HM. reflexivity.
Qed.

Lemma amortization_zero_rate_witness :
  (0 < 120000 /\ 0 == 0 /\ (0 < 10)%Z) /\
  exists row : AmortizationRow,
    nth_error (generateAmortizationSchedule 120000 0 10) 0 = Some row /\
    am_interest row == 0 /\
    am_principal row == 120000 / inject_Z (10 * 12).
Proof.
  split; [repeat split; discriminate|].
  eexists. split; [apply generateAmortizationSchedule_nth; cbn; lia|].
  destruct (amortization_zero_rate 120000 0 10 0 _ eq_refl (Qeq_refl 0)
              eq_refl
              (generateAmortizationSchedule_nth 120000 0 10 0
                 ltac:(cbn; lia))) as (Hi & _ & Hp & _).
  split; [exact Hi|exact Hp].
Defined.

(** ** The recommended price *)

(** X6: the recommended price inverts the payment formula: the loan
    that the recommended price leaves after the down payment has a
    monthly payment of exactly 85% of 28% of the monthly income; the
    price is positive and does not depend on the monthly debts. *)
Theorem recommended_price_round_trip
    (annualIncome monthlyDebts downPaymentPercent rate : Q) (years : Z) :
  0 < annualIncome -> 0 <= rate -> (0 < years)%Z ->
  0 <= downPaymentPercent -> downPaymentPercent < 100 ->
  let price :=
    calculateRecommendedPrice annualIncome monthlyDebts downPaymentPercent
                              rate years in
  let loan := price * (1 - downPaymentPercent / 100) in
  0 < price /\
  calculateMonthlyPayment loan rate years
  == annualIncome / 12 * (28 # 100) * (85 # 100) /\
  forall otherDebts : Q,
    calculateRecommendedPrice annualIncome otherDebts downPaymentPercent
                              rate years = price.
Proof.
  intros Hinc Hrate Hyears Hdp0 Hdp price loan.
  pose proof (monthlyRate_nonneg rate Hrate) as Hr.
  set (r := rate / 100 / 12) in *.
  set (n := (years * 12)%Z).
  set (E := annualIncome / 12 * (28 # 100) * (85 # 100)).
  assert (HE : 0 < E).
  { subst E. repeat apply Qmult_lt_0_compat; try reflexivity.
    exact Hinc. }
  assert (Hn : (0 < n)%Z) by (subst n; lia).
  assert (Hinj : 0 < inject_Z n) by (unfold Qlt, inject_Z; cbn; lia).
  assert (Hd : 0 < 1 - downPaymentPercent / 100).
  { assert (downPaymentPercent / 100 < 1)
      by (apply Qlt_shift_div_r; [reflexivity|lra]).
    lra. }
  set (maxLoan :=
         if JS.eqb r 0 then E * inject_Z n
         else E * (JS.pow (1 + r) n - 1) / (r * JS.pow (1 + r) n)).
  assert (Hprice : price = maxLoan / (1 - downPaymentPercent / 100))
    by reflexivity.
  assert (Hloan : loan == maxLoan).
  { subst loan. rewrite Hprice. field. lra. }
  assert (Hcases :
    (r == 0 /\ maxLoan = E * inject_Z n) \/
    (0 < r /\ 1 < (1 + r) ^ n /\
     maxLoan = E * ((1 + r) ^ n - 1) / (r * (1 + r) ^ n))).
  { subst maxLoan. unfold JS.eqb, JS.pow.
    destruct (Qeq_bool r 0) eqn:Eq.
    - apply Qeq_bool_iff in Eq. left. split; [exact Eq|reflexivity].
    - apply Qeq_bool_neq in Eq. right.
      assert (Hrp : 0 < r).
      { apply Qle_lteq in Hr. destruct Hr as [H|H]; [exact H|].
        exfalso. apply Eq. symmetry. exact H. }
      split; [exact Hrp|]. split; [|reflexivity].
      apply Qpower_1_lt; [lra|exact Hn]. }
  assert (Hpos : 0 < maxLoan).
  { destruct Hcases as [[_ ->]|(Hrp & HQ & ->)]; [nra|].
    apply Qlt_shift_div_l; nra. }
  split; [rewrite Hprice; apply Qlt_shift_div_l; lra|]. split; [|reflexivity].
  unfold calculateMonthlyPayment. fold r n.
  replace (JS.leb loan 0) with false
    by (symmetry; apply leb_false; lra).
  replace (years <=? 0)%Z with false by (symmetry; apply Z.leb_gt; lia).
  cbn [orb]. unfold JS.eqb, JS.pow.
  destruct Hcases as [[Hr0 HM]|(Hrp & HQ & HM)].
  - apply Qeq_bool_iff in Hr0. rewrite Hr0, Hloan, HM. field. lra.
  - destruct (Qeq_bool r 0) eqn:Eq;
      [apply Qeq_bool_iff in Eq; lra|].
    rewrite Hloan, HM. field. repeat split; lra.
Qed.

Lemma recommended_price_round_trip_witness :
  (0 < 120000 /\ 0 <= 0 /\ (0 < 30)%Z /\ 0 <= 20 /\ 20 < 100) /\
  0 < calculateRecommendedPrice 120000 500 20 0 30.
Proof.
  split; [repeat split; discriminate|].
  apply (recommended_price_round_trip 120000 500 20 0 30);
    reflexivity || discriminate.
Defined.

(** ** The equity projection *)

Lemma equityLoop_nth (schedule : list AmortizationRow)
    (purchasePrice principal appreciationRate : Q) (fuel : nat) :
  forall (year : Z) (k : nat) (row : EquityRow),
    (1 <= year)%Z ->
    nth_error (equityLoop fuel year schedule purchasePrice principal
                          appreciationRate) k = Some row ->
    exists monthData : AmortizationRow,
      nth_error schedule (Z.to_nat ((year + Z.of_nat k) * 12 - 1))
      = Some monthData /\
      row = mkEquityRow
              (year + Z.of_nat k)
              (purchasePrice
               * JS.pow (1 + appreciationRate / 100) (year + Z.of_nat k))
              (am_balance monthData)
              (principal - am_balance monthData)
              (purchasePrice - principal
               + (principal - am_balance monthData)
               + (purchasePrice
                  * JS.pow (1 + appreciationRate / 100) (year + Z.of_nat k)
                  - purchasePrice)).
Proof.
  induction fuel as [|fuel IH]; intros year k row Hy H.
  - destruct k; discriminate.
  - cbn [equityLoop] in H.
    destruct (Z.of_nat (List.length schedule) <=? year * 12 - 1)%Z;
      [destruct k; discriminate|].
    destruct (nth_error schedule (Z.to_nat (year * 12 - 1))) as [m|] eqn:Em;
      [|destruct k; discriminate].
    destruct k as [|k].
    + cbn [nth_error] in H. injection H as <-. exists m.
      rewrite Z.add_0_r. split; [exact Em|reflexivity].
    + cbn [nth_error] in H. apply IH in H; [|lia].
      replace (year + Z.of_nat (S k))%Z with (year + 1 + Z.of_nat k)%Z by lia.
      exact H.
Qed.

(** X7: every equity snapshot is numbered by its year, values the home
    at purchasePrice * (1 + appreciation)^year, reads the loan balance
    of the last month of that year from the schedule, and its equity is
    the home value less the loan balance. *)
Theorem equity_snapshot_identity
    (purchasePrice principal rate : Q) (years : Z) (appreciationRate : Q)
    (k : nat) (row : EquityRow) :
  nth_error (calculateEquityOverTime purchasePrice principal rate years
                                     appreciationRate) k = Some row ->
  let year := (Z.of_nat k + 1)%Z in
  eq_year row = year /\
  eq_homeValue row
  = purchasePrice * (1 + appreciationRate / 100) ^ year /\
  eq_principalPaid row = principal - eq_loanBalance row /\
  eq_equity row == eq_homeValue row - eq_loanBalance row /\
  exists monthData : AmortizationRow,
    nth_error (generateAmortizationSchedule principal rate years)
              (Z.to_nat (year * 12 - 1)) = Some monthData /\
    am_month monthData = (year * 12)%Z /\
    eq_loanBalance row = am_balance monthData.
Proof.
  intros H year. unfold calculateEquityOverTime in H.
  apply equityLoop_nth in H; [|lia].
  destruct H as (m & Hm & ->).
  replace (1 + Z.of_nat k)%Z with year in * by (subst year; lia).
  cbn [eq_year eq_homeValue eq_principalPaid eq_equity eq_loanBalance].
  split; [reflexivity|]. split; [reflexivity|]. split; [reflexivity|].
  split; [unfold JS.pow; ring|].
  exists m. split; [exact Hm|]. split; [|reflexivity].
  apply schedule_row_month in Hm. subst year. lia.
Qed.

Lemma calculateEquityOverTime_some
    (purchasePrice principal rate : Q) (years : Z) (appreciationRate : Q)
    (k : nat) :
  (k < Z.to_nat years)%nat ->
  exists row : EquityRow,
    nth_error (calculateEquityOverTime purchasePrice principal rate years
                                       appreciationRate) k = Some row.
Proof.
  intros Hk.
  destruct (nth_error (calculateEquityOverTime purchasePrice principal rate
                         years appreciationRate) k) as [row|] eqn:E.
  - now exists row.
  - apply nth_error_None in E.
    rewrite calculateEquityOverTime_length in E. lia.
Qed.

Lemma equity_snapshot_identity_witness :
  exists row : EquityRow,
    nth_error (calculateEquityOverTime 400000 320000 (13 # 2) 30 3) 4
    = Some row /\
    eq_year row = 5%Z /\
    eq_equity row == eq_homeValue row - eq_loanBalance row.
Proof.
  destruct (calculateEquityOverTime_some 400000 320000 (13 # 2) 30 3 4
              ltac:(lia)) as [row Hrow].
  exists row. split; [exact Hrow|].
  destruct (equity_snapshot_identity 400000 320000 (13 # 2) 30 3 4 row Hrow)
    as (Hy & _ & _ & He & _).
  split; [exact Hy|exact He].
Defined.

(** X8: when the projection covers at least one year its last snapshot
    has a loan balance of exactly 0, so that the whole principal counts
    as paid and the equity is the appreciated home value. *)
Theorem equity_final_snapshot
    (purchasePrice principal rate : Q) (years : Z) (appreciationRate : Q) :
  (1 <= years)%Z ->
  exists row : EquityRow,
    nth_error (calculateEquityOverTime purchasePrice principal rate years
                                       appreciationRate)
              (Z.to_nat years - 1) = Some row /\
    eq_year row = years /\
    eq_loanBalance row = 0 /\
    eq_principalPaid row == principal /\
    eq_equity row == purchasePrice * (1 + appreciationRate / 100) ^ years.
Proof.
  intros Hyears.
  destruct (calculateEquityOverTime_some purchasePrice principal rate years
              appreciationRate (Z.to_nat years - 1) ltac:(lia))
    as [row Hrow].
  exists row. split; [exact Hrow|].
  unfold calculateEquityOverTime in Hrow.
  apply equityLoop_nth in Hrow; [|lia].
  destruct Hrow as (m & Hm & ->).
  replace (1 + Z.of_nat (Z.to_nat years - 1))%Z with years in * by lia.
  apply schedule_row in Hm. destruct Hm as [_ ->].
  cbn [eq_year eq_loanBalance eq_principalPaid eq_equity am_balance].
  replace (1 + Z.of_nat (Z.to_nat (years * 12 - 1)) =? years * 12)%Z
    with true by (symmetry; apply Z.eqb_eq; lia).
  change (JS.max 0 0) with 0.
  split; [reflexivity|]. split; [reflexivity|].
  split; unfold JS.pow; ring.
Qed.

Lemma equity_final_snapshot_witness :
  (1 <= 30)%Z /\
  exists row : EquityRow,
    nth_error (calculateEquityOverTime 400000 320000 (13 # 2) 30 3) 29
    = Some row /\
    eq_loanBalance row = 0.
Proof.
  split; [lia|].
  destruct (equity_final_snapshot 400000 320000 (13 # 2) 30 3 ltac:(lia))
    as (row & Hrow & _ & Hb & _).
  exists row. split; [exact Hrow|exact Hb].
Defined.

(** X9: for a proper loan the loan balance of the snapshots lies
    between 0 and the principal and does not increase from one year to
    the next; with a non-negative price and appreciation rate the home
    value and the equity do not decrease. *)
Theorem equity_monotone
    (purchasePrice principal rate : Q) (years : Z) (appreciationRate : Q)
    (k : nat) (row1 row2 : EquityRow) :
  0 < principal -> 0 <= rate ->
  nth_error (calculateEquityOverTime purchasePrice principal rate years
                                     appreciationRate) k = Some row1 ->
  nth_error (calculateEquityOverTime purchasePrice principal rate years
                                     appreciationRate) (S k) = Some row2 ->
  0 <= eq_loanBalance row2 /\
  eq_loanBalance row2 <= eq_loanBalance row1 /\
  eq_loanBalance row1 <= principal /\
  (0 <= purchasePrice -> 0 <= appreciationRate ->
   eq_homeValue row1 <= eq_homeValue row2 /\
   eq_equity row1 <= eq_equity row2).
Proof.
  intros HP Hrate H1 H2.
  assert (Hyears : (0 < years)%Z).
  { destruct (Z.lt_ge_cases 0 years) as [H|H]; [exact H|].
    unfold calculateEquityOverTime in H1.
    replace (Z.to_nat years) with 0%nat in H1 by lia.
    destruct k; discriminate. }
  destruct (proper_loan_facts principal rate years HP Hrate Hyears)
    as (Hr & Hcover & _ & _).
  unfold calculateEquityOverTime in H1, H2.
  apply equityLoop_nth in H1; [|lia]. destruct H1 as (m1 & Hm1 & ->).
  apply equityLoop_nth in H2; [|lia]. destruct H2 as (m2 & Hm2 & ->).
  pose proof (schedule_row_balance _ _ _ _ _ HP Hrate Hyears Hm1) as Hb1.
  pose proof (schedule_row_balance _ _ _ _ _ HP Hrate Hyears Hm2) as Hb2.
  assert (Hnn : 0 <= am_balance m2).
  { apply schedule_row in Hm2. destruct Hm2 as [_ ->]. apply max_0_nonneg. }
  set (r := rate / 100 / 12) in *.
  set (M := calculateMonthlyPayment principal rate years) in *.
  pose proof (rawBalance_antitone principal r M
                (S (Z.to_nat ((1 + Z.of_nat k) * 12 - 1)))
                (S (Z.to_nat ((1 + Z.of_nat (S k)) * 12 - 1)))
                Hr (Qlt_le_weak _ _ Hcover) ltac:(lia)) as Hanti.
  destruct (rawBalance_decreasing principal r M
              (S (Z.to_nat ((1 + Z.of_nat k) * 12 - 1))) Hr
              (Qlt_le_weak _ _ Hcover)) as [Hle _].
  cbn [eq_loanBalance eq_homeValue eq_equity].
  split; [exact Hnn|]. split; [lra|]. split; [lra|].
  intros Hpp Happ.
  assert (Hq : 1 <= 1 + appreciationRate / 100).
  { assert (0 <= appreciationRate / 100)
      by (apply Qle_shift_div_l; [reflexivity|lra]).
    lra. }
  assert (Hpow : (1 + appreciationRate / 100) ^ (1 + Z.of_nat k)
                 <= (1 + appreciationRate / 100) ^ (1 + Z.of_nat (S k))).
  { apply Qpower_le_compat_l; [lia|exact Hq]. }
  unfold JS.pow. split; nra.
Qed.

Lemma equity_monotone_witness :
  (0 < 320000 /\ 0 <= 13 # 2) /\
  exists row1 row2 : EquityRow,
    nth_error (calculateEquityOverTime 400000 320000 (13 # 2) 30 3) 0
    = Some row1 /\
    nth_error (calculateEquityOverTime 400000 320000 (13 # 2) 30 3) 1
    = Some row2 /\
    eq_loanBalance row2 <= eq_loanBalance row1.
Proof.
  split; [split; [reflexivity|discriminate]|].
  destruct (calculateEquityOverTime_some 400000 320000 (13 # 2) 30 3 0
              ltac:(lia)) as [row1 H1].
  destruct (calculateEquityOverTime_some 400000 320000 (13 # 2) 30 3 1
              ltac:(lia)) as [row2 H2].
  exists row1, row2. split; [exact H1|]. split; [exact H2|].
  apply (equity_monotone 400000 320000 (13 # 2) 30 3 0 row1 row2
           eq_refl ltac:(discriminate) H1 H2).
Defined.

(** ** Investment growth, month by month *)

Lemma investMonths_growMonths (c r : Q) (n : nat) :
  forall v i : Q,
    fst (investMonths n c r v i) = growMonths n c r v.
Proof.
  induction n as [|n IH]; intros v i; [reflexivity|].
  cbn [investMonths growMonths]. apply IH.
Qed.

Lemma investMonths_invested (c r : Q) (n : nat) :
  forall v i : Q,
    snd (investMonths n c r v i) == i + inject_Z (Z.of_nat n) * c.
Proof.
  induction n as [|n IH]; intros v i.
  - cbn [investMonths snd]. change (inject_Z (Z.of_nat 0)) with 0. ring.
  - cbn [investMonths]. rewrite IH, Nat2Z.inj_succ. unfold Z.succ.
    rewrite inject_Z_plus. change (inject_Z 1) with 1. ring.
Qed.

Lemma growMonths_add (c r : Q) (a : nat) :
  forall (b : nat) (v : Q),
    growMonths (a + b) c r v = growMonths b c r (growMonths a c r v).
Proof.
  induction a as [|a IH]; intros b v; [reflexivity|].
  cbn [Nat.add growMonths]. apply IH.
Qed.

Lemma investmentLoop_nth (c r : Q) (fuel : nat) :
  forall (year : Z) (v i : Q) (k : nat) (row : InvestmentRow),
    nth_error (investmentLoop fuel year v i c r) k = Some row ->
    inv_year row = (year + Z.of_nat k)%Z /\
    inv_value row = growMonths (12 * S k) c r v /\
    inv_invested row == i + inject_Z (Z.of_nat (12 * S k)) * c /\
    inv_gains row = inv_value row - inv_invested row.
Proof.
  induction fuel as [|fuel IH]; intros year v i k row H.
  - destruct k; discriminate.
  - cbn [investmentLoop] in H.
    pose proof (investMonths_growMonths c r 12 v i) as Hv.
    pose proof (investMonths_invested c r 12 v i) as Hi.
    destruct (investMonths 12 c r v i) as [v' i'].
    cbn [fst snd] in Hv, Hi.
    destruct k as [|k].
    + cbn [nth_error] in H. injection H as <-.
      cbn [inv_year inv_value inv_invested inv_gains].
      rewrite Z.add_0_r. split; [reflexivity|]. split; [exact Hv|].
      split; [exact Hi|reflexivity].
    + cbn [nth_error] in H. apply IH in H.
      destruct H as (Hy & Hval & Hinv & Hg).
      split; [lia|]. split; [|split; [|exact Hg]].
      * rewrite Hval, Hv.
        replace (12 * S (S k))%nat with (12 + 12 * S k)%nat by lia.
        now rewrite growMonths_add.
      * rewrite Hinv, Hi.
        replace (Z.of_nat (12 * S (S k)))
          with (Z.of_nat 12 + Z.of_nat (12 * S k))%Z by lia.
        rewrite inject_Z_plus. ring.
Qed.

Lemma investmentLoop_length (c r : Q) (fuel : nat) :
  forall (year : Z) (v i : Q),
    List.length (investmentLoop fuel year v i c r) = fuel.
Proof.
  induction fuel as [|fuel IH]; intros year v i; [reflexivity|].
  cbn [investmentLoop].
  destruct (investMonths 12 c r v i) as [v' i'].
  cbn [List.length]. now rewrite IH.
Qed.

Lemma calculateInvestmentGrowth_length
    (initialAmount monthlyContribution annualReturn : Q) (years : Z) :
  List.length (calculateInvestmentGrowth initialAmount monthlyContribution
                                         annualReturn years)
  = Z.to_nat years.
Proof. apply investmentLoop_length. Qed.

Lemma calculateInvestmentGrowth_some
    (initialAmount monthlyContribution annualReturn : Q) (years : Z)
    (k : nat) :
  (k < Z.to_nat years)%nat ->
  exists row : InvestmentRow,
    nth_error (calculateInvestmentGrowth initialAmount monthlyContribution
                                         annualReturn years) k = Some row.
Proof.
  intros Hk.
  destruct (nth_error (calculateInvestmentGrowth initialAmount
                         monthlyContribution annualReturn years) k)
    as [row|] eqn:E.
  - now exists row.
  - apply nth_error_None in E.
    rewrite calculateInvestmentGrowth_length in E. lia.
Qed.

(** The future value of [n] monthly contributions made at the start of
    each month, without dividing by the rate. *)
Lemma growMonths_closed_form (c r : Q) (n : nat) :
  forall v : Q,
    growMonths n c r v * r
    == v * r * (1 + r) ^ Z.of_nat n
       + c * (1 + r) * ((1 + r) ^ Z.of_nat n - 1).
Proof.
  induction n as [|n IH]; intros v.
  - cbn [growMonths]. change ((1 + r) ^ Z.of_nat 0) with 1. ring.
  - cbn [growMonths]. rewrite IH. unfold growMonth.
    replace (Z.of_nat (S n)) with (1 + Z.of_nat n)%Z by lia.
    rewrite Qpower_plus' by lia.
    change ((1 + r) ^ 1) with (1 + r). ring.
Qed.

Lemma growMonths_zero_rate (c r : Q) (n : nat) :
  r == 0 ->
  forall v : Q, growMonths n c r v == v + inject_Z (Z.of_nat n) * c.
Proof.
  intros Hr. induction n as [|n IH]; intros v.
  - cbn [growMonths]. change (inject_Z (Z.of_nat 0)) with 0. ring.
  - cbn [growMonths]. rewrite IH. unfold growMonth.
    rewrite Nat2Z.inj_succ. unfold Z.succ. rewrite inject_Z_plus, Hr.
    change (inject_Z 1) with 1. ring.
Qed.

(** X10: the growth projection has one snapshot per year, numbered from
    1; after year y the invested amount is the initial amount plus 12y
    contributions, the value is the month-by-month balance after 12y
    months, and it obeys the annuity formula
    value * r = initial * r * q^(12y) + c * q * (q^(12y) - 1)
    with r the monthly rate and q = 1 + r. *)
Theorem investment_growth_snapshot
    (initialAmount monthlyContribution annualReturn : Q) (years : Z)
    (k : nat) (row : InvestmentRow) :
  nth_error (calculateInvestmentGrowth initialAmount monthlyContribution
                                       annualReturn years) k = Some row ->
  let r := annualReturn / 100 / 12 in
  let months := (12 * S k)%nat in
  List.length (calculateInvestmentGrowth initialAmount monthlyContribution
                                         annualReturn years)
  = Z.to_nat years /\
  inv_year row = (Z.of_nat k + 1)%Z /\
  inv_invested row
  == initialAmount + inject_Z (Z.of_nat months) * monthlyContribution /\
  inv_value row = growMonths months monthlyContribution r initialAmount /\
  inv_gains row = inv_value row - inv_invested row /\
  inv_value row * r
  == initialAmount * r * (1 + r) ^ Z.of_nat months
     + monthlyContribution * (1 + r) * ((1 + r) ^ Z.of_nat months - 1).
Proof.
  intros H r months. unfold calculateInvestmentGrowth in H. fold r in H.
  apply investmentLoop_nth in H. destruct H as (Hy & Hv & Hi & Hg).
  split; [apply calculateInvestmentGrowth_length|].
  split; [lia|]. split; [exact Hi|]. split; [exact Hv|].
  split; [exact Hg|]. rewrite Hv. apply growMonths_closed_form.
Qed.

Lemma investment_growth_snapshot_witness :
  exists row : InvestmentRow,
    nth_error (calculateInvestmentGrowth 1000 100 12 2) 1 = Some row /\
    inv_year row = 2%Z /\
    inv_invested row == 1000 + inject_Z 24 * 100.
Proof.
  destruct (calculateInvestmentGrowth_some 1000 100 12 2 1 ltac:(lia))
    as [row Hrow].
  exists row. split; [exact Hrow|].
  destruct (investment_growth_snapshot 1000 100 12 2 1 row Hrow)
    as (_ & Hy & Hi & _).
  split; [exact Hy|exact Hi].
Defined.

(** X11: at a zero return the value of every snapshot equals the
    invested amount and the gains are 0. *)
Theorem investment_growth_zero_return
    (initialAmount monthlyContribution annualReturn : Q) (years : Z)
    (k : nat) (row : InvestmentRow) :
  annualReturn == 0 ->
  nth_error (calculateInvestmentGrowth initialAmount monthlyContribution
                                       annualReturn years) k = Some row ->
  inv_value row == inv_invested row /\ inv_gains row == 0.
Proof.
  intros H0 H. unfold calculateInvestmentGrowth in H.
  apply investmentLoop_nth in H. destruct H as (_ & Hv & Hi & Hg).
  assert (Hr : annualReturn / 100 / 12 == 0) by (rewrite H0; reflexivity).
  assert (Heq : inv_value row == inv_invested row).
  { rewrite Hv, Hi. now apply growMonths_zero_rate. }
  split; [exact Heq|]. rewrite Hg, Heq. ring.
Qed.

Lemma investment_growth_zero_return_witness :
  0 == 0 /\
  exists row : InvestmentRow,
    nth_error (calculateInvestmentGrowth 1000 100 0 2) 1 = Some row /\
    inv_gains row == 0.
Proof.
  split; [reflexivity|].
  destruct (calculateInvestmentGrowth_some 1000 100 0 2 1 ltac:(lia))
    as [row Hrow].
  exists row. split; [exact Hrow|].
  apply (investment_growth_zero_return 1000 100 0 2 1 row (Qeq_refl 0) Hrow).
Defined.

(** ** What a result of the goal-seek solver means *)

(** Where the loop stops: the balance is below the goal in every month
    before, and has reached it unless the fuel ran out. *)
Lemma goalLoop_sound (c r g : Q) (fuel : nat) :
  forall (months : nat) (balance : Q),
    let m := (goalLoop fuel months balance c r g - months)%nat in
    (forall j : nat, (j < m)%nat -> growMonths j c r balance < g) /\
    ((m < fuel)%nat -> g <= growMonths m c r balance).
Proof.
  induction fuel as [|fuel IH]; intros months balance; cbn [goalLoop].
  - replace (months - months)%nat with 0%nat by lia.
    split; [intros j Hj; lia|intros H; lia].
  - destruct (JS.ltb balance g) eqn:E.
    + apply ltb_true in E.
      pose proof (goalLoop_bound c r g fuel (S months)
                    (growMonth c r balance)) as Hb.
      specialize (IH (S months) (growMonth c r balance)).
      cbv zeta in IH. destruct IH as [IH1 IH2].
      set (x := goalLoop fuel (S months) (growMonth c r balance) c r g) in *.
      replace (x - months)%nat with (S (x - S months)) by lia.
      split.
      * intros j Hj. destruct j as [|j]; [exact E|].
        cbn [growMonths]. apply IH1. lia.
      * intros Hm. cbn [growMonths]. apply IH2. lia.
    + apply ltb_false in E.
      replace (months - months)%nat with 0%nat by lia.
      split; [intros j Hj; lia|intros _; exact E].
Qed.

Lemma growMonths_nonneg_mono (c r : Q) (a : nat) :
  0 <= c -> 0 <= r ->
  forall (b : nat) (v : Q),
    0 <= v -> (a <= b)%nat ->
    0 <= growMonths a c r v /\ growMonths a c r v <= growMonths b c r v.
Proof.
  intros Hc Hr.
  assert (Hstep : forall (n : nat) (v : Q), 0 <= v ->
    0 <= growMonths n c r v /\ v <= growMonths n c r v).
  { induction n as [|n IH]; intros v Hv; cbn [growMonths]; [lra|].
    pose proof (growMonth_ge c r v Hc Hr Hv) as Hg.
    destruct (IH (growMonth c r v) ltac:(lra)) as [H1 H2]. lra. }
  intros b v Hv Hab.
  replace b with (a + (b - a))%nat by lia.
  rewrite growMonths_add.
  destruct (Hstep a v Hv) as [H1 _]. split; [exact H1|].
  apply (Hstep (b - a)%nat). exact H1.
Qed.

(** When the goal is not met and the contribution is positive the
    result is read off the month [m] at which the loop stops. *)
Lemma yearsToGoal_loop_result
    (startingAmount monthlyContribution annualReturn goalAmount : Q) :
  startingAmount < goalAmount -> 0 < monthlyContribution ->
  let r := annualReturn / 100 / 12 in
  let m :=
    goalLoop 1200 0 startingAmount monthlyContribution r goalAmount in
  calculateYearsToGoal startingAmount monthlyContribution annualReturn
                       goalAmount
  = (if (1200 <=? m)%nat then Never else Years (JS.ceil_div12 m)) /\
  (m <= 1200)%nat /\
  (forall j : nat, (j < m)%nat ->
     growMonths j monthlyContribution r startingAmount < goalAmount) /\
  ((m < 1200)%nat ->
   (0 < m)%nat /\
   goalAmount <= growMonths m monthlyContribution r startingAmount).
Proof.
  intros Hg Hc r m.
  pose proof (goalLoop_sound monthlyContribution r goalAmount 1200 0
                startingAmount) as Hs.
  cbv zeta in Hs. rewrite Nat.sub_0_r in Hs. fold m in Hs.
  destruct Hs as [Hbelow Hreach].
  pose proof (goalLoop_bound monthlyContribution r goalAmount 1200 0
                startingAmount) as Hb.
  fold m in Hb.
  split; [|split; [lia|split; [exact Hbelow|]]].
  - unfold calculateYearsToGoal. change maxMonths with 1200%nat.
    fold r m.
    replace (JS.geb startingAmount goalAmount) with false
      by (symmetry; apply geb_false; exact Hg).
    replace (JS.leb monthlyContribution 0) with false
      by (symmetry; apply leb_false; exact Hc).
    reflexivity.
  - intros Hlt. specialize (Hreach Hlt). split; [|exact Hreach].
    destruct m as [|m']; [|lia]. cbn in Hreach. lra.
Qed.

(** X12: what the result of the goal-seek solver means.  A year count
    of 0 is returned exactly when the goal is already met; a year count
    n >= 1 means that the contribution is positive, n is at most 100,
    and the month-by-month balance first reaches the goal in a month of
    year n; the sentinel means that the goal is not met and either the
    contribution is not positive or the balance stays below the goal in
    every month before month 1200. *)
Theorem years_to_goal_meaning
    (startingAmount monthlyContribution annualReturn goalAmount : Q) :
  let result :=
    calculateYearsToGoal startingAmount monthlyContribution
                         annualReturn goalAmount in
  let balanceAfter (m : nat) :=
    growMonths m monthlyContribution (annualReturn / 100 / 12)
               startingAmount in
  (result = Years 0 <-> goalAmount <= startingAmount) /\
  (forall n : nat,
     result = Years (S n) ->
     startingAmount < goalAmount /\ 0 < monthlyContribution /\
     (S n <= 100)%nat /\
     exists m : nat,
       (12 * n < m <= 12 * S n)%nat /\
       goalAmount <= balanceAfter m /\
       forall j : nat, (j < m)%nat -> balanceAfter j < goalAmount) /\
  (result = Never ->
   startingAmount < goalAmount /\
   (monthlyContribution <= 0 \/
    forall j : nat, (j < 1200)%nat -> balanceAfter j < goalAmount)).
Proof.
  intros result balanceAfter. subst result.
  destruct (Qlt_le_dec startingAmount goalAmount) as [Hg|Hg].
  - destruct (Qlt_le_dec 0 monthlyContribution) as [Hc|Hc].
    + destruct (yearsToGoal_loop_result startingAmount monthlyContribution
                  annualReturn goalAmount Hg Hc)
        as (Hres & Hcap & Hbelow & Hreach).
      cbv zeta in Hres, Hcap, Hbelow, Hreach.
      set (m := goalLoop 1200 0 startingAmount monthlyContribution
                         (annualReturn / 100 / 12) goalAmount) in *.
      pose proof (ceil_div12_spec m) as Hceil.
      rewrite Hres. destruct (Nat.leb_spec 1200 m) as [Hge|Hlt].
      * split; [split; [discriminate|lra]|].
        split; [intros n [=]|]. intros _. split; [exact Hg|]. right.
        intros j Hj. apply Hbelow. lia.
      * destruct (Hreach Hlt) as [Hpos Hgoal].
        split; [split; [intros [= H]; lia|lra]|].
        split; [|discriminate].
        intros n [= Hn]. split; [exact Hg|]. split; [exact Hc|].
        split; [lia|]. exists m. split; [lia|].
        split; [exact Hgoal|exact Hbelow].
    + unfold calculateYearsToGoal.
      replace (JS.geb startingAmount goalAmount) with false
        by (symmetry; apply geb_false; exact Hg).
      replace (JS.leb monthlyContribution 0) with true
        by (symmetry; apply leb_true; exact Hc).
      replace (JS.ltb startingAmount goalAmount) with true
        by (symmetry; apply ltb_true; exact Hg).
      cbn [andb].
      split; [split; [discriminate|lra]|].
      split; [intros n [=]|]. intros _. split; [exact Hg|now left].
  - unfold calculateYearsToGoal.
    replace (JS.geb startingAmount goalAmount) with true
      by (symmetry; apply geb_true; exact Hg).
    split; [tauto|]. split; [intros n [=]|discriminate].
Qed.

Lemma years_to_goal_meaning_witness :
  calculateYearsToGoal 0 100 0 1000 = Years 1 /\
  0 < 100.
Proof.
  assert (H : calculateYearsToGoal 0 100 0 1000 = Years 1)
    by (vm_compute; reflexivity).
  split; [exact H|].
  pose proof (years_to_goal_meaning 0 100 0 1000) as Hm.
  cbv zeta in Hm. destruct Hm as (_ & Hm & _).
  destruct (Hm 0%nat H) as (_ & Hc & _). exact Hc.
Defined.

(** X13: the goal-seek solver agrees with the growth projector.  When
    it returns n >= 1 years for a non-negative starting amount and
    return, the projected value at the end of year n has reached the
    goal and, if n >= 2, the value at the end of year n - 1 has not. *)
Theorem years_to_goal_matches_growth
    (startingAmount monthlyContribution annualReturn goalAmount : Q)
    (n : nat) (years : Z) :
  0 <= startingAmount -> 0 <= annualReturn ->
  calculateYearsToGoal startingAmount monthlyContribution annualReturn
                       goalAmount = Years (S n) ->
  let rows :=
    calculateInvestmentGrowth startingAmount monthlyContribution
                              annualReturn years in
  (forall row : InvestmentRow,
     nth_error rows n = Some row -> goalAmount <= inv_value row) /\
  (forall (n' : nat) (row : InvestmentRow),
     n = S n' -> nth_error rows n' = Some row -> inv_value row < goalAmount).
Proof.
  intros Hs Hret Hres rows.
  assert (Hg : startingAmount < goalAmount).
  { destruct (Qlt_le_dec startingAmount goalAmount) as [H|H]; [exact H|].
    unfold calculateYearsToGoal in Hres.
    replace (JS.geb startingAmount goalAmount) with true in Hres
      by (symmetry; apply geb_true; exact H).
    discriminate. }
  assert (Hc : 0 < monthlyContribution).
  { destruct (Qlt_le_dec 0 monthlyContribution) as [H|H]; [exact H|].
    unfold calculateYearsToGoal in Hres.
    replace (JS.geb startingAmount goalAmount) with false in Hres
      by (symmetry; apply geb_false; exact Hg).
    replace (JS.leb monthlyContribution 0) with true in Hres
      by (symmetry; apply leb_true; exact H).
    replace (JS.ltb startingAmount goalAmount) with true in Hres
      by (symmetry; apply ltb_true; exact Hg).
    discriminate. }
  destruct (yearsToGoal_loop_result startingAmount monthlyContribution
              annualReturn goalAmount Hg Hc)
    as (Hloop & _ & Hbelow & Hreach0).
  cbv zeta in Hloop, Hbelow, Hreach0.
  set (m := goalLoop 1200 0 startingAmount monthlyContribution
                     (annualReturn / 100 / 12) goalAmount) in *.
  pose proof (ceil_div12_spec m) as Hceil.
  rewrite Hloop in Hres.
  destruct (Nat.leb_spec 1200 m) as [Hge|Hlt]; [discriminate|].
  injection Hres as Hn.
  destruct (Hreach0 Hlt) as [_ Hreach].
  assert (Hrange : (12 * n < m <= 12 * S n)%nat) by lia.
  pose proof (monthlyRate_nonneg annualReturn Hret) as Hr.
  split.
  - intros row Hrow. subst rows. unfold calculateInvestmentGrowth in Hrow.
    apply investmentLoop_nth in Hrow. destruct Hrow as (_ & Hv & _).
    rewrite Hv.
    destruct (growMonths_nonneg_mono monthlyContribution
                (annualReturn / 100 / 12) m (Qlt_le_weak _ _ Hc) Hr
                (12 * S n) startingAmount Hs ltac:(lia)) as [_ Hmono].
    lra.
  - intros n' row -> Hrow. subst rows.
    unfold calculateInvestmentGrowth in Hrow.
    apply investmentLoop_nth in Hrow. destruct Hrow as (_ & Hv & _).
    rewrite Hv. apply Hbelow. lia.
Qed.

Lemma years_to_goal_matches_growth_witness :
  (0 <= 0 /\ 0 <= 0 /\ calculateYearsToGoal 0 100 0 1000 = Years 1) /\
  forall row : InvestmentRow,
    nth_error (calculateInvestmentGrowth 0 100 0 5) 0 = Some row ->
    1000 <= inv_value row.
Proof.
  assert (H : calculateYearsToGoal 0 100 0 1000 = Years 1)
    by (vm_compute; reflexivity).
  split; [repeat split; try discriminate; exact H|].
  apply (years_to_goal_matches_growth 0 100 0 1000 0 5
           (Qle_refl 0) (Qle_refl 0) H).
Defined.

(** ** Swapping the two scenarios of a comparison *)

Lemma crossedOver_swap (prevA prevB curA curB : Q) :
  crossedOver prevB prevA curB curA = crossedOver prevA prevB curA curB.
Proof. unfold crossedOver, JS.ltb, JS.gtb, JS.geb, JS.leb. apply orb_comm. Qed.

Lemma breakEvenLoop_swap (dataA dataB : list NetWorthRow) (fuel : nat) :
  forall i : nat,
    breakEvenLoop fuel i dataB dataA = breakEvenLoop fuel i dataA dataB.
Proof.
  induction fuel as [|fuel IH]; intros i; [reflexivity|].
  cbn [breakEvenLoop]. destruct i as [|j]; [apply IH|].
  rewrite crossedOver_swap, IH. reflexivity.
Qed.

(** X14: swapping the two scenarios leaves the break-even year and the
    difference unchanged; it changes the winner when the final net
    worths differ, and declares B both ways when they are equal. *)
Theorem determineWinner_swap
    (resultsA resultsB : ScenarioResults) (timeframe : Z) :
  let w := determineWinner resultsA resultsB timeframe in
  let w' := determineWinner resultsB resultsA timeframe in
  breakEvenYear w' = breakEvenYear w /\
  difference w' == difference w /\
  (~ finalNetWorth resultsA == finalNetWorth resultsB ->
   winner w' <> winner w) /\
  (finalNetWorth resultsA == finalNetWorth resultsB ->
   winner w = B /\ winner w' = B).
Proof.
  cbn [determineWinner breakEvenYear difference winner].
  split; [apply breakEvenLoop_swap|]. split.
  - unfold JS.abs.
    setoid_replace (finalNetWorth resultsB - finalNetWorth resultsA)
      with (- (finalNetWorth resultsA - finalNetWorth resultsB)) by ring.
    apply Qabs_opp.
  - destruct (JS.gtb (finalNetWorth resultsA - finalNetWorth resultsB) 0)
      eqn:E1;
    destruct (JS.gtb (finalNetWorth resultsB - finalNetWorth resultsA) 0)
      eqn:E2;
    try apply gtb_true in E1; try apply gtb_true in E2;
    try apply gtb_false in E1; try apply gtb_false in E2;
    (split; [intros Hne; try discriminate; exfalso; try lra;
             apply Hne; lra
            |intros Heq; split; try reflexivity; exfalso; lra]).
Qed.

Lemma determineWinner_swap_witness :
  ~ finalNetWorth crossingA == finalNetWorth crossingB /\
  winner (determineWinner crossingB crossingA 10)
  <> winner (determineWinner crossingA crossingB 10).
Proof.
  assert (H : ~ finalNetWorth crossingA == finalNetWorth crossingB)
    by (intros H; discriminate H).
  split; [exact H|].
  apply (determineWinner_swap crossingA crossingB 10). exact H.
Defined.

(** ** The scenario results of the comprehensive comparison *)

Lemma netWorthMap_length (portfolioData : list InvestmentRow)
    (equityData : list EquityRow) :
  forall index : nat,
    List.length (netWorthMap index equityData portfolioData)
    = List.length equityData.
Proof.
  induction equityData as [|e rest IH]; intros index; [reflexivity|].
  cbn [netWorthMap List.length]. now rewrite IH.
Qed.

Lemma netWorthMap_nth (portfolioData : list InvestmentRow)
    (equityData : list EquityRow) :
  forall (index k : nat) (row : NetWorthRow),
    nth_error (netWorthMap index equityData portfolioData) k = Some row ->
    exists e : EquityRow,
      nth_error equityData k = Some e /\
      row = mkNetWorthRow
              (eq_year e) (eq_equity e)
              (match nth_error portfolioData (index + k) with
               | Some p => inv_value p
               | None => 0
               end)
              (eq_equity e
               + match nth_error portfolioData (index + k) with
                 | Some p => inv_value p
                 | None => 0
                 end).
Proof.
  induction equityData as [|e rest IH]; intros index k row H.
  - destruct k; discriminate.
  - cbn [netWorthMap] in H. destruct k as [|k].
    + cbn [nth_error] in H. injection H as <-. exists e.
      rewrite Nat.add_0_r. split; reflexivity.
    + cbn [nth_error] in H. apply IH in H.
      replace (index + S k)%nat with (S index + k)%nat by lia. exact H.
Qed.

Lemma netWorthAt_beyond (data : list NetWorthRow) (i : nat) :
  (List.length data <= i)%nat -> netWorthAt data i = 0.
Proof.
  intros H. unfold netWorthAt.
  now replace (nth_error data i) with (@None NetWorthRow)
    by (symmetry; apply nth_error_None; exact H).
Qed.

Lemma calculateScenarioFinancials_length (scenario : Scenario)
    (otherExpenses savingsRate investmentReturn appreciationRate : Q)
    (timeframe : Z) :
  List.length
    (netWorthData
       (calculateScenarioFinancials scenario otherExpenses savingsRate
          investmentReturn appreciationRate timeframe))
  = Z.to_nat (Z.min timeframe (loanTerm (propertyInfo scenario))).
Proof.
  unfold calculateScenarioFinancials. cbn [netWorthData].
  rewrite netWorthMap_length. apply calculateEquityOverTime_length.
Qed.

Lemma calculateScenarioFinancials_beyond_term (scenario : Scenario)
    (otherExpenses savingsRate investmentReturn appreciationRate : Q)
    (timeframe : Z) :
  (loanTerm (propertyInfo scenario) < timeframe)%Z ->
  finalNetWorth
    (calculateScenarioFinancials scenario otherExpenses savingsRate
       investmentReturn appreciationRate timeframe) = 0.
Proof.
  intros Hterm.
  pose proof (calculateScenarioFinancials_length scenario otherExpenses
                savingsRate investmentReturn appreciationRate timeframe)
    as Hlen.
  unfold calculateScenarioFinancials in *.
  cbn [finalNetWorth netWorthData] in *.
  destruct (timeframe - 1 <? 0)%Z; [reflexivity|].
  apply netWorthAt_beyond. rewrite Hlen. lia.
Qed.

(** X15: when the timeframe of the comprehensive comparison exceeds a
    scenario's loan term, the net-worth series of that scenario stops
    at the loan term and its final net worth is 0; when it exceeds both
    loan terms the comparison declares B with a difference of 0. *)
Theorem comparison_beyond_loan_term (scenarioA scenarioB : Scenario)
    (otherExpenses savingsRate investmentReturn appreciationRate : Q)
    (timeframe : Z) :
  let results scenario :=
    calculateScenarioFinancials scenario otherExpenses savingsRate
                                investmentReturn appreciationRate timeframe in
  ((loanTerm (propertyInfo scenarioA) < timeframe)%Z ->
   List.length (netWorthData (results scenarioA))
   = Z.to_nat (loanTerm (propertyInfo scenarioA)) /\
   finalNetWorth (results scenarioA) = 0) /\
  ((loanTerm (propertyInfo scenarioA) < timeframe)%Z ->
   (loanTerm (propertyInfo scenarioB) < timeframe)%Z ->
   let w :=
     runComprehensiveComparison scenarioA scenarioB otherExpenses
       savingsRate investmentReturn appreciationRate timeframe in
   winner w = B /\ difference w == 0).
Proof.
  intros results. split.
  - intros HA. subst results. cbv beta.
    rewrite calculateScenarioFinancials_length.
    split; [f_equal; lia|].
    now apply calculateScenarioFinancials_beyond_term.
  - intros HA HB. unfold runComprehensiveComparison.
    cbn [determineWinner winner difference].
    rewrite !calculateScenarioFinancials_beyond_term by assumption.
    split; reflexivity.
Qed.

Lemma comparison_beyond_loan_term_witness :
  (loanTerm (propertyInfo exampleScenario) < 40)%Z /\
  winner (runComprehensiveComparison exampleScenario exampleScenario
            2500 50 8 3 40) = B.
Proof.
  split; [cbn; lia|].
  apply (comparison_beyond_loan_term exampleScenario exampleScenario
           2500 50 8 3 40); cbn; lia.
Defined.

(** X16: every row of a scenario's net-worth series pairs the equity
    snapshot and the portfolio snapshot of the same year: its net worth
    is their sum, the portfolio is the month-by-month growth of the
    clamped starting portfolio under the clamped monthly investment,
    and it is non-negative when the return is non-negative. *)
Theorem scenario_net_worth_rows (scenario : Scenario)
    (otherExpenses savingsRate investmentReturn appreciationRate : Q)
    (timeframe : Z) (k : nat) (row : NetWorthRow) :
  nth_error
    (netWorthData
       (calculateScenarioFinancials scenario otherExpenses savingsRate
          investmentReturn appreciationRate timeframe)) k = Some row ->
  let monthlyDiscretionary :=
    annualIncome (incomeInfo scenario) / 12
    - (totalMonthlyCost (calculations scenario) + otherExpenses) in
  let monthlyToInvestments :=
    if JS.gtb monthlyDiscretionary 0
    then (monthlyDiscretionary * savingsRate) / 100 else 0 in
  let startingPortfolio :=
    JS.max 0 (currentPortfolio (incomeInfo scenario)
              - downPaymentAmount (propertyInfo scenario)) in
  let start :=
    if JS.gtb startingPortfolio 0 then startingPortfolio else 0 in
  let contribution :=
    if JS.gtb monthlyToInvestments 0 then monthlyToInvestments else 0 in
  nw_year row = (Z.of_nat k + 1)%Z /\
  totalNetWorth row = nw_equity row + nw_portfolio row /\
  (exists e : EquityRow,
     nth_error
       (calculateEquityOverTime
          (purchasePrice (propertyInfo scenario))
          (loanAmount (calculations scenario))
          (interestRate (propertyInfo scenario))
          (Z.min timeframe (loanTerm (propertyInfo scenario)))
          appreciationRate) k = Some e /\
     nw_equity row = eq_equity e) /\
  nw_portfolio row
  = growMonths (12 * S k) contribution (investmentReturn / 100 / 12) start /\
  (0 <= investmentReturn -> 0 <= nw_portfolio row).
Proof.
  intros H monthlyDiscretionary monthlyToInvestments startingPortfolio
         start contribution.
  assert (Hlen : (k < Z.to_nat (Z.min timeframe
                                  (loanTerm (propertyInfo scenario))))%nat).
  { rewrite <- (calculateScenarioFinancials_length scenario otherExpenses
                  savingsRate investmentReturn appreciationRate timeframe).
    apply nth_error_Some. congruence. }
  unfold calculateScenarioFinancials in H. cbn [netWorthData] in H.
  fold monthlyDiscretionary monthlyToInvestments startingPortfolio in H.
  fold start contribution in H.
  apply netWorthMap_nth in H. destruct H as (e & He & Hrow).
  cbn [Nat.add] in Hrow.
  destruct (calculateInvestmentGrowth_some start contribution
              investmentReturn timeframe k ltac:(lia)) as [p Hp].
  rewrite Hp in Hrow.
  pose proof He as Hy. unfold calculateEquityOverTime in Hy.
  apply equityLoop_nth in Hy; [|lia]. destruct Hy as (m & _ & Hy).
  unfold calculateInvestmentGrowth in Hp.
  apply investmentLoop_nth in Hp. destruct Hp as (_ & Hv & _).
  assert (Hstart : 0 <= start).
  { subst start. destruct (JS.gtb startingPortfolio 0) eqn:E; [|lra].
    apply gtb_true in E. lra. }
  assert (Hcontribution : 0 <= contribution).
  { subst contribution.
    destruct (JS.gtb monthlyToInvestments 0) eqn:E; [|lra].
    apply gtb_true in E. lra. }
  rewrite Hrow. cbn [nw_year nw_equity nw_portfolio totalNetWorth].
  split; [rewrite Hy; cbn [eq_year]; lia|]. split; [reflexivity|].
  split; [exists e; split; [exact He|reflexivity]|].
  split; [exact Hv|]. intros Hret. rewrite Hv.
  apply (growMonths_nonneg_mono contribution (investmentReturn / 100 / 12)
           (12 * S k) Hcontribution (monthlyRate_nonneg _ Hret)
           (12 * S k) start Hstart (Nat.le_refl _)).
Qed.

Lemma scenario_net_worth_rows_witness :
  exists row : NetWorthRow,
    nth_error
      (netWorthData
         (calculateScenarioFinancials exampleScenario 2500 50 8 3 10)) 4
    = Some row /\
    nw_year row = 5%Z /\
    totalNetWorth row = nw_equity row + nw_portfolio row.
Proof.
  destruct (nth_error
              (netWorthData
                 (calculateScenarioFinancials exampleScenario 2500 50 8 3 10))
              4) as [row|] eqn:E.
  - exists row. split; [reflexivity|].
    destruct (scenario_net_worth_rows exampleScenario 2500 50 8 3 10 4 row E)
      as (Hy & Hsum & _).
    split; [exact Hy|exact Hsum].
  - exfalso. apply nth_error_None in E.
    rewrite calculateScenarioFinancials_length in E. cbn in E. lia.
Defined.

(** ** Investing the portfolio against building equity *)

Lemma crossoverLoop_Some (es : list EquityRow) (vs : list InvestmentRow)
    (fuel : nat) :
  forall (i : nat) (y : Z),
    (i + fuel <= List.length es)%nat -> (i + fuel <= List.length vs)%nat ->
    (crossoverLoop fuel i es vs = Some y <->
     exists k : nat,
       y = (Z.of_nat k + 1)%Z /\ (i <= k < i + fuel)%nat /\
       equityExceeds es vs k /\
       forall j : nat, (i <= j < k)%nat -> ~ equityExceeds es vs j).
Proof.
  induction fuel as [|fuel IH]; intros i y Hes Hvs.
  - cbn. split; [discriminate|]. intros (k & _ & Hk & _). lia.
  - cbn [crossoverLoop].
    destruct (nth_error es i) as [e|] eqn:Ee;
      [|apply nth_error_None in Ee; lia].
    destruct (nth_error vs i) as [v|] eqn:Ev;
      [|apply nth_error_None in Ev; lia].
    destruct (JS.gtb (eq_equity e) (inv_value v)) eqn:E.
    + apply gtb_true in E.
      assert (Hex : equityExceeds es vs i) by (exists e, v; auto).
      split.
      * intros [= <-]. exists i. repeat split; try lia; auto.
      * intros (k & -> & Hk & _ & Hfirst).
        destruct (Nat.eq_dec k i) as [->|Hne]; [reflexivity|].
        exfalso. apply (Hfirst i); [lia|exact Hex].
    + apply gtb_false in E.
      assert (Hno : ~ equityExceeds es vs i).
      { intros (e' & v' & He' & Hv' & Hlt).
        rewrite Ee in He'. rewrite Ev in Hv'.
        injection He' as <-. injection Hv' as <-. lra. }
      rewrite IH by lia. split.
      * intros (k & -> & Hk & Hex & Hfirst).
        exists k. repeat split; try lia; auto.
        intros j Hj. destruct (Nat.eq_dec j i) as [->|Hne]; auto.
        apply Hfirst. lia.
      * intros (k & -> & Hk & Hex & Hfirst).
        assert (k <> i) by (intros ->; contradiction).
        exists k. repeat split; try lia; auto.
        intros j Hj. apply Hfirst. lia.
Qed.

Lemma equityExceeds_in_range (es : list EquityRow)
    (vs : list InvestmentRow) (k : nat) :
  equityExceeds es vs k -> (k < List.length es)%nat.
Proof.
  intros (e & _ & He & _). apply nth_error_Some. congruence.
Qed.

(** X17: the comparison projects the portfolio over as many years as
    the equity schedule has entries, and its crossover year is the
    first year in which the equity exceeds the investment value; no
    crossover year is set exactly when the equity never exceeds it. *)
Theorem investment_vs_equity_crossover (portfolioAmount : Q)
    (equitySchedule : list EquityRow) (investmentReturn : Q) :
  let c :=
    compareInvestmentVsEquity portfolioAmount equitySchedule
                              investmentReturn in
  List.length (cmp_investment c) = List.length equitySchedule /\
  (forall y : Z,
     cmp_crossoverYear c = Some y <->
     exists k : nat,
       y = (Z.of_nat k + 1)%Z /\
       equityExceeds equitySchedule (cmp_investment c) k /\
       forall j : nat, (j < k)%nat ->
         ~ equityExceeds equitySchedule (cmp_investment c) j) /\
  (cmp_crossoverYear c = None <->
   forall k : nat, ~ equityExceeds equitySchedule (cmp_investment c) k).
Proof.
  intros c. subst c.
  cbn [compareInvestmentVsEquity cmp_investment cmp_crossoverYear].
  set (vs := calculateInvestmentGrowth portfolioAmount 0 investmentReturn
               (Z.of_nat (List.length equitySchedule))).
  assert (Hlen : List.length vs = List.length equitySchedule).
  { subst vs. rewrite calculateInvestmentGrowth_length. lia. }
  split; [exact Hlen|].
  assert (Hsome : forall y : Z,
    crossoverLoop (List.length equitySchedule) 0 equitySchedule vs = Some y
    <-> exists k : nat,
          y = (Z.of_nat k + 1)%Z /\ equityExceeds equitySchedule vs k /\
          forall j : nat, (j < k)%nat -> ~ equityExceeds equitySchedule vs j).
  { intros y. rewrite crossoverLoop_Some by lia. split.
    - intros (k & -> & Hk & Hex & Hfirst). exists k.
      split; [reflexivity|]. split; [exact Hex|].
      intros j Hj. apply Hfirst. lia.
    - intros (k & -> & Hex & Hfirst). exists k.
      pose proof (equityExceeds_in_range _ _ _ Hex).
      repeat split; try lia; auto. intros j Hj. apply Hfirst. lia. }
  split; [exact Hsome|]. split.
  - intros Hnone k Hex.
    assert (Hwf : forall n : nat,
      (forall j : nat, (j < n)%nat -> ~ equityExceeds equitySchedule vs j)).
    { induction n as [|n IHn]; intros j Hj; [lia|].
      destruct (Nat.eq_dec j n) as [->|Hne]; [|apply IHn; lia].
      intros Hexn.
      assert (Hy : crossoverLoop (List.length equitySchedule) 0
                     equitySchedule vs = Some (Z.of_nat n + 1)%Z).
      { apply Hsome. exists n. repeat split; auto. }
      congruence. }
    exact (Hwf (S k) k (Nat.lt_succ_diag_r k) Hex).
  - intros Hall.
    destruct (crossoverLoop (List.length equitySchedule) 0 equitySchedule vs)
      as [y|] eqn:E; [|reflexivity].
    destruct (proj1 (Hsome y) eq_refl) as (k & _ & Hex & _).
    exfalso. exact (Hall k Hex).
Qed.

Lemma investment_vs_equity_crossover_witness :
  cmp_crossoverYear (compareInvestmentVsEquity 20000 twoYearEquity 12)
  = Some 2%Z /\
  List.length (cmp_investment
                 (compareInvestmentVsEquity 20000 twoYearEquity 12)) = 2%nat /\
  exists k : nat,
    2%Z = (Z.of_nat k + 1)%Z /\
    equityExceeds twoYearEquity
      (cmp_investment (compareInvestmentVsEquity 20000 twoYearEquity 12)) k /\
    forall j : nat, (j < k)%nat ->
      ~ equityExceeds twoYearEquity
          (cmp_investment (compareInvestmentVsEquity 20000 twoYearEquity 12))
          j.
Proof.
  assert (H : cmp_crossoverYear
                (compareInvestmentVsEquity 20000 twoYearEquity 12)
              = Some 2%Z) by (vm_compute; reflexivity).
  pose proof (investment_vs_equity_crossover 20000 twoYearEquity 12) as T.
  cbv zeta in T. destruct T as (Tlen & Tsome & _).
  split; [exact H|]. split; [exact Tlen|].
  exact (proj1 (Tsome 2%Z) H).
Defined.

(** ** Comparing two house prices *)

Lemma combinedWealthLoop_length (ce : list EquityRow)
    (inv : list InvestmentRow) (fuel : nat) :
  forall i : nat, List.length (combinedWealthLoop fuel i ce inv) = fuel.
Proof.
  induction fuel as [|fuel IH]; intros i; [reflexivity|].
  cbn [combinedWealthLoop List.length]. now rewrite IH.
Qed.

Lemma combinedWealthLoop_nth (ce : list EquityRow)
    (inv : list InvestmentRow) (fuel : nat) :
  forall (i k : nat) (row : WealthRow),
    nth_error (combinedWealthLoop fuel i ce inv) k = Some row ->
    row = mkWealthRow (Z.of_nat (i + k) + 1)
                      (equityAtIndex ce (i + k)) (valueAtIndex inv (i + k))
                      (equityAtIndex ce (i + k) + valueAtIndex inv (i + k)).
Proof.
  induction fuel as [|fuel IH]; intros i k row H.
  - destruct k; discriminate.
  - cbn [combinedWealthLoop] in H. destruct k as [|k].
    + cbn [nth_error] in H. injection H as <-.
      now rewrite Nat.add_0_r.
    + cbn [nth_error] in H. apply IH in H.
      now replace (i + S k)%nat with (S i + k)%nat by lia.
Qed.

Lemma equityAtIndex_beyond (equityData : list EquityRow) (i : nat) :
  (List.length equityData <= i)%nat -> equityAtIndex equityData i = 0.
Proof.
  intros H. unfold equityAtIndex.
  now replace (nth_error equityData i) with (@None EquityRow)
    by (symmetry; apply nth_error_None; exact H).
Qed.

(** X18: the combined wealth of the cheaper strategy has one row per
    year of the timeframe, numbered from 1, each adding the cheaper
    house's equity and the invested savings; for years after the
    cheaper house's loan term the equity counted is 0. *)
Theorem house_comparison_wealth_rows (expensiveHouse cheaperHouse : House)
    (investmentReturn appreciationRate : Q) (years : Z) :
  let c :=
    compareHousePrices expensiveHouse cheaperHouse investmentReturn
                       appreciationRate years in
  List.length (cheaperHouseWealth c) = Z.to_nat years /\
  List.length (expensiveHouseWealth c)
  = Z.to_nat (Z.min years (h_term expensiveHouse)) /\
  forall (k : nat) (row : WealthRow),
    nth_error (cheaperHouseWealth c) k = Some row ->
    w_year row = (Z.of_nat k + 1)%Z /\
    w_totalWealth row = w_equity row + w_investmentValue row /\
    ((h_term cheaperHouse <= Z.of_nat k)%Z -> w_equity row = 0).
Proof.
  intros c. subst c.
  cbn [compareHousePrices cheaperHouseWealth expensiveHouseWealth].
  split; [apply combinedWealthLoop_length|].
  split; [apply calculateEquityOverTime_length|].
  intros k row H.
  assert (Hk : (k < Z.to_nat years)%nat).
  { apply (f_equal (fun o => match o with Some _ => true | None => false end))
      in H.
    destruct (Nat.lt_ge_cases k (Z.to_nat years)) as [Hlt|Hge]; [exact Hlt|].
    rewrite (proj2 (nth_error_None _ _)) in H; [discriminate|].
    rewrite combinedWealthLoop_length. exact Hge. }
  apply combinedWealthLoop_nth in H. cbn [Nat.add] in H. rewrite H.
  cbn [w_year w_totalWealth w_equity w_investmentValue].
  split; [reflexivity|]. split; [reflexivity|].
  intros Hterm. apply equityAtIndex_beyond.
  rewrite calculateEquityOverTime_length. lia.
Qed.

Lemma house_comparison_wealth_rows_witness :
  exists row : WealthRow,
    nth_error
      (cheaperHouseWealth
         (compareHousePrices
            (mkHouse 500000 20 (13 # 2) 30 400 150 0)
            (mkHouse 300000 20 (13 # 2) 15 250 150 0) 8 3 20)) 17
    = Some row /\
    w_year row = 18%Z /\ w_equity row = 0.
Proof.
  destruct (house_comparison_wealth_rows
              (mkHouse 500000 20 (13 # 2) 30 400 150 0)
              (mkHouse 300000 20 (13 # 2) 15 250 150 0) 8 3 20)
    as (Hlen & _ & Hrows).
  destruct (nth_error
              (cheaperHouseWealth
                 (compareHousePrices
                    (mkHouse 500000 20 (13 # 2) 30 400 150 0)
                    (mkHouse 300000 20 (13 # 2) 15 250 150 0) 8 3 20)) 17)
    as [row|] eqn:E.
  - exists row. split; [reflexivity|].
    destruct (Hrows 17%nat row E) as (Hy & _ & H0).
    split; [exact Hy|]. apply H0. cbn. lia.
  - exfalso. apply nth_error_None in E. rewrite Hlen in E. lia.
Defined.

Lemma houseBreakEvenLoop_Some (ee : list EquityRow) (cw : list WealthRow)
    (fuel : nat) :
  forall (i : nat) (y : Z),
    houseBreakEvenLoop fuel i ee cw = Some y <->
    exists k : nat,
      y = (Z.of_nat k + 1)%Z /\ (i <= k < i + fuel)%nat /\
      cheaperAhead ee cw k /\
      forall j : nat, (i <= j < k)%nat -> ~ cheaperAhead ee cw j.
Proof.
  induction fuel as [|fuel IH]; intros i y.
  - cbn. split; [discriminate|]. intros (k & _ & Hk & _). lia.
  - cbn [houseBreakEvenLoop].
    destruct (JS.gtb (wealthAtIndex cw i) (equityAtIndex ee i)) eqn:E.
    + apply gtb_true in E. split.
      * intros [= <-]. exists i. repeat split; try lia; auto.
      * intros (k & -> & Hk & _ & Hfirst).
        destruct (Nat.eq_dec k i) as [->|Hne]; [reflexivity|].
        exfalso. apply (Hfirst i); [lia|exact E].
    + apply gtb_false in E.
      assert (Hno : ~ cheaperAhead ee cw i) by (unfold cheaperAhead; lra).
      rewrite IH. split.
      * intros (k & -> & Hk & Hex & Hfirst).
        exists k. repeat split; try lia; auto.
        intros j Hj. destruct (Nat.eq_dec j i) as [->|Hne]; auto.
        apply Hfirst. lia.
      * intros (k & -> & Hk & Hex & Hfirst).
        assert (k <> i) by (intros ->; contradiction).
        exists k. repeat split; try lia; auto.
        intros j Hj. apply Hfirst. lia.
Qed.

Lemma lastOr0_beyond {T : Type} (field : T -> Q) (l : list T) (years : Z) :
  (Z.of_nat (List.length l) < years)%Z -> lastOr0 field l years = 0.
Proof.
  intros H. unfold lastOr0.
  destruct (years - 1 <? 0)%Z; [reflexivity|].
  now replace (nth_error l (Z.to_nat (years - 1))) with (@None T)
    by (symmetry; apply nth_error_None; lia).
Qed.

(** X19: the house comparison declares the cheaper strategy exactly
    when its final wealth is strictly larger (a tie goes to the
    expensive house), reports the absolute difference, and its
    break-even year is the first year of the timeframe in which the
    cheaper strategy is strictly wealthier; when the timeframe exceeds
    the expensive house's loan term, the expensive house's final wealth
    is counted as 0. *)
Theorem house_comparison_decision (expensiveHouse cheaperHouse : House)
    (investmentReturn appreciationRate : Q) (years : Z) :
  let c :=
    compareHousePrices expensiveHouse cheaperHouse investmentReturn
                       appreciationRate years in
  (hc_winner c = cheaper <->
   finalExpensiveWealth c < finalCheaperWealth c) /\
  (finalCheaperWealth c <= finalExpensiveWealth c ->
   hc_winner c = expensive) /\
  wealthDifference c
  == Qabs (finalExpensiveWealth c - finalCheaperWealth c) /\
  (forall y : Z,
     hc_breakEvenYear c = Some y <->
     exists k : nat,
       y = (Z.of_nat k + 1)%Z /\ (Z.of_nat k < years)%Z /\
       cheaperAhead (expensiveHouseWealth c) (cheaperHouseWealth c) k /\
       forall j : nat, (j < k)%nat ->
         ~ cheaperAhead (expensiveHouseWealth c) (cheaperHouseWealth c) j) /\
  ((0 <= h_term expensiveHouse < years)%Z -> finalExpensiveWealth c = 0).
Proof.
  intros c. subst c.
  cbn [compareHousePrices hc_winner finalExpensiveWealth finalCheaperWealth
       wealthDifference hc_breakEvenYear expensiveHouseWealth
       cheaperHouseWealth].
  match goal with
  | |- context [JS.gtb ?a ?b] => destruct (JS.gtb a b) eqn:E
  end.
  - apply gtb_true in E.
    split; [split; [intros _; exact E|reflexivity]|].
    split; [intros Hle; lra|]. split; [reflexivity|]. split.
    + intros y. rewrite houseBreakEvenLoop_Some. split.
      * intros (k & -> & Hk & Ha & Hfirst). exists k.
        repeat split; try lia; auto. intros j Hj. apply Hfirst. lia.
      * intros (k & -> & Hk & Ha & Hfirst). exists k.
        repeat split; try lia; auto. intros j Hj. apply Hfirst. lia.
    + intros Hterm. apply lastOr0_beyond.
      rewrite calculateEquityOverTime_length. lia.
  - apply gtb_false in E.
    split; [split; [discriminate|intros Hlt; lra]|].
    split; [reflexivity|]. split; [reflexivity|]. split.
    + intros y. rewrite houseBreakEvenLoop_Some. split.
      * intros (k & -> & Hk & Ha & Hfirst). exists k.
        repeat split; try lia; auto. intros j Hj. apply Hfirst. lia.
      * intros (k & -> & Hk & Ha & Hfirst). exists k.
        repeat split; try lia; auto. intros j Hj. apply Hfirst. lia.
    + intros Hterm. apply lastOr0_beyond.
      rewrite calculateEquityOverTime_length. lia.
Qed.

Lemma house_comparison_decision_witness :
  (0 <= 15 < 20)%Z /\
  finalExpensiveWealth
    (compareHousePrices
       (mkHouse 500000 20 (13 # 2) 15 400 150 0)
       (mkHouse 300000 20 (13 # 2) 30 250 150 0) 8 3 20) = 0.
Proof.
  split; [lia|].
  apply (house_comparison_decision
           (mkHouse 500000 20 (13 # 2) 15 400 150 0)
           (mkHouse 300000 20 (13 # 2) 30 250 150 0) 8 3 20).
  cbn. lia.
Defined.

(** ** Buying against renting *)

Section RentAgainstBuy.

Variable incomeAdjustments : list IncomeAdjustment.
Variables monthlyHousing rentIncrease : Q.
Variables annualRaise baseExpenses savingsRate : Q.
Variable lifeEvents : list LifeEvent.
Variable investmentReturn : Q.
Variable equityData : list EquityRow.

Local Abbreviation buyBody :=
  (yearBody incomeAdjustments monthlyHousing annualRaise baseExpenses
            savingsRate lifeEvents investmentReturn equityData).
Local Abbreviation buyLoop :=
  (yearLoop incomeAdjustments monthlyHousing annualRaise baseExpenses
            savingsRate lifeEvents investmentReturn equityData).
Local Abbreviation rBody :=
  (rentBody incomeAdjustments rentIncrease annualRaise baseExpenses
            savingsRate lifeEvents investmentReturn).
Local Abbreviation rLoop :=
  (rentLoop incomeAdjustments rentIncrease annualRaise baseExpenses
            savingsRate lifeEvents investmentReturn).

Lemma rentLoop_succ (fuel : nat) (year : Z) (rn : RentState) :
  rLoop (S fuel) year rn
  = fst (rBody year rn) :: rLoop fuel (year + 1)%Z (snd (rBody year rn)).
Proof. cbn [rentLoop]. now destruct (rBody year rn). Qed.

Lemma rentLoop_length (fuel : nat) :
  forall (year : Z) (rn : RentState),
    List.length (rLoop fuel year rn) = fuel.
Proof.
  induction fuel as [|fuel IH]; intros year rn; [reflexivity|].
  rewrite rentLoop_succ. cbn [List.length]. now rewrite IH.
Qed.

(** The rent loop and the buy loop, started from the same income and
    expense adjustment, record the same incomes year by year. *)
Lemma rent_buy_simulation (fuel : nat) :
  forall (year : Z) (rs : RunningState) (rn : RentState) (k : nat)
         (rec : YearRecord) (rrec : RentRecord),
    rs_currentIncome (rn_running rn) = rs_currentIncome rs ->
    rs_ongoingExpenseAdjustment (rn_running rn)
    = rs_ongoingExpenseAdjustment rs ->
    nth_error (buyLoop fuel year rs) k = Some rec ->
    nth_error (rLoop fuel year rn) k = Some rrec ->
    rt_year rrec = yr_year rec /\
    rt_year rrec = (year + Z.of_nat k)%Z /\
    rt_annualIncome rrec = yr_annualIncome rec /\
    rt_monthlyExpenses rrec
    == yr_monthlyExpenses rec - monthlyHousing + rt_monthlyRent rrec /\
    rt_netWorth rrec = rt_portfolio rrec /\
    0 <= rt_portfolio rrec /\
    rt_monthlyRent rrec
    == rn_currentRent rn * (1 + rentIncrease / 100) ^ Z.of_nat (S k).
Proof.
  induction fuel as [|fuel IH]; intros year rs rn k rec rrec Hci Hog Hb Hr.
  - destruct k; discriminate.
  - rewrite yearLoop_succ in Hb. rewrite rentLoop_succ in Hr.
    destruct k as [|k].
    + cbn [nth_error] in Hb, Hr. injection Hb as <-. injection Hr as <-.
      unfold yearBody, rentBody. cbn [fst].
      cbn [rt_year yr_year rt_annualIncome yr_annualIncome
           rt_monthlyExpenses yr_monthlyExpenses rt_netWorth rt_portfolio
           rt_monthlyRent].
      rewrite Hci, Hog, Z.add_0_r.
      split; [reflexivity|]. split; [reflexivity|]. split; [reflexivity|].
      split; [ring|]. split; [reflexivity|]. split; [apply max_0_nonneg|].
      change ((1 + rentIncrease / 100) ^ Z.of_nat 1)
        with (1 + rentIncrease / 100). reflexivity.
    + cbn [nth_error] in Hb, Hr.
      assert (Hstep :
        rs_currentIncome (rn_running (snd (rBody year rn)))
        = rs_currentIncome (snd (buyBody year rs)) /\
        rs_ongoingExpenseAdjustment (rn_running (snd (rBody year rn)))
        = rs_ongoingExpenseAdjustment (snd (buyBody year rs)) /\
        rn_currentRent (snd (rBody year rn))
        = rn_currentRent rn * (1 + rentIncrease / 100)).
      { unfold yearBody, rentBody. cbn [snd].
        cbn [rn_running rn_currentRent rs_currentIncome
             rs_ongoingExpenseAdjustment].
        rewrite Hci, Hog. repeat split. }
      destruct Hstep as (Hci' & Hog' & Hrent).
      destruct (IH _ _ _ _ _ _ Hci' Hog' Hb Hr)
        as (H1 & H2 & H3 & H4 & H5 & H6 & H7).
      split; [exact H1|]. split; [lia|]. split; [exact H3|].
      split; [exact H4|]. split; [exact H5|]. split; [exact H6|].
      rewrite H7, Hrent.
      replace (Z.of_nat (S (S k))) with (1 + Z.of_nat (S k))%Z by lia.
      rewrite Qpower_plus' by lia.
      change ((1 + rentIncrease / 100) ^ 1) with (1 + rentIncrease / 100).
      ring.
Qed.

End RentAgainstBuy.

(** X20: the buy and the rent projection have one record per year and
    are computed alike: in every year both record the same annual
    income, the rent expenses are the buy expenses with the housing
    cost replaced by the rent, the rent after y years is the initial
    rent compounded y times, and the renter's net worth is the
    portfolio, which is never negative. *)
Theorem buy_vs_rent_alike
    (incomeAdjustments : list IncomeAdjustment) (scenario : Scenario)
    (initialRent rentIncrease : Q) (years : Z)
    (annualRaise baseExpenses savingsRate : Q) (lifeEvents : list LifeEvent)
    (investmentReturn appreciationRate : Q) :
  let r :=
    calculateBuyVsRent incomeAdjustments scenario initialRent rentIncrease
      years annualRaise baseExpenses savingsRate lifeEvents investmentReturn
      appreciationRate in
  List.length (bvr_buy r) = Z.to_nat years /\
  List.length (bvr_rent r) = Z.to_nat years /\
  forall (k : nat) (rec : YearRecord) (rrec : RentRecord),
    nth_error (bvr_buy r) k = Some rec ->
    nth_error (bvr_rent r) k = Some rrec ->
    rt_year rrec = (Z.of_nat k + 1)%Z /\
    yr_year rec = (Z.of_nat k + 1)%Z /\
    rt_annualIncome rrec = yr_annualIncome rec /\
    rt_monthlyExpenses rrec
    == yr_monthlyExpenses rec - totalMonthlyCost (calculations scenario)
       + rt_monthlyRent rrec /\
    rt_monthlyRent rrec
    == initialRent * (1 + rentIncrease / 100) ^ (Z.of_nat k + 1) /\
    rt_netWorth rrec = rt_portfolio rrec /\
    0 <= rt_portfolio rrec.
Proof.
  intros r. subst r.
  cbn [calculateBuyVsRent bvr_buy bvr_rent calculateYearByYearFinancials
       yearlyData].
  split; [apply yearLoop_length|]. split; [apply rentLoop_length|].
  intros k rec rrec Hb Hr.
  pose proof (fun Hci Hog =>
                rent_buy_simulation _ _ _ _ _ _ _ _ _ _ _ _ _ _ _ _
                  Hci Hog Hb Hr) as Hsim.
  destruct (Hsim eq_refl eq_refl) as (H1 & H2 & H3 & H4 & H5 & H6 & H7).
  cbn [rn_currentRent] in H7.
  split; [lia|]. split; [lia|]. split; [exact H3|]. split; [exact H4|].
  split; [|split; [exact H5|exact H6]].
  rewrite H7. now replace (Z.of_nat (S k)) with (Z.of_nat k + 1)%Z by lia.
Qed.

Lemma buy_vs_rent_alike_witness :
  exists (rec : YearRecord) (rrec : RentRecord),
    nth_error
      (bvr_buy (calculateBuyVsRent [] exampleScenario 2000 3 10 3 2500 50
                  [] 8 3)) 2 = Some rec /\
    nth_error
      (bvr_rent (calculateBuyVsRent [] exampleScenario 2000 3 10 3 2500 50
                   [] 8 3)) 2 = Some rrec /\
    rt_annualIncome rrec = yr_annualIncome rec.
Proof.
  pose proof (buy_vs_rent_alike [] exampleScenario 2000 3 10 3 2500 50
                [] 8 3) as H.
  cbv zeta in H. destruct H as (Hb & Hr & H).
  destruct (nth_error
              (bvr_buy (calculateBuyVsRent [] exampleScenario 2000 3 10 3
                          2500 50 [] 8 3)) 2) as [rec|] eqn:Eb;
    [|apply nth_error_None in Eb; rewrite Hb in Eb; lia].
  destruct (nth_error
              (bvr_rent (calculateBuyVsRent [] exampleScenario 2000 3 10 3
                           2500 50 [] 8 3)) 2) as [rrec|] eqn:Er;
    [|apply nth_error_None in Er; rewrite Hr in Er; lia].
  exists rec, rrec. split; [reflexivity|]. split; [reflexivity|].
  destruct (H 2%nat rec rrec Eb Er) as (_ & _ & Hinc & _).
  exact Hinc.
Defined.

(** ** More on the year-by-year simulator *)

Lemma some_inj {T : Type} (a b : T) : Some a = Some b -> a = b.
Proof. now intros [=]. Qed.

(** X21: the buy projection has one record per year, numbered from 1.
    In every record the monthly income is a twelfth of the annual
    income, the discretionary amount is income less expenses, the
    savings are the savings rate applied to a positive discretionary
    amount and 0 otherwise, the portfolio is the previous portfolio
    grown for twelve months with those savings, less the one-time
    expenses, floored at 0 (so never negative), and the net worth is
    portfolio plus equity. *)
Theorem yearly_record_invariants
    (incomeAdjustments : list IncomeAdjustment) (scenario : Scenario)
    (years : Z) (annualRaise baseExpenses savingsRate : Q)
    (lifeEvents : list LifeEvent) (investmentReturn appreciationRate : Q)
    (k : nat) (rec : YearRecord) :
  let result :=
    calculateYearByYearFinancials incomeAdjustments scenario years
      annualRaise baseExpenses savingsRate lifeEvents investmentReturn
      appreciationRate in
  let start :=
    JS.max 0 (currentPortfolio (incomeInfo scenario)
              - downPaymentAmount (propertyInfo scenario)) in
  nth_error (yearlyData result) k = Some rec ->
  List.length (yearlyData result) = Z.to_nat years /\
  yr_year rec = (Z.of_nat k + 1)%Z /\
  yr_monthlyIncome rec = yr_annualIncome rec / 12 /\
  yr_monthlyDiscretionary rec
  = yr_monthlyIncome rec - yr_monthlyExpenses rec /\
  (0 < yr_monthlyDiscretionary rec ->
   yr_monthlySavings rec
   = yr_monthlyDiscretionary rec * savingsRate / 100) /\
  (yr_monthlyDiscretionary rec <= 0 -> yr_monthlySavings rec = 0) /\
  (0 <= savingsRate -> 0 <= yr_monthlySavings rec) /\
  yr_portfolio rec
  = JS.max 0 (growMonths 12 (yr_monthlySavings rec)
                         (investmentReturn / 100 / 12)
                         (portfolioBefore start (yearlyData result) k)
              - yr_oneTimeExpense rec) /\
  0 <= yr_portfolio rec /\
  yr_equity rec = equityAt (equityData result) (Z.of_nat k + 1) /\
  yr_netWorth rec = yr_portfolio rec + yr_equity rec.
Proof.
  intros result start H. subst result.
  cbn [calculateYearByYearFinancials yearlyData equityData] in *.
  fold start in H |- *.
  set (eqd := calculateEquityOverTime _ _ _ _ _) in *.
  set (rs0 := mkRunningState _ start 0) in *.
  assert (Hk : (k < Z.to_nat years)%nat).
  { destruct (Nat.lt_ge_cases k (Z.to_nat years)) as [Hlt|Hge]; [exact Hlt|].
    rewrite (proj2 (nth_error_None _ _)) in H; [discriminate|].
    rewrite yearLoop_length. exact Hge. }
  split; [apply yearLoop_length|].
  rewrite <- (stateAfter_portfolio _ _ _ _ _ _ _ _ (Z.to_nat years) 1 rs0 k)
    by exact Hk.
  rewrite yearLoop_nth_body in H by exact Hk.
  apply some_inj in H. subst rec.
  replace (1 + Z.of_nat k)%Z with (Z.of_nat k + 1)%Z by lia.
  generalize (Z.of_nat k + 1)%Z. intros y.
  unfold yearBody. cbn [fst].
  cbn [yr_year yr_monthlyIncome yr_annualIncome yr_monthlyDiscretionary
       yr_monthlyExpenses yr_monthlySavings yr_portfolio yr_oneTimeExpense
       yr_equity yr_netWorth].
  match goal with
  | |- context [JS.gtb ?d 0] => set (disc := d); destruct (JS.gtb disc 0) eqn:E
  end.
  - apply gtb_true in E.
    split; [reflexivity|]. split; [reflexivity|]. split; [reflexivity|].
    split; [intros _; reflexivity|]. split; [intros Hle; lra|].
    split; [intros Hs; apply Qle_shift_div_l; [reflexivity|]; nra|].
    split; [reflexivity|]. split; [apply max_0_nonneg|].
    split; reflexivity.
  - apply gtb_false in E.
    split; [reflexivity|]. split; [reflexivity|]. split; [reflexivity|].
    split; [intros Hlt; lra|]. split; [intros _; reflexivity|].
    split; [intros _; apply Qle_refl|].
    split; [reflexivity|]. split; [apply max_0_nonneg|].
    split; reflexivity.
Qed.

Lemma yearly_record_invariants_witness :
  exists rec : YearRecord,
    nth_error
      (yearlyData
         (calculateYearByYearFinancials [] exampleScenario 10 3 2500 50
            [] 8 3)) 4 = Some rec /\
    yr_year rec = 5%Z /\ 0 <= yr_portfolio rec.
Proof.
  destruct (nth_error
              (yearlyData
                 (calculateYearByYearFinancials [] exampleScenario 10 3 2500
                    50 [] 8 3)) 4) as [rec|] eqn:E.
  - exists rec. split; [reflexivity|].
    pose proof (yearly_record_invariants [] exampleScenario 10 3 2500 50
                  [] 8 3 4 rec) as H.
    cbv zeta in H. destruct (H E) as (_ & Hy & _ & _ & _ & _ & _ & _ & Hp & _).
    split; [exact Hy|exact Hp].
  - exfalso. apply nth_error_None in E.
    cbn [calculateYearByYearFinancials yearlyData] in E.
    rewrite yearLoop_length in E. lia.
Defined.

Section PlainProjection.

Variables monthlyHousing annualRaise baseExpenses savingsRate : Q.
Variable investmentReturn : Q.
Variable equityData : list EquityRow.

Local Abbreviation plainBody :=
  (yearBody [] monthlyHousing annualRaise baseExpenses savingsRate []
            investmentReturn equityData).
Local Abbreviation plainAfter :=
  (stateAfter [] monthlyHousing annualRaise baseExpenses savingsRate []
              investmentReturn equityData).

(** Without adjustments and events the income compounds with the raise
    and the expense adjustment stays as it is. *)
Lemma stateAfter_plain (year : Z) (rs : RunningState) (j : nat) :
  rs_currentIncome (plainAfter j year rs)
  == rs_currentIncome rs * (1 + annualRaise / 100) ^ Z.of_nat j /\
  rs_ongoingExpenseAdjustment (plainAfter j year rs)
  = rs_ongoingExpenseAdjustment rs.
Proof.
  induction j as [|j [IH1 IH2]].
  - cbn [stateAfter]. split; [|reflexivity].
    change ((1 + annualRaise / 100) ^ Z.of_nat 0) with 1. ring.
  - rewrite stateAfter_succ_r. unfold yearBody. cbn [snd].
    cbn [find applyEvents fold_left rs_currentIncome
         rs_ongoingExpenseAdjustment st_currentIncome
         st_ongoingExpenseAdjustment].
    split; [|exact IH2]. rewrite IH1.
    replace (Z.of_nat (S j)) with (Z.of_nat j + 1)%Z by lia.
    rewrite Qpower_plus' by lia.
    change ((1 + annualRaise / 100) ^ 1) with (1 + annualRaise / 100).
    ring.
Qed.

End PlainProjection.

(** The portfolio carried by the loop is never negative once it starts
    non-negative. *)
Lemma stateAfter_portfolio_nonneg
    (incomeAdjustments : list IncomeAdjustment)
    (monthlyHousing annualRaise baseExpenses savingsRate : Q)
    (lifeEvents : list LifeEvent) (investmentReturn : Q)
    (equityData : list EquityRow) (year : Z) (rs : RunningState) (j : nat) :
  0 <= rs_portfolio rs ->
  0 <= rs_portfolio
         (stateAfter incomeAdjustments monthlyHousing annualRaise
            baseExpenses savingsRate lifeEvents investmentReturn equityData
            j year rs).
Proof.
  intros H. destruct j as [|j]; [exact H|].
  rewrite stateAfter_succ_r. unfold yearBody. cbn [snd rs_portfolio].
  apply max_0_nonneg.
Qed.

(** X22: without income adjustments and life events the income of year
    y is the starting income compounded y times with the raise, the
    monthly expenses are the housing cost plus the base expenses in
    every year, there is no one-time expense, and for a non-negative
    return and savings rate the portfolio never falls below that of the
    year before. *)
Theorem plain_projection
    (scenario : Scenario) (years : Z)
    (annualRaise baseExpenses savingsRate : Q)
    (investmentReturn appreciationRate : Q) (k : nat) (rec : YearRecord) :
  let result :=
    calculateYearByYearFinancials [] scenario years annualRaise baseExpenses
      savingsRate [] investmentReturn appreciationRate in
  let start :=
    JS.max 0 (currentPortfolio (incomeInfo scenario)
              - downPaymentAmount (propertyInfo scenario)) in
  nth_error (yearlyData result) k = Some rec ->
  yr_annualIncome rec
  == annualIncome (incomeInfo scenario)
     * (1 + annualRaise / 100) ^ (Z.of_nat k + 1) /\
  yr_monthlyExpenses rec
  = totalMonthlyCost (calculations scenario) + baseExpenses + 0 /\
  yr_oneTimeExpense rec = 0 /\
  (0 <= investmentReturn -> 0 <= savingsRate ->
   portfolioBefore start (yearlyData result) k <= yr_portfolio rec).
Proof.
  intros result start H. subst result.
  cbn [calculateYearByYearFinancials yearlyData] in *.
  fold start in H |- *.
  set (eqd := calculateEquityOverTime _ _ _ _ _) in *.
  set (rs0 := mkRunningState _ start 0) in *.
  set (h := totalMonthlyCost (calculations scenario)) in *.
  assert (Hk : (k < Z.to_nat years)%nat).
  { destruct (Nat.lt_ge_cases k (Z.to_nat years)) as [Hlt|Hge]; [exact Hlt|].
    rewrite (proj2 (nth_error_None _ _)) in H; [discriminate|].
    rewrite yearLoop_length. exact Hge. }
  rewrite <- (stateAfter_portfolio _ _ _ _ _ _ _ _ (Z.to_nat years) 1 rs0 k)
    by exact Hk.
  rewrite yearLoop_nth_body in H by exact Hk.
  apply some_inj in H. subst rec.
  destruct (stateAfter_plain h annualRaise baseExpenses savingsRate
              investmentReturn eqd 1 rs0 k) as [Hci Hog].
  pose proof (stateAfter_portfolio_nonneg [] h annualRaise baseExpenses
                savingsRate [] investmentReturn eqd 1 rs0 k
                (max_0_nonneg _)) as Hpos.
  set (rs := stateAfter [] h annualRaise baseExpenses savingsRate []
               investmentReturn eqd k 1 rs0) in *.
  generalize (1 + Z.of_nat k)%Z. intros y.
  unfold yearBody. cbn [fst].
  cbn [find applyEvents fold_left yr_annualIncome yr_monthlyExpenses
       yr_oneTimeExpense yr_portfolio st_currentIncome st_oneTimeExpense].
  split.
  { rewrite Hci. cbn [rs0 rs_currentIncome].
    replace (Z.of_nat k + 1)%Z with (Z.of_nat k + 1)%Z by reflexivity.
    rewrite Qpower_plus' by lia.
    change ((1 + annualRaise / 100) ^ 1) with (1 + annualRaise / 100).
    ring. }
  split; [rewrite Hog; reflexivity|]. split; [reflexivity|].
  intros Hret Hsav.
  match goal with
  | |- _ <= JS.max 0 (growMonths 12 ?s ?r ?p - 0) =>
      assert (Hs : 0 <= s);
      [|destruct (growMonths_nonneg_mono s r 0 Hs (monthlyRate_nonneg _ Hret)
                    12 p Hpos ltac:(lia)) as [_ Hmono];
        change (growMonths 0 s r p) with p in Hmono;
        assert (Hle : p <= growMonths 12 s r p - 0) by lra;
        pose proof (max_0_mono _ _ Hle) as Hmax;
        rewrite (max_0_id p Hpos) in Hmax; exact Hmax]
  end.
  match goal with
  | |- context [JS.gtb ?d 0] => destruct (JS.gtb d 0) eqn:E
  end.
  - apply gtb_true in E. apply Qle_shift_div_l; [reflexivity|]. nra.
  - apply Qle_refl.
Qed.

Lemma plain_projection_witness :
  exists rec : YearRecord,
    nth_error
      (yearlyData
         (calculateYearByYearFinancials [] exampleScenario 10 3 2500 50
            [] 8 3)) 4 = Some rec /\
    yr_annualIncome rec == 120000 * (1 + 3 / 100) ^ 5.
Proof.
  destruct (nth_error
              (yearlyData
                 (calculateYearByYearFinancials [] exampleScenario 10 3 2500
                    50 [] 8 3)) 4) as [rec|] eqn:E.
  - exists rec. split; [reflexivity|].
    pose proof (plain_projection exampleScenario 10 3 2500 50 8 3 4 rec) as H.
    cbv zeta in H. destruct (H E) as (Hinc & _). exact Hinc.
  - exfalso. apply nth_error_None in E.
    cbn [calculateYearByYearFinancials yearlyData] in E.
    rewrite yearLoop_length in E. lia.
Defined.

Lemma applyEvent_incomeShift (d : Q) (y : Z) (e : LifeEvent)
    (s' s : EventState) :
  incomeShift d s' s -> incomeShift d (applyEvent y s' e) (applyEvent y s e).
Proof.
  intros (H1 & H2 & H3). unfold incomeShift.
  case_applyEvent; rewrite ?H1, ?H2; repeat split; try assumption;
    rewrite H3; ring.
Qed.

Lemma applyEvents_incomeShift (d : Q) (y : Z) (evs : list LifeEvent) :
  forall s' s : EventState,
    incomeShift d s' s ->
    incomeShift d (applyEvents y evs s') (applyEvents y evs s).
Proof.
  induction evs as [|e evs IH]; intros s' s H; [exact H|].
  cbn. apply IH. now apply applyEvent_incomeShift.
Qed.

(** The effect of one more income event on the events of a year. *)
Lemma applyEvents_income (y : Z) (evs1 evs2 : list LifeEvent)
    (k : Z) (desc : string) (amount : Q) (st : EventState) :
  incomeShift (if (k =? y)%Z then amount else 0)
    (applyEvents y (evs1 ++ mkLifeEvent k desc "income" amount :: evs2) st)
    (applyEvents y (evs1 ++ evs2) st).
Proof.
  rewrite applyEvents_insert, applyEvents_app.
  apply applyEvents_incomeShift. unfold applyEvent, incomeShift. cbn.
  destruct (k =? y)%Z; cbn; repeat split; ring.
Qed.

(** The expense adjustment that the events of a year leave depends on
    the expense adjustment they start from only. *)
Lemma applyEvents_ongoing_only (y : Z) (evs : list LifeEvent) :
  forall s' s : EventState,
    st_ongoingExpenseAdjustment s' = st_ongoingExpenseAdjustment s ->
    st_ongoingExpenseAdjustment (applyEvents y evs s')
    = st_ongoingExpenseAdjustment (applyEvents y evs s).
Proof.
  induction evs as [|e evs IH]; intros s' s H; [exact H|].
  cbn. apply IH. case_applyEvent; rewrite ?H; reflexivity.
Qed.

Section MoreOnEvents.

Variable incomeAdjustments : list IncomeAdjustment.
Variables monthlyHousing annualRaise baseExpenses savingsRate : Q.
Variable investmentReturn : Q.
Variable equityData : list EquityRow.

Local Abbreviation body evs :=
  (yearBody incomeAdjustments monthlyHousing annualRaise baseExpenses
            savingsRate evs investmentReturn equityData).
Local Abbreviation loop evs :=
  (yearLoop incomeAdjustments monthlyHousing annualRaise baseExpenses
            savingsRate evs investmentReturn equityData).

(** Two event lists that leave the same expense adjustments give the
    same monthly expenses in every year. *)
Lemma yearLoop_expenses_agree (evs' evs : list LifeEvent) (fuel : nat) :
  (forall (y : Z) (s' s : EventState),
     st_ongoingExpenseAdjustment s' = st_ongoingExpenseAdjustment s ->
     st_ongoingExpenseAdjustment (applyEvents y evs' s')
     = st_ongoingExpenseAdjustment (applyEvents y evs s)) ->
  forall (year : Z) (rs' rs : RunningState),
    rs_ongoingExpenseAdjustment rs' = rs_ongoingExpenseAdjustment rs ->
    map yr_monthlyExpenses (loop evs' fuel year rs')
    = map yr_monthlyExpenses (loop evs fuel year rs).
Proof.
  intros Hev. induction fuel as [|fuel IH]; intros year rs' rs Hog;
    [reflexivity|].
  rewrite !yearLoop_succ. cbn [map]. f_equal.
  - unfold yearBody. cbn [fst yr_monthlyExpenses]. now rewrite Hog.
  - apply IH. unfold yearBody. cbn [snd rs_ongoingExpenseAdjustment].
    apply Hev. cbn [st_ongoingExpenseAdjustment]. exact Hog.
Qed.

(** Two event lists that act alike in every year of the loop give the
    same records. *)
Lemma yearLoop_agree (evs' evs : list LifeEvent) (fuel : nat) :
  forall (year : Z) (rs : RunningState),
    (forall (y : Z) (st : EventState),
       (year <= y < year + Z.of_nat fuel)%Z ->
       applyEvents y evs' st = applyEvents y evs st) ->
    loop evs' fuel year rs = loop evs fuel year rs.
Proof.
  induction fuel as [|fuel IH]; intros year rs Hev; [reflexivity|].
  rewrite !yearLoop_succ.
  rewrite (yearBody_agree _ _ _ _ _ _ _ evs' evs year rs)
    by (intros st; apply Hev; lia).
  f_equal. apply IH. intros y st Hy. apply Hev. lia.
Qed.

End MoreOnEvents.

(** X23: one more income event of year k leaves the records of years
    1 .. k-1 and the monthly expenses of every year unchanged, and in
    year k raises the recorded annual income by the amount, and the
    monthly income and the discretionary amount by a twelfth of it. *)
Theorem income_event_application
    (incomeAdjustments : list IncomeAdjustment) (scenario : Scenario)
    (years : Z) (annualRaise baseExpenses savingsRate : Q)
    (evs1 evs2 : list LifeEvent) (investmentReturn appreciationRate : Q)
    (k : Z) (desc : string) (amount : Q) :
  (1 <= k <= years)%Z ->
  let run evs :=
    yearlyData
      (calculateYearByYearFinancials incomeAdjustments scenario years
         annualRaise baseExpenses savingsRate evs investmentReturn
         appreciationRate) in
  let without := run (evs1 ++ evs2) in
  let withIncome := run (evs1 ++ mkLifeEvent k desc "income" amount :: evs2) in
  (forall j : nat, (Z.of_nat j + 1 < k)%Z ->
     nth_error withIncome j = nth_error without j) /\
  map yr_monthlyExpenses withIncome = map yr_monthlyExpenses without /\
  exists rec rec' : YearRecord,
    nth_error without (Z.to_nat (k - 1)) = Some rec /\
    nth_error withIncome (Z.to_nat (k - 1)) = Some rec' /\
    yr_annualIncome rec' == yr_annualIncome rec + amount /\
    yr_monthlyIncome rec' == yr_monthlyIncome rec + amount / 12 /\
    yr_monthlyDiscretionary rec'
    == yr_monthlyDiscretionary rec + amount / 12 /\
    yr_oneTimeExpense rec' = yr_oneTimeExpense rec.
Proof.
  intros Hk run without withIncome. subst without withIncome run.
  cbn [calculateYearByYearFinancials yearlyData].
  set (eqd := calculateEquityOverTime _ _ _ _ _).
  set (rs0 := mkRunningState _ _ 0).
  set (h := totalMonthlyCost (calculations scenario)).
  set (evs' := evs1 ++ mkLifeEvent k desc "income" amount :: evs2).
  assert (Hskip : forall y st, (y < k)%Z ->
    applyEvents y evs' st = applyEvents y (evs1 ++ evs2) st).
  { intros y st Hy. apply applyEvents_skip. cbn. lia. }
  split; [|split].
  - intros j Hj. rewrite !yearLoop_nth_body by lia.
    rewrite (stateAfter_agree _ _ _ _ _ _ _ evs' (evs1 ++ evs2) k)
      by (auto; lia).
    rewrite (yearBody_agree _ _ _ _ _ _ _ evs' (evs1 ++ evs2));
      [reflexivity|].
    intros st. apply Hskip. lia.
  - apply yearLoop_expenses_agree; [|reflexivity].
    intros y s' s Hog. subst evs'.
    destruct (applyEvents_income y evs1 evs2 k desc amount s') as (H1 & _).
    rewrite H1. now apply applyEvents_ongoing_only.
  - set (j := Z.to_nat (k - 1)).
    assert (Hj : (j < Z.to_nat years)%nat) by lia.
    rewrite !yearLoop_nth_body by exact Hj.
    rewrite (stateAfter_agree _ _ _ _ _ _ _ evs' (evs1 ++ evs2) k)
      by (auto; lia).
    replace (1 + Z.of_nat j)%Z with k by lia.
    set (rs := stateAfter _ _ _ _ _ (evs1 ++ evs2) _ _ j 1 rs0).
    eexists. eexists. split; [reflexivity|]. split; [reflexivity|].
    unfold yearBody. cbn [fst].
    cbn [yr_annualIncome yr_monthlyIncome yr_monthlyDiscretionary
         yr_oneTimeExpense].
    match goal with
    | |- context [applyEvents k evs' ?st] =>
        destruct (applyEvents_income k evs1 evs2 k desc amount st)
          as (_ & H2 & H3)
    end.
    rewrite Z.eqb_refl in H3. fold evs' in H2, H3.
    rewrite H3. split; [reflexivity|]. split; [field|].
    split; [field|exact H2].
Qed.

Lemma income_event_application_witness :
  (1 <= 5 <= 10)%Z /\
  map yr_monthlyExpenses
    (yearlyData
       (calculateYearByYearFinancials [] exampleScenario 10 3 2500 50
          [mkLifeEvent 5 "promotion" "income" 10000] 8 3))
  = map yr_monthlyExpenses
      (yearlyData
         (calculateYearByYearFinancials [] exampleScenario 10 3 2500 50
            [] 8 3)).
Proof.
  split; [lia|].
  apply (income_event_application [] exampleScenario 10 3 2500 50 [] []
           8 3 5 "promotion" 10000). lia.
Defined.

Lemma applyEvent_unknown_type (y : Z) (st : EventState) (e : LifeEvent) :
  ev_type e <> "one-time"%string -> ev_type e <> "ongoing"%string ->
  ev_type e <> "income"%string ->
  applyEvent y st e = st.
Proof.
  intros H1 H2 H3. unfold applyEvent.
  apply String.eqb_neq in H1, H2, H3. rewrite H1, H2, H3.
  now destruct (ev_year e =? y)%Z.
Qed.

(** X24: a life event scheduled before year 1 or after the last year of
    the horizon, or whose type is none of "one-time", "ongoing" and
    "income", changes nothing: the projection is the same with and
    without it. *)
Theorem ignored_life_event
    (incomeAdjustments : list IncomeAdjustment) (scenario : Scenario)
    (years : Z) (annualRaise baseExpenses savingsRate : Q)
    (evs1 evs2 : list LifeEvent) (investmentReturn appreciationRate : Q)
    (e : LifeEvent) :
  (ev_year e < 1)%Z \/ (years < ev_year e)%Z \/
  (ev_type e <> "one-time"%string /\ ev_type e <> "ongoing"%string /\
   ev_type e <> "income"%string) ->
  calculateYearByYearFinancials incomeAdjustments scenario years annualRaise
    baseExpenses savingsRate (evs1 ++ e :: evs2) investmentReturn
    appreciationRate
  = calculateYearByYearFinancials incomeAdjustments scenario years
      annualRaise baseExpenses savingsRate (evs1 ++ evs2) investmentReturn
      appreciationRate.
Proof.
  intros H. unfold calculateYearByYearFinancials. f_equal.
  apply yearLoop_agree. intros y st Hy.
  rewrite applyEvents_insert, applyEvents_app. f_equal.
  destruct H as [H|[H|(H1 & H2 & H3)]].
  - apply applyEvent_other_year. lia.
  - apply applyEvent_other_year. lia.
  - now apply applyEvent_unknown_type.
Qed.

Lemma ignored_life_event_witness :
  (10 < 12)%Z /\
  calculateYearByYearFinancials [] exampleScenario 10 3 2500 50
    [mkLifeEvent 12 "wedding" "one-time" 30000] 8 3
  = calculateYearByYearFinancials [] exampleScenario 10 3 2500 50 [] 8 3.
Proof.
  split; [lia|].
  apply (ignored_life_event [] exampleScenario 10 3 2500 50 [] [] 8 3
           (mkLifeEvent 12 "wedding" "one-time" 30000)).
  right. left. cbn. lia.
Defined.

(** ** storage.js *)

Lemma trimEnd_nonempty (c : ascii) (rest : string) :
  isWhitespace c = false -> trimEnd (String c rest) <> EmptyString.
Proof.
  intros Hc. cbn [trimEnd]. destruct (trimEnd rest); [rewrite Hc|]; discriminate.
Qed.

Lemma trim_empty_iff (s : string) :
  trim s = EmptyString <-> allWhitespace s = true.
Proof.
  unfold trim. induction s as [|c rest IH]; [cbn; tauto|].
  cbn [trimStart allWhitespace]. destruct (isWhitespace c) eqn:Hc.
  - rewrite andb_true_l. exact IH.
  - rewrite andb_false_l. split; [|discriminate].
    intros H. exfalso. exact (trimEnd_nonempty c rest Hc H).
Qed.

Lemma name_check_allWhitespace (name : string) :
  String.eqb name "" || String.eqb (trim name) "" = allWhitespace name.
Proof.
  destruct (String.eqb_spec name "") as [->|Hne]; [reflexivity|].
  rewrite orb_false_l.
  destruct (String.eqb_spec (trim name) "") as [Ht|Ht];
    destruct (allWhitespace name) eqn:Hw; try reflexivity.
  - apply trim_empty_iff in Ht. congruence.
  - apply trim_empty_iff in Hw. contradiction.
Qed.

Lemma getScenario_app (id : string) (l1 l2 : list SavedScenario) :
  getScenario id (l1 ++ l2) =
  match getScenario id l1 with
  | Some s => Some s
  | None => getScenario id l2
  end.
Proof.
  unfold getScenario. induction l1 as [|x l1 IH]; [reflexivity|].
  cbn [app find]. destruct (String.eqb (sc_id x) id); [reflexivity|exact IH].
Qed.

Lemma findIndex_None (id : string) (l : list SavedScenario) :
  findIndex id l = None <-> getScenario id l = None.
Proof.
  unfold getScenario. induction l as [|x l IH]; [cbn; tauto|].
  cbn [findIndex find]. destruct (String.eqb (sc_id x) id).
  - split; discriminate.
  - destruct (findIndex id l); cbn [option_map].
    + split; [discriminate|]. intros H. apply IH in H. discriminate.
    + split; [|reflexivity]. intros _. apply IH. reflexivity.
Qed.

Lemma getScenario_replaceAt (id0 id : string) (s : SavedScenario)
    (l : list SavedScenario) (i : nat) :
  findIndex id0 l = Some i -> sc_id s = id0 ->
  getScenario id (replaceAt i s l) =
  if String.eqb id0 id then Some s else getScenario id l.
Proof.
  unfold getScenario. intros Hi Hs. subst id0. revert i Hi.
  induction l as [|x l IH]; intros i Hi; [discriminate|].
  cbn [findIndex] in Hi. destruct (String.eqb_spec (sc_id x) (sc_id s)) as [Ex|Ex].
  - injection Hi as <-. cbn [replaceAt find]. rewrite Ex.
    destruct (String.eqb (sc_id s) id); reflexivity.
  - destruct (findIndex (sc_id s) l) as [j|] eqn:Ej; [|discriminate].
    cbn [option_map] in Hi. injection Hi as <-. cbn [replaceAt find].
    destruct (String.eqb_spec (sc_id x) id) as [Exi|Exi].
    + subst id. destruct (String.eqb_spec (sc_id s) (sc_id x)); [congruence|reflexivity].
    + apply IH. reflexivity.
Qed.

Lemma replaceAt_length (i : nat) (s : SavedScenario)
    (l : list SavedScenario) :
  List.length (replaceAt i s l) = List.length l.
Proof.
  revert i. induction l as [|x l IH]; intros [|i]; cbn; try reflexivity.
  now rewrite IH.
Qed.

Lemma getScenario_upsert (id : string) (s : SavedScenario)
    (l : list SavedScenario) :
  getScenario id (upsert s l) =
  if String.eqb (sc_id s) id then Some s else getScenario id l.
Proof.
  unfold upsert. destruct (findIndex (sc_id s) l) as [i|] eqn:Ei.
  - now apply getScenario_replaceAt.
  - rewrite getScenario_app. apply findIndex_None in Ei.
    destruct (String.eqb_spec (sc_id s) id) as [<-|Hne].
    + rewrite Ei. cbn. now rewrite String.eqb_refl.
    + destruct (getScenario id l); [reflexivity|].
      cbn. destruct (String.eqb_spec (sc_id s) id); [contradiction|reflexivity].
Qed.

Lemma mergeLoop_upsert (l m : list SavedScenario) (n u : nat) :
  fst (fst (mergeLoop l m n u)) = fold_left (fun acc s => upsert s acc) l m.
Proof.
  revert m n u. induction l as [|x l IH]; intros m n u; [reflexivity|].
  cbn [mergeLoop fold_left]. unfold upsert at 2.
  destruct (findIndex (sc_id x) m); apply IH.
Qed.

Lemma mergeLoop_counts (l m : list SavedScenario) (n u : nat) :
  let '(m', n', u') := mergeLoop l m n u in
  (n' + u' = n + u + List.length l)%nat /\
  (List.length m' + n = List.length m + n')%nat.
Proof.
  revert m n u. induction l as [|x l IH]; intros m n u.
  - cbn. lia.
  - cbn [mergeLoop List.length]. destruct (findIndex (sc_id x) m) as [i|].
    + specialize (IH (replaceAt i x m) n (S u)).
      destruct (mergeLoop l (replaceAt i x m) n (S u)) as [[m' n'] u'].
      rewrite replaceAt_length in IH. lia.
    + specialize (IH (m ++ [x]) (S n) u).
      destruct (mergeLoop l (m ++ [x]) (S n) u) as [[m' n'] u'].
      rewrite length_app in IH. cbn [List.length] in IH. lia.
Qed.

Lemma getScenario_fold_upsert (id : string) (l m : list SavedScenario) :
  getScenario id (fold_left (fun acc s => upsert s acc) l m) =
  match getScenario id (rev l) with
  | Some s => Some s
  | None => getScenario id m
  end.
Proof.
  revert m. induction l as [|x l IH]; intros m; [reflexivity|].
  cbn [fold_left rev]. rewrite IH, getScenario_app, getScenario_upsert.
  destruct (getScenario id (rev l)); [reflexivity|].
  cbn. destruct (String.eqb (sc_id x) id); reflexivity.
Qed.





Lemma length_eqb_0 {T : Type} (l : list T) :
  (List.length l =? 0)%nat = true <-> l = [].
Proof. destruct l; cbn; split; congruence. Qed.

Lemma app_nil_iff {T : Type} (l1 l2 : list T) :
  l1 ++ l2 = [] <-> l1 = [] /\ l2 = [].
Proof.
  split; [apply app_eq_nil|]. intros [-> ->]. reflexivity.
Qed.

Lemma single_if_nil {T : Type} (c : bool) (x : T) :
  (if c then [x] else []) = [] <-> c = false.
Proof. destruct c; split; congruence. Qed.

Lemma fieldLeb_false (x : option Q) (b : Q) :
  fieldLeb x b = false <-> forall v : Q, x = Some v -> b < v.
Proof.
  destruct x as [w|]; cbn [fieldLeb].
  - rewrite leb_false. split.
    + intros H v Hv. injection Hv as <-. exact H.
    + intros H. now apply H.
  - split; [intros _ v Hv; discriminate Hv | reflexivity].
Qed.

Lemma fieldLtb_false (x : option Q) (b : Q) :
  fieldLtb x b = false <-> forall v : Q, x = Some v -> b <= v.
Proof.
  destruct x as [w|]; cbn [fieldLtb].
  - rewrite ltb_false. split.
    + intros H v Hv. injection Hv as <-. exact H.
    + intros H. now apply H.
  - split; [intros _ v Hv; discriminate Hv | reflexivity].
Qed.

Lemma fieldGtb_false (x : option Q) (b : Q) :
  fieldGtb x b = false <-> forall v : Q, x = Some v -> v <= b.
Proof.
  destruct x as [w|]; cbn [fieldGtb].
  - rewrite gtb_false. split.
    + intros H v Hv. injection Hv as <-. exact H.
    + intros H. now apply H.
  - split; [intros _ v Hv; discriminate Hv | reflexivity].
Qed.

(** X25: [validateScenario] accepts a scenario exactly when its name has
    a character that is not white space, its property data are present
    and each of the purchase price, down payment percent, interest rate
    and loan term that reads as a number is within its bound (price
    > 0, 0 <= percent <= 100, rate >= 0, term > 0), and its income data
    are present with an annual income that, if it reads as a number, is
    positive.  A field that is missing or does not read as a number
    passes every check, so a named scenario whose property and income
    data are empty objects is accepted.  The scenario is valid exactly
    when the list of errors is empty. *)
Theorem validateScenario_accepts (scenario : SavedScenario) :
  (valid (validateScenario scenario) = true <->
   allWhitespace (sc_name scenario) = false /\
   (exists p, sc_propertyInfo scenario = Some p /\
      (forall v, sp_purchasePrice p = Some v -> 0 < v) /\
      (forall v, sp_downPaymentPercent p = Some v -> 0 <= v /\ v <= 100) /\
      (forall v, sp_interestRate p = Some v -> 0 <= v) /\
      (forall v, sp_loanTerm p = Some v -> 0 < v)) /\
   (exists i, sc_incomeInfo scenario = Some i /\
      forall v, si_annualIncome i = Some v -> 0 < v)) /\
  (allWhitespace (sc_name scenario) = false ->
   sc_propertyInfo scenario = Some (mkSavedProperty None None None None) ->
   sc_incomeInfo scenario = Some (mkSavedIncome None) ->
   valid (validateScenario scenario) = true) /\
  (valid (validateScenario scenario) = true <->
   errors (validateScenario scenario) = []).
Proof.
  assert (Hv : valid (validateScenario scenario) = true <->
               errors (validateScenario scenario) = []).
  { unfold validateScenario. cbn [valid errors]. apply length_eqb_0. }
  assert (Hmain : valid (validateScenario scenario) = true <->
    allWhitespace (sc_name scenario) = false /\
    (exists p, sc_propertyInfo scenario = Some p /\
       (forall v, sp_purchasePrice p = Some v -> 0 < v) /\
       (forall v, sp_downPaymentPercent p = Some v -> 0 <= v /\ v <= 100) /\
       (forall v, sp_interestRate p = Some v -> 0 <= v) /\
       (forall v, sp_loanTerm p = Some v -> 0 < v)) /\
    (exists i, sc_incomeInfo scenario = Some i /\
       forall v, si_annualIncome i = Some v -> 0 < v)).
  { rewrite Hv. unfold validateScenario. cbn [errors].
    rewrite !app_nil_iff, single_if_nil, name_check_allWhitespace.
    split.
    - intros (Hn & Hp & Hi). split; [exact Hn|]. split.
      + destruct (sc_propertyInfo scenario) as [p|]; [|discriminate].
        exists p. split; [reflexivity|].
        rewrite !app_nil_iff, !single_if_nil in Hp.
        destruct Hp as (H1 & H2 & H3 & H4).
        apply orb_false_iff in H2. destruct H2 as [H2a H2b].
        rewrite fieldLeb_false in H1, H4.
        rewrite fieldLtb_false in H2a, H3. rewrite fieldGtb_false in H2b.
        split; [exact H1|]. split; [|split; [exact H3|exact H4]].
        intros v Hval. split; [now apply H2a|now apply H2b].
      + destruct (sc_incomeInfo scenario) as [i|]; [|discriminate].
        exists i. split; [reflexivity|].
        rewrite single_if_nil, fieldLeb_false in Hi. exact Hi.
    - intros (Hn & (p & Ep & H1 & H2 & H3 & H4) & (i & Ei & H5)).
      rewrite Ep, Ei. split; [exact Hn|]. split.
      + rewrite !app_nil_iff, !single_if_nil.
        split; [now apply fieldLeb_false|].
        split; [|split; [now apply fieldLtb_false|now apply fieldLeb_false]].
        apply orb_false_iff. split.
        * apply fieldLtb_false. intros v Hval. now apply H2.
        * apply fieldGtb_false. intros v Hval. now apply H2.
      + rewrite single_if_nil. now apply fieldLeb_false. }
  split; [exact Hmain|]. split; [|exact Hv].
  intros Hn Ep Ei. apply Hmain. split; [exact Hn|]. split.
  - eexists. split; [exact Ep|]. cbn.
    repeat split; intros; congruence.
  - eexists. split; [exact Ei|]. cbn. intros; congruence.
Qed.

(** X26: [saveScenario] builds the list to store and hands it to the
    storage: it returns true and that list is stored exactly when the
    write is accepted, and returns false, with the stored scenarios
    unchanged, when the write throws.  In the list it builds, a
    scenario that carries an id is found under that id, stamped with the
    current time, every other id returns what it returned before, and
    the list is one entry longer exactly when the id was not stored
    yet.  A scenario without an id is put under the fresh id,
    provided no stored scenario has an empty id or the fresh id. *)
Theorem save_then_get (setItem : list SavedScenario -> bool)
    (now uuid : string) (scenario : SavedScenario)
    (scenarios : list SavedScenario) :
  let result := saveScenario setItem now uuid scenario scenarios in
  exists updated : list SavedScenario,
    fst result = setItem updated /\
    (fst result = true -> snd result = updated) /\
    (fst result = false -> snd result = scenarios) /\
    (sc_id scenario <> ""%string ->
     getScenario (sc_id scenario) updated
       = Some (withTimestamp now scenario) /\
     (forall id, id <> sc_id scenario ->
        getScenario id updated = getScenario id scenarios) /\
     List.length updated =
       match getScenario (sc_id scenario) scenarios with
       | Some _ => List.length scenarios
       | None => S (List.length scenarios)
       end) /\
    (sc_id scenario = ""%string ->
     getScenario ""%string scenarios = None ->
     getScenario uuid scenarios = None ->
     getScenario uuid updated
       = Some (withTimestamp now (withId uuid scenario)) /\
     (forall id, id <> uuid ->
        getScenario id updated = getScenario id scenarios) /\
     List.length updated = S (List.length scenarios)).
Proof.
  cbv zeta. unfold saveScenario.
  match goal with
  | |- context [setItem ?l] => set (updated := l)
  end.
  exists updated.
  split; [destruct (setItem updated); reflexivity|].
  split; [destruct (setItem updated); [reflexivity|discriminate]|].
  split; [destruct (setItem updated); [discriminate|reflexivity]|].
  subst updated.
  destruct (findIndex (sc_id scenario) scenarios) as [i|] eqn:Ei.
  - split.
    + intros _.
      pose proof (fun id => getScenario_replaceAt (sc_id scenario) id
                    (withTimestamp now scenario) scenarios i Ei eq_refl) as Hget.
      split; [|split].
      * rewrite Hget, String.eqb_refl. reflexivity.
      * intros id Hid. rewrite Hget.
        destruct (String.eqb_spec (sc_id scenario) id); [congruence|reflexivity].
      * rewrite replaceAt_length.
        destruct (getScenario (sc_id scenario) scenarios) eqn:Eg; [reflexivity|].
        apply findIndex_None in Eg. congruence.
    + intros Hid Hnone _. rewrite Hid in Ei.
      apply findIndex_None in Hnone. congruence.
  - apply findIndex_None in Ei. split.
    + intros Hid.
      destruct (String.eqb_spec (sc_id scenario) "") as [E|_]; [contradiction|].
      split; [|split].
      * rewrite getScenario_app, Ei. cbn. now rewrite String.eqb_refl.
      * intros id Hne. rewrite getScenario_app.
        destruct (getScenario id scenarios); [reflexivity|].
        cbn. destruct (String.eqb_spec (sc_id scenario) id); [congruence|reflexivity].
      * rewrite Ei, length_app. cbn. lia.
    + intros Hid _ Hfresh. rewrite Hid. cbn [String.eqb].
      split; [|split].
      * rewrite getScenario_app, Hfresh. cbn. now rewrite String.eqb_refl.
      * intros id Hne. rewrite getScenario_app.
        destruct (getScenario id scenarios); [reflexivity|].
        cbn. destruct (String.eqb_spec uuid id); [congruence|reflexivity].
      * rewrite length_app. cbn. lia.
Qed.



(** X29: after a successful import every id returns the last imported
    scenario with that id, and an id that the file does not mention
    returns what it returned before; the two counters add up to the
    number of imported scenarios, and the stored list grows by the number
    counted as new. *)
Theorem import_merge (importedScenarios scenarios : list SavedScenario) :
  Forall (fun s => valid (validateScenario s) = true) importedScenarios ->
  let result := importFromJSON (ScenarioArray importedScenarios) scenarios in
  success (fst result) = true /\
  (newCount (fst result) + updatedCount (fst result)
   = List.length importedScenarios)%nat /\
  (List.length (snd result)
   = List.length scenarios + newCount (fst result))%nat /\
  forall id,
    getScenario id (snd result) =
    match getScenario id (rev importedScenarios) with
    | Some s => Some s
    | None => getScenario id scenarios
    end.
Proof.
  intros Hall. cbv zeta. unfold importFromJSON.
  assert (Ef : forallb (fun s => valid (validateScenario s)) importedScenarios
               = true).
  { apply forallb_forall. rewrite Forall_forall in Hall. exact Hall. }
  rewrite Ef.
  pose proof (mergeLoop_counts importedScenarios scenarios 0 0) as Hc.
  pose proof (mergeLoop_upsert importedScenarios scenarios 0 0) as Hu.
  destruct (mergeLoop importedScenarios scenarios 0 0) as [[m n] u].
  cbn [fst snd success newCount updatedCount] in *.
  split; [reflexivity|]. split; [lia|]. split; [lia|].
  intros id. rewrite Hu. apply getScenario_fold_upsert.
Qed.

Lemma validateScenario_accepts_witness :
  allWhitespace (sc_name emptyScenario) = false /\
  valid (validateScenario emptyScenario) = true /\
  valid (validateScenario starterHome) = true.
Proof.
  assert (Hn : allWhitespace (sc_name emptyScenario) = false) by reflexivity.
  split; [exact Hn|]. split.
  - exact (proj1 (proj2 (validateScenario_accepts emptyScenario))
                 Hn eq_refl eq_refl).
  - apply (proj2 (proj1 (validateScenario_accepts starterHome))).
    split; [reflexivity|]. split.
    + eexists. split; [reflexivity|].
      cbn [sp_purchasePrice sp_downPaymentPercent sp_interestRate sp_loanTerm].
      split; [intros v [= <-]; reflexivity|].
      split; [intros v [= <-]; split; discriminate|].
      split; [intros v [= <-]; discriminate|intros v [= <-]; reflexivity].
    + eexists. split; [reflexivity|]. intros v [= <-]. reflexivity.
Defined.

Lemma save_then_get_witness :
  sc_id condo <> ""%string /\
  fst (saveScenario smallStore "2024-05-05T10:00:00.000Z" "fresh"
                    condo [starterHome]) = true /\
  getScenario "b2" (snd (saveScenario smallStore "2024-05-05T10:00:00.000Z"
                                      "fresh" condo [starterHome]))
  = Some (withTimestamp "2024-05-05T10:00:00.000Z" condo).
Proof.
  assert (Hid : sc_id condo <> ""%string) by discriminate.
  assert (Hok : fst (saveScenario smallStore "2024-05-05T10:00:00.000Z"
                                  "fresh" condo [starterHome]) = true)
    by reflexivity.
  split; [exact Hid|]. split; [exact Hok|].
  pose proof (save_then_get smallStore "2024-05-05T10:00:00.000Z" "fresh"
                            condo [starterHome]) as H.
  cbv zeta in H. destruct H as (updated & _ & Hsnd & _ & H & _).
  rewrite (Hsnd Hok). exact (proj1 (H Hid)).
Defined.



Lemma import_merge_witness :
  Forall (fun s => valid (validateScenario s) = true) [condo] /\
  getScenario "b2" (snd (importFromJSON (ScenarioArray [condo]) [starterHome]))
  = Some condo.
Proof.
  assert (Hall : Forall (fun s => valid (validateScenario s) = true) [condo]).
  { constructor; [reflexivity|constructor]. }
  split; [exact Hall|].
  pose proof (import_merge [condo] [starterHome] Hall) as H.
  cbv zeta in H. destruct H as (_ & _ & _ & H).
  exact (H "b2"%string).
Defined.
